(** * Exchange calendar integration: the configuration validator and the
      calendar service adapter, embedded from the TypeScript sources

    Sources embedded here:
    - [lib/validation.ts]      (class [ExchangeConfigValidator])
    - [lib/CalendarService.ts] (class [ExchangeCalendarService], the revision
      with the cached [_exchangeService] field and [cleanup])

    Conventions of the embedding
    - a JavaScript string is a [string]; its characters stand for code units
      below 256;
    - a JavaScript number is a [Z] (only integral values are modelled);
    - a thrown value is a [JsThrown]; a function that may throw returns
      [JsThrown + A];
    - the adapter's methods run in a state-and-exception monad over the
      adapter object and the outside world; a state change made before a
      throw stays made, as in JavaScript;
    - a promise that has been started is given by the instant at which it
      settles and by what it settles to; [Promise.all] rejects with the
      rejection that comes first in time;
    - logger calls have no effect that any property below observes and are
      left out. *)

From Stdlib Require Import String Ascii List ZArith Bool Lia Arith.
Import ListNotations.
Open Scope string_scope.

Set Implicit Arguments.
Set Warnings "-register-all".

(* ===================================================================== *)
(** * JavaScript values, strings and regular expressions                  *)
(* ===================================================================== *)

Module Js.

(** Values that [JSON.parse] can produce, together with [undefined] (the
    value of an absent property). *)
Inductive JsValue : Type :=
| JUndefined
| JNull
| JBool (b : bool)
| JNum (n : Z)
| JStr (s : string)
| JArr (items : list JsValue)
| JObj (props : list (string * JsValue)).

(** What a [throw] can carry: an [Error] object (identified by its message)
    or any other value. *)
Inductive JsThrown : Type :=
| JsError (message : string)
| JsNonError (v : JsValue).

(** [ToBoolean]. *)
Definition truthy (v : JsValue) : bool :=
  match v with
  | JUndefined | JNull => false
  | JBool b => b
  | JNum n => negb (n =? 0)%Z
  | JStr s => negb (s =? "")
  | JArr _ | JObj _ => true
  end.

Fixpoint assoc (k : string) (props : list (string * JsValue)) : JsValue :=
  match props with
  | [] => JUndefined
  | (k', v) :: rest => if k =? k' then v else assoc k rest
  end.

(** [v?.k] for a key [k] that no built-in prototype defines. *)
Definition opt_prop (v : JsValue) (k : string) : JsValue :=
  match v with
  | JObj props => assoc k props
  | _ => JUndefined
  end.

(** [a === b] where [b] is a number literal. *)
Definition strict_eq_num (a : JsValue) (n : Z) : bool :=
  match a with
  | JNum m => (m =? n)%Z
  | _ => false
  end.

(** Truthiness of an optional string ([undefined] or a string). *)
Definition truthy_str (o : option string) : bool :=
  match o with
  | Some s => negb (s =? "")
  | None => false
  end.

(** [o || ""] for an optional string. *)
Definition or_empty (o : option string) : string :=
  match o with
  | Some s => s
  | None => ""
  end.

(** [o ?? ""]. *)
Definition nullish_empty (o : option string) : string :=
  match o with
  | Some s => s
  | None => ""
  end.

Fixpoint starts_with (s p : string) : bool :=
  match p, s with
  | EmptyString, _ => true
  | String _ _, EmptyString => false
  | String a p', String b s' => Ascii.eqb a b && starts_with s' p'
  end.

(** [s.includes(sub)]. *)
Fixpoint includes (s sub : string) : bool :=
  starts_with s sub ||
  match s with
  | EmptyString => false
  | String _ s' => includes s' sub
  end.

Definition lower_char (c : ascii) : ascii :=
  let n := nat_of_ascii c in
  if (65 <=? n)%nat && (n <=? 90)%nat then ascii_of_nat (n + 32) else c.

(** [s.toLowerCase()] on the ASCII letters. *)
Fixpoint toLowerCase (s : string) : string :=
  match s with
  | EmptyString => EmptyString
  | String c s' => String (lower_char c) (toLowerCase s')
  end.

(** Regular expressions, matched by derivatives. *)
Inductive regex : Type :=
| Never
| Eps
| Class (p : ascii -> bool)
| Seq (r1 r2 : regex)
| Or (r1 r2 : regex)
| Star (r : regex).

Definition Plus (r : regex) : regex := Seq r (Star r).
Definition Chr (c : ascii) : regex := Class (Ascii.eqb c).

Fixpoint nullable (r : regex) : bool :=
  match r with
  | Never => false
  | Eps => true
  | Class _ => false
  | Seq r1 r2 => nullable r1 && nullable r2
  | Or r1 r2 => nullable r1 || nullable r2
  | Star _ => true
  end.

Fixpoint deriv (c : ascii) (r : regex) : regex :=
  match r with
  | Never => Never
  | Eps => Never
  | Class p => if p c then Eps else Never
  | Seq r1 r2 =>
      if nullable r1 then Or (Seq (deriv c r1) r2) (deriv c r2)
      else Seq (deriv c r1) r2
  | Or r1 r2 => Or (deriv c r1) (deriv c r2)
  | Star r1 => Seq (deriv c r1) (Star r1)
  end.

(** [/^r$/.test(s)]. *)
Fixpoint test (r : regex) (s : string) : bool :=
  match s with
  | EmptyString => nullable r
  | String c s' => test (deriv c r) s'
  end.

(** The class [\s] on code units below 256. *)
Definition is_space (c : ascii) : bool :=
  let n := nat_of_ascii c in
  ((9 <=? n)%nat && (n <=? 13)%nat) || (n =? 32)%nat || (n =? 160)%nat.

Fixpoint all_chars (p : ascii -> bool) (s : string) : bool :=
  match s with
  | EmptyString => true
  | String c s' => p c && all_chars p s'
  end.

(** A character that is neither white space nor the at sign. *)
Definition plain_char (c : ascii) : bool :=
  negb (is_space c || Ascii.eqb c "@"%char).

End Js.

Import Js.

(* ===================================================================== *)
(** * enums.ts                                                            *)
(* ===================================================================== *)

Module Enums.

(** Modelled from the spec: the file [enums.ts] that declares the two
    numeric enums is not among the sources.  The spec gives
    [authenticationMethod : enum{STANDARD, NTLM}] and an ordinal
    [exchangeVersion] enum running from the 2007 to the 2019 release; the
    request schema in [_postAdd.ts] bounds them by 0..1 and 0..8, and the
    repository notes give [Exchange2016 = 7], [Exchange2019 = 8].  A numeric
    TypeScript enum is listed here as its (name, value) pairs. *)
Definition ExchangeAuthentication : list (string * Z) :=
  [("STANDARD", 0%Z); ("NTLM", 1%Z)].

(** Modelled from the spec: see [ExchangeAuthentication]. *)
Definition ExchangeVersion : list (string * Z) :=
  [("Exchange2007_SP1", 0%Z); ("Exchange2010", 1%Z);
   ("Exchange2010_SP1", 2%Z); ("Exchange2010_SP2", 3%Z);
   ("Exchange2013", 4%Z); ("Exchange2013_SP1", 5%Z);
   ("Exchange2015", 6%Z); ("Exchange2016", 7%Z); ("Exchange2019", 8%Z)].

Definition STANDARD : Z := 0.
Definition NTLM : Z := 1.
Definition Exchange2007_SP1 : Z := 0.
Definition Exchange2013 : Z := 4.
Definition Exchange2016 : Z := 7.

(** A member of [Object.values(E)] for a numeric enum [E]: the compiled
    object maps names to numbers and numbers back to names. *)
Inductive EnumValue : Type :=
| EnumName (s : string)
| EnumNum (n : Z).

Definition Object_values (e : list (string * Z)) : list EnumValue :=
  map (fun p => EnumName (fst p)) e ++ map (fun p => EnumNum (snd p)) e.

(** [values.includes(n)] for a number [n]. *)
Definition includes_num (values : list EnumValue) (n : Z) : bool :=
  existsb (fun v => match v with EnumNum m => (m =? n)%Z | EnumName _ => false end)
          values.

End Enums.

(* ===================================================================== *)
(** * lib/validation.ts                                                   *)
(* ===================================================================== *)

Module Validation.
Import Enums.

(** [Partial<ExchangeConfig>]: every field may be absent. *)
Record ExchangeConfig : Type := {
  url : option string;
  username : option string;
  password : option string;
  authenticationMethod : option Z;
  exchangeVersion : option Z;
  useCompression : option bool
}.

(** The two fields of a parsed [URL] object that the validator reads. *)
Record URL : Type := {
  protocol : string;
  pathname : string
}.

Record ValidationResult : Type := {
  isValid : bool;
  errors : list string
}.

Definition push (xs : list string) (x : string) : list string := xs ++ [x].

Definition msg_url_required := "Exchange URL is required".
Definition msg_url_invalid :=
  "URL must be a valid Exchange Web Services (EWS) endpoint (e.g., https://mail.company.com/ews/Exchange.asmx)".
Definition msg_username_required := "Username is required".
Definition msg_username_invalid := "Username must be a valid email address".
Definition msg_password_required := "Password is required".
Definition msg_password_empty := "Password cannot be empty".
Definition msg_auth_invalid := "Invalid authentication method".
Definition msg_version_invalid := "Invalid Exchange version".

Definition sugg_https := "Consider using HTTPS instead of HTTP for better security".
Definition sugg_ews_path := "EWS URL typically ends with '/ews/Exchange.asmx'".
Definition sugg_ntlm :=
  "NTLM authentication may require NODE_OPTIONS='--openssl-legacy-provider' for older Exchange servers".
Definition sugg_upgrade :=
  "Consider upgrading to Exchange 2013 or later for better compatibility".

(** [/^[^\s@]+@[^\s@]+\.[^\s@]+$/] *)
Definition not_space_at : regex :=
  Class (fun c => negb (is_space c || Ascii.eqb c "@"%char)).

Definition emailRegex : regex :=
  Seq (Plus not_space_at)
      (Seq (Chr "@"%char)
           (Seq (Plus not_space_at)
                (Seq (Chr "."%char) (Plus not_space_at)))).

Definition isValidEmail (email : string) : bool := test emailRegex email.

Section WithUrlParser.

(** [new URL(s)] of the host runtime: [None] when it throws. *)
Variable URL_parse : string -> option URL.

Definition isValidEwsUrl (u : string) : bool :=
  match URL_parse u with
  | None => false
  | Some urlObj =>
      if negb (protocol urlObj =? "https:") then false
      else
        let path := toLowerCase (pathname urlObj) in
        includes path "/ews/" ||
        includes path "/exchange.asmx" ||
        includes path "/microsoft-server-activesync"
  end.

Definition validate (config : ExchangeConfig) : ValidationResult :=
  let errors : list string := [] in
  (* URL validation *)
  let errors :=
    if negb (truthy_str (url config)) then push errors msg_url_required
    else if negb (isValidEwsUrl (or_empty (url config)))
         then push errors msg_url_invalid
         else errors in
  (* Username validation *)
  let errors :=
    if negb (truthy_str (username config)) then push errors msg_username_required
    else if negb (isValidEmail (or_empty (username config)))
         then push errors msg_username_invalid
         else errors in
  (* Password validation *)
  let errors :=
    if negb (truthy_str (password config)) then push errors msg_password_required
    else if (String.length (or_empty (password config)) <? 1)%nat
         then push errors msg_password_empty
         else errors in
  (* Authentication method validation *)
  let errors :=
    match authenticationMethod config with
    | Some m =>
        if negb (includes_num (Object_values ExchangeAuthentication) m)
        then push errors msg_auth_invalid else errors
    | None => errors
    end in
  (* Exchange version validation *)
  let errors :=
    match exchangeVersion config with
    | Some v =>
        if negb (includes_num (Object_values ExchangeVersion) v)
        then push errors msg_version_invalid else errors
    | None => errors
    end in
  {| isValid := (length errors =? 0)%nat; errors := errors |}.

(** [new URL(..)] throws a [TypeError] on a string it cannot parse. *)
Definition invalid_url_error : JsThrown := JsError "Invalid URL".

Definition getSuggestions (config : ExchangeConfig) : JsThrown + list string :=
  let suggestions : list string := [] in
  let after_url : JsThrown + list string :=
    if truthy_str (url config) then
      match URL_parse (or_empty (url config)) with
      | None => inl invalid_url_error
      | Some urlObj =>
          let suggestions :=
            if protocol urlObj =? "http:" then push suggestions sugg_https
            else suggestions in
          let suggestions :=
            if negb (includes (toLowerCase (pathname urlObj)) "/ews/")
            then push suggestions sugg_ews_path
            else suggestions in
          inr suggestions
      end
    else inr suggestions in
  match after_url with
  | inl e => inl e
  | inr suggestions =>
      let suggestions :=
        match authenticationMethod config with
        | Some m => if (m =? NTLM)%Z then push suggestions sugg_ntlm else suggestions
        | None => suggestions
        end in
      let suggestions :=
        match exchangeVersion config with
        | Some v =>
            (* [config.exchangeVersion && config.exchangeVersion < Exchange2013] *)
            if negb (v =? 0)%Z && (v <? Exchange2013)%Z
            then push suggestions sugg_upgrade else suggestions
        | None => suggestions
        end in
      inr suggestions
  end.

End WithUrlParser.

(** ** The five rules, as the specification words them *)

Section Rules.
Variable URL_parse : string -> option URL.

(** url: required; parses as an absolute URL; scheme https; the path
    contains one of the three EWS substrings, case-insensitively. *)
Definition rule_url (config : ExchangeConfig) : bool :=
  match url config with
  | None => false
  | Some u =>
      negb (u =? "") &&
      match URL_parse u with
      | None => false
      | Some o =>
          (protocol o =? "https:") &&
          existsb (fun sub => includes (toLowerCase (pathname o)) sub)
                  ["/ews/"; "/exchange.asmx"; "/microsoft-server-activesync"]
      end
  end.

(** Every way of cutting a string in two. *)
Fixpoint splits (s : string) : list (string * string) :=
  (EmptyString, s) ::
  match s with
  | EmptyString => []
  | String c rest => map (fun cut => (String c (fst cut), snd cut)) (splits rest)
  end.

(** A part of an address: not empty, no white space, no at sign. *)
Definition is_part (s : string) : bool :=
  negb (s =? "") && all_chars plain_char s.

(** The shape [local@domain.tld] with no embedded white space: the string
    can be cut into a part, an at sign, a part, a dot and a part. *)
Definition email_shaped (s : string) : bool :=
  existsb (fun cut =>
             is_part (fst cut) &&
             match snd cut with
             | String c rest =>
                 Ascii.eqb c "@"%char &&
                 existsb (fun cut' =>
                            is_part (fst cut') &&
                            match snd cut' with
                            | String d tld => Ascii.eqb d "."%char && is_part tld
                            | EmptyString => false
                            end)
                         (splits rest)
             | EmptyString => false
             end)
          (splits s).

(** username: required and email-shaped. *)
Definition rule_username (config : ExchangeConfig) : bool :=
  match username config with
  | None => false
  | Some u => negb (u =? "") && email_shaped u
  end.

(** password: required; zero length is an error. *)
Definition rule_password (config : ExchangeConfig) : bool :=
  match password config with
  | None => false
  | Some p => negb (String.length p =? 0)%nat
  end.

(** authenticationMethod: if present, one of the declared values. *)
Definition rule_auth (config : ExchangeConfig) : bool :=
  match authenticationMethod config with
  | None => true
  | Some m => existsb (fun p => (snd p =? m)%Z) ExchangeAuthentication
  end.

(** exchangeVersion: if present, one of the declared values. *)
Definition rule_version (config : ExchangeConfig) : bool :=
  match exchangeVersion config with
  | None => true
  | Some v => existsb (fun p => (snd p =? v)%Z) ExchangeVersion
  end.

Definition rules (config : ExchangeConfig) : list bool :=
  [rule_url config; rule_username config; rule_password config;
   rule_auth config; rule_version config].

Definition violations (config : ExchangeConfig) : nat :=
  length (filter negb (rules config)).

End Rules.

(** ** Vocabulary for the statements about [validate] *)

(** The message a rule contributes: none when it holds, else the one for a
    missing value or the one for a malformed value. *)
Definition verdict (holds present : bool) (missing malformed : string)
  : list string :=
  if holds then [] else [if present then malformed else missing].

(** What one rule contributes to the error list: nothing when it holds,
    exactly one of its messages when it is violated. *)
Definition contributes (holds : bool) (messages errs : list string) : Prop :=
  if holds then errs = []
  else exists m, In m messages /\ errs = [m].

(** A small [URL] parser used to run the validator on concrete inputs: it
    accepts ["https://host/path"] and ["http://host/path"] and nothing
    else. *)
Fixpoint path_from_slash (s : string) : string :=
  match s with
  | EmptyString => "/"
  | String c s' => if Ascii.eqb c "/"%char then s else path_from_slash s'
  end.

Definition drop (n : nat) (s : string) : string := substring n (String.length s - n) s.

Definition simple_URL_parse (s : string) : option URL :=
  if starts_with s "https://" then
    if (String.length s <=? 8)%nat then None
    else Some {| protocol := "https:"; pathname := path_from_slash (drop 8 s) |}
  else if starts_with s "http://" then
    if (String.length s <=? 7)%nat then None
    else Some {| protocol := "http:"; pathname := path_from_slash (drop 7 s) |}
  else None.

Definition mkConfig (u n p : string) (a v : option Z) : ExchangeConfig :=
  {| url := Some u; username := Some n; password := Some p;
     authenticationMethod := a; exchangeVersion := v; useCompression := None |}.

End Validation.

(* ===================================================================== *)
(** * lib/CalendarService.ts                                              *)
(* ===================================================================== *)

Module CalendarService.
Import Enums.

(** ** The object model of the EWS client library, as far as the adapter
       touches it *)

(** An EWS [DateTime] and a JavaScript [Date], each as an instant. *)
Definition DateTime : Type := Z.
Definition JsDate : Type := Z.

Inductive LegacyFreeBusyStatus : Type :=
| Free | Tentative | Busy | OOF | WorkingElsewhere | NoData.

Definition LegacyFreeBusyStatus_eqb (a b : LegacyFreeBusyStatus) : bool :=
  match a, b with
  | Free, Free | Tentative, Tentative | Busy, Busy | OOF, OOF
  | WorkingElsewhere, WorkingElsewhere | NoData, NoData => true
  | _, _ => false
  end.

Inductive SendInvitationsMode : Type :=
| SendToNone | SendOnlyToAll | SendToAllAndSaveCopy.
Inductive ConflictResolutionMode : Type :=
| NeverOverwrite | AutoResolve | AlwaysOverwrite.
Inductive SendInvitationsOrCancellationsMode : Type :=
| SendToNoneOnUpdate | SendOnlyToChanged | SendToChangedAndSaveCopy.
Inductive DeleteMode : Type :=
| HardDelete | SoftDelete | MoveToDeletedItems.
Inductive WellKnownFolderName : Type :=
| DeletedItems | MsgFolderRoot.
Inductive FolderTraversal : Type :=
| Shallow | Deep.
Inductive FolderProperty : Type :=
| IdOnly | ParentFolderIdProp | DisplayNameProp | ChildFolderCountProp.

Record FolderView : Type := {
  PageSize : Z;
  PropertySet : list FolderProperty;
  Traversal : FolderTraversal
}.

(** [SearchFilterCollection(And)] of [IsEqualTo(FolderClass, c)] filters. *)
Record SearchFilterCollection : Type := {
  FolderClass_IsEqualTo : list string
}.

Record CalendarView : Type := {
  StartDate : DateTime;
  EndDate : DateTime
}.

Record WebCredentials : Type := {
  UserName : JsValue;
  Password : JsValue
}.

(** The NTLM transport: [new XhrApi(options).useNtlmAuthentication(u, p)]. *)
Record XhrApi : Type := {
  rejectUnauthorized : bool;
  timeout : Z;
  ntlmUser : JsValue;
  ntlmPassword : JsValue
}.

(** The client handle.  [objectId] is the identity of the JavaScript object:
    two handles are the same object exactly when it agrees. *)
Record ExchangeService : Type := {
  objectId : nat;
  RequestedServerVersion : JsValue;
  Credentials : option WebCredentials;
  Url : option JsValue;
  XHRApi : option XhrApi
}.

Record Appointment : Type := {
  Id : option string;
  Subject : string;
  Start : DateTime;
  End_ : DateTime;
  Location : string;
  Body : string;
  RequiredAttendees : list string;
  FreeBusyStatus : LegacyFreeBusyStatus
}.

Record Folder : Type := {
  FolderId : string;
  ParentFolderId : string;
  DisplayName : option string;
  ChildFolderCount : Z
}.

(** ** The host application's types ([@calcom/types/Calendar]) *)

Record Person : Type := {
  email : string;
  personName : string
}.

Record Team : Type := {
  members : list Person
}.

Record CalendarEvent : Type := {
  title : string;
  startTime : string;
  endTime : string;
  location : option string;
  description : option string;
  attendees : list Person;
  team : option Team
}.

Record NewCalendarEventType : Type := {
  uid : string;
  id : string;
  password : string;
  type : string;
  url : string;
  additionalInfo : list (string * JsValue)
}.

Record IntegrationCalendar : Type := {
  externalId : string;
  name : string;
  primary : bool;
  integration : string
}.

Record EventBusyDate : Type := {
  start : JsDate;
  end_ : JsDate
}.

(** [credential.key?.toString()]: absent, or the stored key as a string. *)
Record CredentialPayload : Type := {
  key : option string
}.

(** ** What lies outside the adapter

    The decryption routine, [JSON.parse], the constructors and parsers of
    the EWS client library, the NTLM transport, and the remote server, whose
    state is [S].  A constructor is given by the value it throws, if any;
    [DateTime.Parse] returns the instant or throws on a string that is no
    date.  The four queries read the server state; save, update and delete
    change it.  [FindAppointments_latency] is the time the answer to an
    appointment query takes: it decides which of several queries that are
    under way together settles first. *)
Class Collaborators (S : Type) : Type := {
  symmetricDecrypt : string -> string -> JsThrown + string;
  JSON_parse : string -> JsThrown + JsValue;
  DateTime_Parse : string -> JsThrown + DateTime;
  DateTime_ToISOString : DateTime -> string;
  Date_new : string -> JsDate;
  ExchangeService_new : JsValue -> option JsThrown;
  WebCredentials_new : JsValue -> JsValue -> option JsThrown;
  Uri_new : JsValue -> option JsThrown;
  useNtlmAuthentication : JsValue -> JsValue -> option JsThrown;
  Appointment_Save :
    ExchangeService -> Appointment -> SendInvitationsMode -> S ->
    (JsThrown + string) * S;
  Appointment_Bind :
    ExchangeService -> string -> S -> JsThrown + Appointment;
  Appointment_Update :
    ExchangeService -> Appointment -> ConflictResolutionMode ->
    SendInvitationsOrCancellationsMode -> S -> option JsThrown * S;
  Appointment_Delete :
    ExchangeService -> Appointment -> DeleteMode -> S -> option JsThrown * S;
  Folder_Bind :
    ExchangeService -> WellKnownFolderName -> S -> JsThrown + Folder;
  FindFolders :
    ExchangeService -> WellKnownFolderName -> SearchFilterCollection ->
    FolderView -> S -> JsThrown + list Folder;
  FindAppointments :
    ExchangeService -> string -> CalendarView -> S ->
    JsThrown + list Appointment;
  FindAppointments_latency :
    ExchangeService -> string -> CalendarView -> S -> nat
}.

(** A request that went out to the server. *)
Inductive RemoteCall : Type :=
| CallSave (h : ExchangeService) (a : Appointment) (m : SendInvitationsMode)
| CallBind (h : ExchangeService) (uid : string)
| CallUpdate (h : ExchangeService) (a : Appointment)
    (c : ConflictResolutionMode) (m : SendInvitationsOrCancellationsMode)
| CallDelete (h : ExchangeService) (a : Appointment) (m : DeleteMode)
| CallFolderBind (h : ExchangeService) (n : WellKnownFolderName)
| CallFindFolders (h : ExchangeService) (root : WellKnownFolderName)
    (f : SearchFilterCollection) (v : FolderView)
| CallFindAppointments (h : ExchangeService) (folder : string) (v : CalendarView).

(** The adapter object: the fields of [ExchangeCalendarService]. *)
Record ExchangeCalendarService : Type := {
  integrationName : string;
  payload : JsValue;
  _exchangeService : option ExchangeService
}.

Section Adapter.
Context {S : Type} {collab : Collaborators S}.

(** The world around one adapter: the server, the number of
    [ExchangeService] objects constructed so far, and the requests sent so
    far (oldest first). *)
Record World : Type := {
  server : S;
  constructed : nat;
  calls : list RemoteCall
}.

Record State : Type := {
  this : ExchangeCalendarService;
  world : World
}.

(** *** The monad of the adapter's methods *)

Definition M (A : Type) : Type := State -> (JsThrown + A) * State.

Definition ret {A} (a : A) : M A := fun st => (inr a, st).
Definition throw {A} (e : JsThrown) : M A := fun st => (inl e, st).
Definition bind {A B} (c : M A) (k : A -> M B) : M B :=
  fun st =>
    match c st with
    | (inr a, st') => k a st'
    | (inl e, st') => (inl e, st')
    end.
Definition try_catch {A} (c : M A) (handler : JsThrown -> M A) : M A :=
  fun st =>
    match c st with
    | (inr a, st') => (inr a, st')
    | (inl e, st') => handler e st'
    end.

Notation "x <- c ;; k" := (bind c (fun x => k))
  (at level 61, c at next level, right associativity).
Notation "c ;;; k" := (bind c (fun _ => k))
  (at level 61, right associativity).

Definition set_server (s : S) (w : World) : World :=
  {| server := s; constructed := constructed w; calls := calls w |}.
Definition record_call (c : RemoteCall) (w : World) : World :=
  {| server := server w; constructed := constructed w; calls := calls w ++ [c] |}.
Definition count_construction (w : World) : World :=
  {| server := server w; constructed := Datatypes.S (constructed w); calls := calls w |}.
Definition with_world (f : World -> World) (st : State) : State :=
  {| this := this st; world := f (world st) |}.
Definition set_exchangeService (h : option ExchangeService) (st : State) : State :=
  {| this := {| integrationName := integrationName (this st);
                payload := payload (this st);
                _exchangeService := h |};
     world := world st |}.

(** *** Library constructors *)

Definition lift_ctor (thrown : option JsThrown) : M unit :=
  match thrown with
  | Some e => throw e
  | None => ret tt
  end.

(** [new ExchangeService(version)] *)
Definition new_ExchangeService (version : JsValue) : M ExchangeService :=
  lift_ctor (ExchangeService_new version) ;;;
  fun st =>
    (inr {| objectId := constructed (world st);
            RequestedServerVersion := version;
            Credentials := None; Url := None; XHRApi := None |},
     with_world count_construction st).

(** [new WebCredentials(u, p)] *)
Definition new_WebCredentials (u p : JsValue) : M WebCredentials :=
  lift_ctor (WebCredentials_new u p) ;;;
  ret {| UserName := u; Password := p |}.

(** [new Uri(u)] *)
Definition new_Uri (u : JsValue) : M JsValue :=
  lift_ctor (Uri_new u) ;;; ret u.

(** [new XhrApi({rejectUnauthorized: false, timeout: 30000})
      .useNtlmAuthentication(u, p)], after the dynamic import. *)
Definition new_NtlmXhrApi (u p : JsValue) : M XhrApi :=
  lift_ctor (useNtlmAuthentication u p) ;;;
  ret {| rejectUnauthorized := false; timeout := 30000;
         ntlmUser := u; ntlmPassword := p |}.

Definition set_Credentials (c : WebCredentials) (h : ExchangeService) :=
  {| objectId := objectId h; RequestedServerVersion := RequestedServerVersion h;
     Credentials := Some c; Url := Url h; XHRApi := XHRApi h |}.
Definition set_Url (u : JsValue) (h : ExchangeService) :=
  {| objectId := objectId h; RequestedServerVersion := RequestedServerVersion h;
     Credentials := Credentials h; Url := Some u; XHRApi := XHRApi h |}.
Definition set_XHRApi (x : XhrApi) (h : ExchangeService) :=
  {| objectId := objectId h; RequestedServerVersion := RequestedServerVersion h;
     Credentials := Credentials h; Url := Url h; XHRApi := Some x |}.

(** *** Remote calls *)

Definition remote_query {A} (c : RemoteCall) (q : S -> JsThrown + A) : M A :=
  fun st => (q (server (world st)), with_world (record_call c) st).

Definition remote_command {A} (c : RemoteCall) (q : S -> A * S) : M A :=
  fun st =>
    let '(r, s') := q (server (world st)) in
    (inr r, with_world (fun w => set_server s' (record_call c w)) st).

Definition rejecting {A} (c : M (JsThrown + A)) : M A :=
  r <- c ;; match r with inl e => throw e | inr a => ret a end.

Definition Save (h : ExchangeService) (a : Appointment) (m : SendInvitationsMode)
  : M string :=
  rejecting (remote_command (CallSave h a m) (Appointment_Save h a m)).

Definition Bind (h : ExchangeService) (u : string) : M Appointment :=
  remote_query (CallBind h u) (Appointment_Bind h u).

Definition Update (h : ExchangeService) (a : Appointment)
    (c : ConflictResolutionMode) (m : SendInvitationsOrCancellationsMode) : M unit :=
  r <- remote_command (CallUpdate h a c m) (Appointment_Update h a c m) ;;
  lift_ctor r.

Definition Delete (h : ExchangeService) (a : Appointment) (m : DeleteMode) : M unit :=
  r <- remote_command (CallDelete h a m) (Appointment_Delete h a m) ;;
  lift_ctor r.

(** *** Error messages of the adapter *)

Definition dquote : string := String (ascii_of_nat 34) EmptyString.

Definition msg_bad_credentials := "Invalid or corrupted Exchange credentials".
Definition msg_missing_config := "Missing required Exchange configuration parameters".
Definition msg_ntlm_openssl :=
  "Node.js OpenSSL compatibility issue with NTLM authentication. Please set NODE_OPTIONS="
  ++ dquote ++ "--openssl-legacy-provider" ++ dquote
  ++ " in your environment or use Basic authentication instead.".
Definition msg_ntlm_failed (detail : string) :=
  "NTLM authentication failed: " ++ detail
  ++ ". Consider using Basic authentication instead.".
Definition msg_auth_failed :=
  "Authentication failed. Please verify your username, password, and ensure the account has proper Exchange permissions.".
Definition msg_cannot_connect :=
  "Cannot connect to Exchange server. Please verify the EWS URL is correct and the server is accessible.".
Definition msg_tls :=
  "SSL/TLS certificate issue. Your Exchange server may be using a self-signed certificate.".
Definition msg_openssl :=
  "Node.js OpenSSL compatibility issue. Please set NODE_OPTIONS="
  ++ dquote ++ "--openssl-legacy-provider" ++ dquote
  ++ " or upgrade your Exchange server configuration.".
Definition msg_null_id := "Cannot read properties of null (reading 'UniqueId')".

(** The specification's names for the errors the adapter raises itself,
    with the messages the adapter gives them. *)
Definition CredentialError : JsThrown := JsError msg_bad_credentials.
Definition ConfigError : JsThrown := JsError msg_missing_config.

(** The same two errors with the messages the specification quotes. *)
Definition CredentialError_as_specified : JsThrown :=
  JsError "Invalid or corrupted credentials".
Definition ConfigError_as_specified : JsThrown :=
  JsError "Missing required configuration parameters".

(** *** constructor *)

Definition fresh_instance : ExchangeCalendarService :=
  {| integrationName := EmptyString; payload := JUndefined;
     _exchangeService := None |}.

(** The constructor body, run on the object under construction: the
    object as the body leaves it, and the value thrown, if any.
    [env_key] is [process.env.CALENDSO_ENCRYPTION_KEY]. *)
Definition constructor_body (env_key : option string)
    (credential : CredentialPayload) (self : ExchangeCalendarService)
  : ExchangeCalendarService * option JsThrown :=
  let self := {| integrationName := "exchange_calendar";
                 payload := payload self;
                 _exchangeService := _exchangeService self |} in
  let parsed :=
    match symmetricDecrypt (or_empty (key credential)) (or_empty env_key) with
    | inl e => inl e
    | inr plain => JSON_parse plain
    end in
  match parsed with
  | inr v =>
      ({| integrationName := integrationName self; payload := v;
          _exchangeService := _exchangeService self |}, None)
  | inl _ => (self, Some CredentialError)
  end.

(** [new ExchangeCalendarService(credential)]: the object exists only if
    the body ran to its end. *)
Definition new_ExchangeCalendarService (env_key : option string)
    (credential : CredentialPayload) : JsThrown + ExchangeCalendarService :=
  match constructor_body env_key credential fresh_instance with
  | (_, Some e) => inl e
  | (self, None) => inr self
  end.

(** *** getExchangeService *)

(** The [catch] block of the NTLM set-up. *)
Definition ntlm_catch {A} (ntlmError : JsThrown) : M A :=
  match ntlmError with
  | JsError m =>
      if includes m "digital envelope routines::unsupported"
      then throw (JsError msg_ntlm_openssl)
      else throw (JsError (msg_ntlm_failed m))
  | JsNonError _ => throw (JsError (msg_ntlm_failed "Unknown error"))
  end.

(** The [try] block. *)
Definition getExchangeService_try : M ExchangeService :=
  fun st =>
    let p := payload (this st) in
    if negb (truthy (opt_prop p "url"))
       || negb (truthy (opt_prop p "username"))
       || negb (truthy (opt_prop p "password"))
    then throw ConfigError st
    else
      (service <- new_ExchangeService (opt_prop p "exchangeVersion") ;;
       credentials <- new_WebCredentials (opt_prop p "username") (opt_prop p "password") ;;
       let service := set_Credentials credentials service in
       uri <- new_Uri (opt_prop p "url") ;;
       let service := set_Url uri service in
       service <-
         (if strict_eq_num (opt_prop p "authenticationMethod") NTLM then
            try_catch
              (xhr <- new_NtlmXhrApi (opt_prop p "username") (opt_prop p "password") ;;
               ret (set_XHRApi xhr service))
              ntlm_catch
          else
            credentials <- new_WebCredentials (opt_prop p "username") (opt_prop p "password") ;;
            ret (set_Credentials credentials service)) ;;
       (* Cache the service for reuse *)
       (fun st' => (inr service, set_exchangeService (Some service) st'))) st.

(** The outer [catch] block: the value it throws for a caught [error]. *)
Definition classify (error : JsThrown) : JsThrown :=
  match error with
  | JsError m =>
      if includes m "NODE_OPTIONS" || includes m "Missing required"
         || includes m "NTLM authentication failed"
      then error
      else if includes m "401" || includes m "Unauthorized"
      then JsError msg_auth_failed
      else if includes m "timeout" || includes m "ECONNREFUSED"
              || includes m "ENOTFOUND"
      then JsError msg_cannot_connect
      else if includes m "certificate" || includes m "SSL" || includes m "TLS"
      then JsError msg_tls
      else if includes m "digital envelope routines::unsupported"
      then JsError msg_openssl
      else error
  | JsNonError _ => error
  end.

Definition getExchangeService : M ExchangeService :=
  fun st =>
    match _exchangeService (this st) with
    | Some cached => ret cached st
    | None =>
        try_catch getExchangeService_try (fun error => throw (classify error)) st
    end.

(** *** cleanup *)

Definition cleanup (st : State) : State :=
  match _exchangeService (this st) with
  | Some _ => set_exchangeService None st
  | None => st
  end.

(** *** createEvent, updateEvent, deleteEvent *)

(** [new Appointment(service)]: nothing set yet. *)
Definition new_Appointment : Appointment :=
  {| Id := None; Subject := EmptyString; Start := 0%Z; End_ := 0%Z;
     Location := EmptyString; Body := EmptyString; RequiredAttendees := [];
     FreeBusyStatus := Busy |}.

Definition set_Id (v : option string) (a : Appointment) : Appointment :=
  {| Id := v; Subject := Subject a; Start := Start a; End_ := End_ a;
     Location := Location a; Body := Body a;
     RequiredAttendees := RequiredAttendees a; FreeBusyStatus := FreeBusyStatus a |}.
Definition set_Subject (v : string) (a : Appointment) : Appointment :=
  {| Id := Id a; Subject := v; Start := Start a; End_ := End_ a;
     Location := Location a; Body := Body a;
     RequiredAttendees := RequiredAttendees a; FreeBusyStatus := FreeBusyStatus a |}.
Definition set_Start (v : DateTime) (a : Appointment) : Appointment :=
  {| Id := Id a; Subject := Subject a; Start := v; End_ := End_ a;
     Location := Location a; Body := Body a;
     RequiredAttendees := RequiredAttendees a; FreeBusyStatus := FreeBusyStatus a |}.
Definition set_End (v : DateTime) (a : Appointment) : Appointment :=
  {| Id := Id a; Subject := Subject a; Start := Start a; End_ := v;
     Location := Location a; Body := Body a;
     RequiredAttendees := RequiredAttendees a; FreeBusyStatus := FreeBusyStatus a |}.
Definition set_Location (v : string) (a : Appointment) : Appointment :=
  {| Id := Id a; Subject := Subject a; Start := Start a; End_ := End_ a;
     Location := v; Body := Body a;
     RequiredAttendees := RequiredAttendees a; FreeBusyStatus := FreeBusyStatus a |}.
Definition set_Body (v : string) (a : Appointment) : Appointment :=
  {| Id := Id a; Subject := Subject a; Start := Start a; End_ := End_ a;
     Location := Location a; Body := v;
     RequiredAttendees := RequiredAttendees a; FreeBusyStatus := FreeBusyStatus a |}.
(** [appointment.RequiredAttendees.Add(new Attendee(address))] *)
Definition RequiredAttendees_Add (address : string) (a : Appointment) : Appointment :=
  {| Id := Id a; Subject := Subject a; Start := Start a; End_ := End_ a;
     Location := Location a; Body := Body a;
     RequiredAttendees := RequiredAttendees a ++ [address];
     FreeBusyStatus := FreeBusyStatus a |}.

(** [people.forEach(p => appointment.RequiredAttendees.Add(new Attendee(p.email)))] *)
Definition add_each (people : list Person) (a : Appointment) : Appointment :=
  fold_left (fun acc person => RequiredAttendees_Add (email person) acc) people a.

(** [DateTime.Parse(text)], which throws on a text that is no date. *)
Definition parse_DateTime (text : string) : M DateTime :=
  fun st => (DateTime_Parse text, st).

(** The assignments shared by [createEvent] and [updateEvent], in the
    order of the source: an unparseable start or end time throws before the
    later assignments are made. *)
Definition fill (event : CalendarEvent) (appointment : Appointment) : M Appointment :=
  let appointment := set_Subject (title event) appointment in
  startDate <- parse_DateTime (startTime event) ;;
  let appointment := set_Start startDate appointment in
  endDate <- parse_DateTime (endTime event) ;;
  let appointment := set_End endDate appointment in
  let appointment := set_Location (or_empty (location event)) appointment in
  let appointment := set_Body (or_empty (description event)) appointment in
  let appointment := add_each (attendees event) appointment in
  ret (match team event with
       | Some t => add_each (members t) appointment
       | None => appointment
       end).

Definition result_for (unique : string) : NewCalendarEventType :=
  {| uid := unique; id := unique; password := EmptyString; type := EmptyString;
     url := EmptyString; additionalInfo := [] |}.

(** [.catch(reason => { log; throw reason })] *)
Definition log_and_rethrow {A} (c : M A) : M A :=
  try_catch c (fun reason => throw reason).

Definition createEvent (event : CalendarEvent) : M NewCalendarEventType :=
  service <- getExchangeService ;;
  appointment <- fill event new_Appointment ;;
  log_and_rethrow
    (unique <- Save service appointment SendToAllAndSaveCopy ;;
     let appointment := set_Id (Some unique) appointment in
     match Id appointment with
     | Some u => ret (result_for u)
     | None => throw (JsError msg_null_id)
     end).

Definition updateEvent (uid : string) (event : CalendarEvent) : M NewCalendarEventType :=
  service <- getExchangeService ;;
  appointment <- Bind service uid ;;
  appointment <- fill event appointment ;;
  log_and_rethrow
    (Update service appointment AlwaysOverwrite SendToChangedAndSaveCopy ;;;
     match Id appointment with
     | Some u => ret (result_for u)
     | None => throw (JsError msg_null_id)
     end).

Definition deleteEvent (uid : string) : M unit :=
  service <- getExchangeService ;;
  appointment <- Bind service uid ;;
  log_and_rethrow (Delete service appointment MoveToDeletedItems).

(** *** listCalendars *)

Definition listCalendars : M (list IntegrationCalendar) :=
  fun st0 =>
  (service <- getExchangeService ;;
   let view := {| PageSize := 1000;
                  PropertySet := [IdOnly; ParentFolderIdProp; DisplayNameProp;
                                  ChildFolderCountProp];
                  Traversal := Deep |} in
   deletedItemsFolder <-
     remote_query (CallFolderBind service DeletedItems)
                  (Folder_Bind service DeletedItems) ;;
   let searchFilterCollection := {| FolderClass_IsEqualTo := ["IPF.Appointment"] |} in
   log_and_rethrow
     (res <- remote_query
               (CallFindFolders service MsgFolderRoot searchFilterCollection view)
               (FindFolders service MsgFolderRoot searchFilterCollection view) ;;
      ret (map (fun folder =>
                  {| externalId := FolderId folder;
                     name := nullish_empty (DisplayName folder);
                     primary := (ChildFolderCount folder >? 0)%Z;
                     integration := integrationName (this st0) |})
               (filter (fun folder =>
                          negb (ParentFolderId folder =? FolderId deletedItemsFolder))
                       res)))) st0.

(** *** getAvailability *)

(** A promise that has been started: the instant at which it settles,
    counted from the turn in which it was started, and what it settles to.
    Instant 0 is that turn itself: the promise settled without waiting for
    the server. *)
Record Promise (A : Type) : Type := {
  settles_at : nat;
  settlement : JsThrown + A
}.

Definition busy_of (appointment : Appointment) : EventBusyDate :=
  {| start := Date_new (DateTime_ToISOString (Start appointment));
     end_ := Date_new (DateTime_ToISOString (End_ appointment)) |}.

Definition not_free (appointment : Appointment) : bool :=
  negb (LegacyFreeBusyStatus_eqb (FreeBusyStatus appointment) Free).

(** The [async (calendar) => ...] callback, started.  The handle is
    awaited first, then the arguments are evaluated ([dateFrom] before
    [dateTo]), then the query goes out; a throw before the query rejects the
    promise there and then. *)
Definition busy_in (dateFrom dateTo : string) (calendar : IntegrationCalendar)
  : State -> Promise (list EventBusyDate) * State :=
  fun st =>
    match (service <- getExchangeService ;;
           startDate <- parse_DateTime dateFrom ;;
           endDate <- parse_DateTime dateTo ;;
           ret (service, {| StartDate := startDate; EndDate := endDate |})) st with
    | (inl e, st1) => ({| settles_at := 0; settlement := inl e |}, st1)
    | (inr (service, view), st1) =>
        let '(r, st2) :=
          log_and_rethrow
            (results <- remote_query
                          (CallFindAppointments service (externalId calendar) view)
                          (FindAppointments service (externalId calendar) view) ;;
             ret (map busy_of (filter not_free results))) st1 in
        ({| settles_at :=
              Datatypes.S (FindAppointments_latency service (externalId calendar)
                             view (server (world st1)));
            settlement := r |}, st2)
    end.

(** [array.map(async ...)]: the callbacks are started one after the other,
    in the order of the array; none waits for another. *)
Fixpoint start_each {A} (callbacks : list (State -> Promise A * State))
  : M (list (Promise A)) :=
  match callbacks with
  | [] => ret []
  | callback :: rest =>
      fun st =>
        let '(p, st1) := callback st in
        match start_each rest st1 with
        | (inr ps, st2) => (inr (p :: ps), st2)
        | (inl e, st2) => (inl e, st2)
        end
  end.

(** The rejection that comes first in time, with its instant; of two at
    the same instant, the one of the promise started first. *)
Fixpoint first_rejection {A} (promises : list (Promise A)) : option (nat * JsThrown) :=
  match promises with
  | [] => None
  | p :: rest =>
      match settlement p, first_rejection rest with
      | inl e, Some (t, e') =>
          if (settles_at p <=? t)%nat then Some (settles_at p, e) else Some (t, e')
      | inl e, None => Some (settles_at p, e)
      | inr _, later => later
      end
  end.

(** The values of the promises that resolved, in the order of the array. *)
Fixpoint fulfilled {A} (promises : list (Promise A)) : list A :=
  match promises with
  | [] => []
  | p :: rest =>
      match settlement p with
      | inr a => a :: fulfilled rest
      | inl _ => fulfilled rest
      end
  end.

(** [Promise.all]: the array of the values when every promise resolves,
    and else the rejection that comes first in time. *)
Definition Promise_all {A} (promises : list (Promise A)) : M (list A) :=
  match first_rejection promises with
  | Some (_, e) => throw e
  | None => ret (fulfilled promises)
  end.

Definition is_selected (selectedCalendars : list IntegrationCalendar)
    (lcal : IntegrationCalendar) : bool :=
  existsb (fun rcal => externalId lcal =? externalId rcal) selectedCalendars.

Definition getAvailability (dateFrom dateTo : string)
    (selectedCalendars : list IntegrationCalendar) : M (list EventBusyDate) :=
  calendars <- listCalendars ;;
  promises <-
    start_each (map (busy_in dateFrom dateTo)
                    (filter (is_selected selectedCalendars) calendars)) ;;
  x <- Promise_all promises ;;
  ret (concat x).

(** *** Sequences of public operations on one adapter *)

Inductive Operation : Type :=
| DoCreateEvent (event : CalendarEvent)
| DoUpdateEvent (uid : string) (event : CalendarEvent)
| DoDeleteEvent (uid : string)
| DoListCalendars
| DoGetAvailability (dateFrom dateTo : string)
    (selectedCalendars : list IntegrationCalendar).

Inductive Outcome : Type :=
| Rejected (e : JsThrown)
| Event (r : NewCalendarEventType)
| Done
| Calendars (l : list IntegrationCalendar)
| BusyDates (l : list EventBusyDate).

Definition outcome {A} (f : A -> Outcome) (r : (JsThrown + A) * State)
  : Outcome * State :=
  match r with
  | (inl e, st) => (Rejected e, st)
  | (inr a, st) => (f a, st)
  end.

Definition perform (o : Operation) (st : State) : Outcome * State :=
  match o with
  | DoCreateEvent event => outcome Event (createEvent event st)
  | DoUpdateEvent uid event => outcome Event (updateEvent uid event st)
  | DoDeleteEvent uid => outcome (fun _ => Done) (deleteEvent uid st)
  | DoListCalendars => outcome Calendars (listCalendars st)
  | DoGetAvailability f t sel => outcome BusyDates (getAvailability f t sel st)
  end.

(** The state after the operations of [ops], one after the other, whether
    they succeed or not. *)
Definition perform_all (ops : list Operation) (st : State) : State :=
  fold_left (fun st o => snd (perform o st)) ops st.

(** *** Vocabulary for the statements about the adapter *)

Definition required_present (p : JsValue) : bool :=
  truthy (opt_prop p "url") && truthy (opt_prop p "username")
  && truthy (opt_prop p "password").

(** The handle that a successful construction yields for a payload. *)
Definition handle_for (p : JsValue) (n : nat) : ExchangeService :=
  {| objectId := n;
     RequestedServerVersion := opt_prop p "exchangeVersion";
     Credentials := Some {| UserName := opt_prop p "username";
                            Password := opt_prop p "password" |};
     Url := Some (opt_prop p "url");
     XHRApi :=
       if strict_eq_num (opt_prop p "authenticationMethod") NTLM
       then Some {| rejectUnauthorized := false; timeout := 30000;
                    ntlmUser := opt_prop p "username";
                    ntlmPassword := opt_prop p "password" |}
       else None |}.

(** What the NTLM [catch] block throws. *)
Definition ntlm_failure (e : JsThrown) : JsThrown :=
  match e with
  | JsError m =>
      if includes m "digital envelope routines::unsupported"
      then JsError msg_ntlm_openssl
      else JsError (msg_ntlm_failed m)
  | JsNonError _ => JsError (msg_ntlm_failed "Unknown error")
  end.

(** The first value thrown while the handle is put together, if any, and
    whether the [ExchangeService] object had been constructed by then. *)
Definition construction_failure (p : JsValue) : option (JsThrown * bool) :=
  match ExchangeService_new (opt_prop p "exchangeVersion") with
  | Some e => Some (e, false)
  | None =>
      match WebCredentials_new (opt_prop p "username") (opt_prop p "password") with
      | Some e => Some (e, true)
      | None =>
          match Uri_new (opt_prop p "url") with
          | Some e => Some (e, true)
          | None =>
              if strict_eq_num (opt_prop p "authenticationMethod") NTLM then
                match useNtlmAuthentication (opt_prop p "username")
                                            (opt_prop p "password") with
                | Some e => Some (ntlm_failure e, true)
                | None => None
                end
              else None
          end
      end
  end.

Definition call_handle (c : RemoteCall) : ExchangeService :=
  match c with
  | CallSave h _ _ | CallBind h _ | CallUpdate h _ _ _ | CallDelete h _ _
  | CallFolderBind h _ | CallFindFolders h _ _ _ | CallFindAppointments h _ _ => h
  end.

(** From [st] to [st']: the configuration of the adapter is untouched, and
    a handle that was cached is still the cached one, no [ExchangeService]
    was constructed, and every request sent in between went through it. *)
Record evolves (st st' : State) : Prop := {
  ev_name : integrationName (this st') = integrationName (this st);
  ev_payload : payload (this st') = payload (this st);
  ev_cached : forall h, _exchangeService (this st) = Some h ->
      _exchangeService (this st') = Some h /\
      constructed (world st') = constructed (world st) /\
      exists sent, calls (world st') = (calls (world st) ++ sent)%list /\
                   Forall (fun c => call_handle c = h) sent
}.

(** A computation run from a state satisfying [P] makes the state evolve
    and, when it resolves, establishes [Q]. *)
Definition triple {A} (P : State -> Prop) (c : M A)
    (Q : A -> State -> Prop) : Prop :=
  forall st, P st ->
    evolves st (snd (c st)) /\
    forall a, fst (c st) = inr a -> Q a (snd (c st)).

Definition holds (h : ExchangeService) (st : State) : Prop :=
  _exchangeService (this st) = Some h.

(** The state any public operation resolves in has a cached handle. *)
Definition connected {A} (_ : A) (st : State) : Prop := exists h, holds h st.

Definition calendar_view : FolderView :=
  {| PageSize := 1000;
     PropertySet := [IdOnly; ParentFolderIdProp; DisplayNameProp; ChildFolderCountProp];
     Traversal := Deep |}.

Definition calendar_filter : SearchFilterCollection :=
  {| FolderClass_IsEqualTo := ["IPF.Appointment"] |}.

(** The two requests of [listCalendars], in the order sent. *)
Definition listed (service : ExchangeService) (st : State) : State :=
  with_world
    (record_call (CallFindFolders service MsgFolderRoot calendar_filter calendar_view))
    (with_world (record_call (CallFolderBind service DeletedItems)) st).

(** Set-up cannot throw once the [ExchangeService] object has been made. *)
Definition sound_setup (p : JsValue) : Prop :=
  forall e, construction_failure p <> Some (e, true).

End Adapter.

Arguments World S : clear implicits.
Arguments State S : clear implicits.
Arguments M S A : clear implicits.

End CalendarService.

(* ===================================================================== *)
(** * A small in-memory mailbox, to run the adapter on concrete inputs    *)
(* ===================================================================== *)

Module InMemory.
Import CalendarService.

Record Mailbox : Type := {
  items : list Appointment;
  nextId : nat;
  folders : list Folder;
  trash : Folder;
  agenda : list (string * list Appointment)
}.

Fixpoint marks (n : nat) : string :=
  match n with
  | O => EmptyString
  | Datatypes.S k => String "x"%char (marks k)
  end.

Definition item_uid (n : nat) : string := "AAMk" ++ marks n.

Definition has_uid (u : string) (a : Appointment) : bool :=
  match Id a with
  | Some v => v =? u
  | None => false
  end.

Definition with_items (l : list Appointment) (n : nat) (m : Mailbox) : Mailbox :=
  {| items := l; nextId := n; folders := folders m; trash := trash m;
     agenda := agenda m |}.

Definition save (a : Appointment) (m : Mailbox) : (JsThrown + string) * Mailbox :=
  let u := item_uid (nextId m) in
  (inr u, with_items (items m ++ [set_Id (Some u) a]) (Datatypes.S (nextId m)) m).

(** What the client library rejects with when the server answers
    [ErrorItemNotFound]: a [ServiceResponseException], which is no
    [Error]. *)
Definition ErrorItemNotFound : JsThrown :=
  JsNonError (JObj [("ErrorCode", JStr "ErrorItemNotFound");
                    ("message",
                     JStr "The specified object was not found in the store.")]).

Definition bind_item (u : string) (m : Mailbox) : JsThrown + Appointment :=
  match find (has_uid u) (items m) with
  | Some a => inr a
  | None => inl ErrorItemNotFound
  end.

Definition update (a : Appointment) (m : Mailbox) : option JsThrown * Mailbox :=
  match Id a with
  | Some u =>
      if existsb (has_uid u) (items m)
      then (None, with_items (map (fun b => if has_uid u b then a else b) (items m))
                             (nextId m) m)
      else (Some ErrorItemNotFound, m)
  | None => (Some ErrorItemNotFound, m)
  end.

Definition delete (a : Appointment) (m : Mailbox) : option JsThrown * Mailbox :=
  match Id a with
  | Some u =>
      if existsb (has_uid u) (items m)
      then (None, with_items (filter (fun b => negb (has_uid u b)) (items m))
                             (nextId m) m)
      else (Some ErrorItemNotFound, m)
  | None => (Some ErrorItemNotFound, m)
  end.

Fixpoint lookup {A} (k : string) (l : list (string * list A)) : list A :=
  match l with
  | [] => []
  | (k', v) :: rest => if k =? k' then v else lookup k rest
  end.

(** Instants are kept as the number YYYYMMDDhhmmss, and written
    ["YYYY-MM-DDThh:mm:ssZ"]. *)
Definition digit (c : ascii) : option Z :=
  let n := nat_of_ascii c in
  if ((48 <=? n) && (n <=? 57))%nat then Some (Z.of_nat (n - 48)) else None.

Fixpoint number (s : string) (acc : Z) : option Z :=
  match s with
  | EmptyString => Some acc
  | String c rest =>
      match digit c with
      | Some d => number rest (10 * acc + d)%Z
      | None => None
      end
  end.

Definition in_calendar (n : Z) : bool :=
  let month := ((n / 100000000) mod 100)%Z in
  let day := ((n / 1000000) mod 100)%Z in
  ((1 <=? month) && (month <=? 12) && (1 <=? day) && (day <=? 31)
   && ((n / 10000) mod 100 <? 24) && ((n / 100) mod 100 <? 60)
   && (n mod 100 <? 60))%Z.

Definition iso_instant (s : string) : option Z :=
  if (String.length s =? 20)%nat
     && (substring 4 1 s =? "-") && (substring 7 1 s =? "-")
     && (substring 10 1 s =? "T") && (substring 13 1 s =? ":")
     && (substring 16 1 s =? ":") && (substring 19 1 s =? "Z")
  then
    match number (substring 0 4 s ++ substring 5 2 s ++ substring 8 2 s
                  ++ substring 11 2 s ++ substring 14 2 s ++ substring 17 2 s) 0 with
    | Some n => if in_calendar n then Some n else None
    | None => None
    end
  else None.

(** What [DateTime.Parse] throws on a text that is no date: an
    [ArgumentException] of the client library. *)
Definition invalid_date : JsThrown :=
  JsNonError (JObj [("message", JStr "invalid date value")]).

Definition parse_date (s : string) : JsThrown + DateTime :=
  match iso_instant s with
  | Some n => inr n
  | None => inl invalid_date
  end.

Fixpoint decimal (width : nat) (n : Z) : string :=
  match width with
  | O => EmptyString
  | Datatypes.S w =>
      decimal w (n / 10)%Z
      ++ String (ascii_of_nat (48 + Z.to_nat (n mod 10)%Z)) EmptyString
  end.

Definition to_iso (d : DateTime) : string :=
  let t := decimal 14 d in
  substring 0 4 t ++ "-" ++ substring 4 2 t ++ "-" ++ substring 6 2 t ++ "T"
  ++ substring 8 2 t ++ ":" ++ substring 10 2 t ++ ":" ++ substring 12 2 t ++ "Z".

(** [new Date(text)]; an invalid date is written -1. *)
Definition new_date (s : string) : JsDate :=
  match iso_instant s with
  | Some n => n
  | None => (-1)%Z
  end.

(** Cipher texts are ["enc:" ++ plain]; an empty key is refused. *)
Definition decrypt (text secret : string) : JsThrown + string :=
  if secret =? EmptyString then inl (JsError "Invalid key length")
  else if starts_with text "enc:"
       then inr (substring 4 (String.length text - 4) text)
       else inl (JsError "bad decrypt").

Definition obj (u n p : JsValue) (a v : JsValue) : JsValue :=
  JObj [("url", u); ("username", n); ("password", p);
        ("authenticationMethod", a); ("exchangeVersion", v)].

Definition good_payload : JsValue :=
  obj (JStr "https://mail.x.com/ews/Exchange.asmx") (JStr "a@b.com") (JStr "p")
      (JNum 0) (JNum 7).

(** Authentication method 7 and version 99 lie outside both enums. *)
Definition odd_payload : JsValue :=
  obj (JStr "https://mail.x.com/ews/Exchange.asmx") (JStr "a@b.com") (JStr "p")
      (JNum 7) (JNum 99).

Definition no_password_payload : JsValue :=
  obj (JStr "https://mail.x.com/ews/Exchange.asmx") (JStr "a@b.com")
      (JStr EmptyString) (JNum 0) (JNum 7).

Definition ntlm_payload : JsValue :=
  obj (JStr "https://mail.x.com/ews/Exchange.asmx") (JStr "a@b.com") (JStr "p")
      (JNum 1) (JNum 7).

(** A parser for the handful of texts used below. *)
Definition parse (text : string) : JsThrown + JsValue :=
  if text =? "good" then inr good_payload
  else if text =? "odd" then inr odd_payload
  else if text =? "nopass" then inr no_password_payload
  else if text =? "ntlm" then inr ntlm_payload
  else if text =? "null" then inr JNull
  else inl (JsError "Unexpected token in JSON").

#[export] Instance mailbox : Collaborators Mailbox := {|
  symmetricDecrypt := decrypt;
  JSON_parse := parse;
  DateTime_Parse := parse_date;
  DateTime_ToISOString := to_iso;
  Date_new := new_date;
  ExchangeService_new := fun _ => None;
  WebCredentials_new := fun _ _ => None;
  Uri_new := fun _ => None;
  useNtlmAuthentication := fun _ _ =>
    Some (JsError "error:0308010C:digital envelope routines::unsupported");
  Appointment_Save := fun _ a _ m => save a m;
  Appointment_Bind := fun _ u m => bind_item u m;
  Appointment_Update := fun _ a _ _ m => update a m;
  Appointment_Delete := fun _ a _ m => delete a m;
  Folder_Bind := fun _ _ m => inr (trash m);
  FindFolders := fun _ _ _ _ m => inr (folders m);
  FindAppointments := fun _ f _ m => inr (lookup f (agenda m));
  FindAppointments_latency := fun _ _ _ _ => 1
|}.

(** The first of January 2024 at the given hour. *)
Definition hour (h : Z) : DateTime := (20240101000000 + h * 10000)%Z.

Definition appt (d1 d2 : Z) (f : LegacyFreeBusyStatus) : Appointment :=
  {| Id := None; Subject := "s"; Start := d1; End_ := d2;
     Location := EmptyString; Body := EmptyString; RequiredAttendees := [];
     FreeBusyStatus := f |}.

Definition folder (i p : string) (n : option string) (c : Z) : Folder :=
  {| FolderId := i; ParentFolderId := p; DisplayName := n; ChildFolderCount := c |}.

Definition box : Mailbox :=
  {| items := []; nextId := 0;
     folders := [folder "cal1" "root" (Some "Calendar") 1;
                 folder "old" "trash" (Some "Old") 0;
                 folder "cal2" "root" None 0];
     trash := folder "trash" "root" (Some "Deleted Items") 1;
     agenda := [("cal1", [appt (hour 1) (hour 2) Busy; appt (hour 3) (hour 4) Free;
                          appt (hour 5) (hour 6) Tentative]);
                ("cal2", [appt (hour 7) (hour 8) OOF])] |}.

Definition adapter (p : JsValue) : ExchangeCalendarService :=
  {| integrationName := "exchange_calendar"; payload := p;
     _exchangeService := None |}.

Definition initial (p : JsValue) : State Mailbox :=
  {| this := adapter p;
     world := {| server := box; constructed := 0; calls := [] |} |}.

Definition person (e : string) : Person := {| email := e; personName := e |}.

Definition meeting : CalendarEvent :=
  {| title := "Sync"; startTime := "2024-01-01T10:00:00Z";
     endTime := "2024-01-01T11:00:00Z"; location := None;
     description := Some "Weekly";
     attendees := [person "a@x.com"; person "b@x.com"];
     team := Some {| members := [person "b@x.com"; person "c@x.com"] |} |}.

(** The same meeting with an end time that is no date. *)
Definition undated_meeting : CalendarEvent :=
  {| title := "Sync"; startTime := "2024-01-01T10:00:00Z";
     endTime := "eleven"; location := None;
     description := Some "Weekly";
     attendees := [person "a@x.com"; person "b@x.com"];
     team := Some {| members := [person "b@x.com"; person "c@x.com"] |} |}.

Definition selection (ids : list string) : list IntegrationCalendar :=
  map (fun i => {| externalId := i; name := EmptyString; primary := false;
                   integration := EmptyString |}) ids.

(** The handle built for [good_payload], and the state right after. *)
Definition handle0 : ExchangeService :=
  {| objectId := 0;
     RequestedServerVersion := JNum 7;
     Credentials := Some {| UserName := JStr "a@b.com"; Password := JStr "p" |};
     Url := Some (JStr "https://mail.x.com/ews/Exchange.asmx");
     XHRApi := None |}.

Definition connected0 : State Mailbox :=
  {| this := {| integrationName := "exchange_calendar"; payload := good_payload;
                _exchangeService := Some handle0 |};
     world := {| server := box; constructed := 1; calls := [] |} |}.

End InMemory.

(* ===================================================================== *)
(** * lib/CalendarService.ts, the revision without the handle cache       *)
(* ===================================================================== *)

Module Legacy.
Import Enums CalendarService.

(** The fields of this revision's [ExchangeCalendarService]. *)
Record ExchangeCalendarService : Type := {
  integrationName : string;
  payload : JsValue
}.

(** The adapter, [process.env.NODE_OPTIONS] and the number of
    [ExchangeService] objects constructed so far. *)
Record State : Type := {
  this : ExchangeCalendarService;
  NODE_OPTIONS : option string;
  constructed : nat
}.

Definition M (A : Type) : Type := State -> (JsThrown + A) * State.

Definition ret {A} (a : A) : M A := fun st => (inr a, st).
Definition throw {A} (e : JsThrown) : M A := fun st => (inl e, st).
Definition bind {A B} (c : M A) (k : A -> M B) : M B :=
  fun st =>
    match c st with
    | (inr a, st') => k a st'
    | (inl e, st') => (inl e, st')
    end.
Definition try_catch {A} (c : M A) (handler : JsThrown -> M A) : M A :=
  fun st =>
    match c st with
    | (inr a, st') => (inr a, st')
    | (inl e, st') => handler e st'
    end.
Definition lift {A} (r : JsThrown + A) : M A := fun st => (r, st).

(** [v.k]: reading a property of [null] or [undefined] throws a
    [TypeError]. *)
Definition prop (v : JsValue) (k : string) : JsThrown + JsValue :=
  match v with
  | JUndefined =>
      inl (JsError ("Cannot read properties of undefined (reading '" ++ k ++ "')"))
  | JNull =>
      inl (JsError ("Cannot read properties of null (reading '" ++ k ++ "')"))
  | JObj props => inr (assoc k props)
  | _ => inr JUndefined
  end.

Definition legacy_provider : string := "--openssl-legacy-provider".

(** The assignments to [process.env.NODE_OPTIONS] in the NTLM branch. *)
Definition set_legacy_provider (options : option string) : option string :=
  if truthy_str options && negb (includes (or_empty options) legacy_provider)
  then Some (or_empty options ++ " " ++ legacy_provider)
  else if negb (truthy_str options) then Some legacy_provider
  else options.

(** The state with one more object counted, and with [NODE_OPTIONS]
    updated. *)
Definition counted (st : State) : State :=
  {| this := this st; NODE_OPTIONS := NODE_OPTIONS st;
     constructed := Datatypes.S (constructed st) |}.

Definition with_provider (st : State) : State :=
  {| this := this st;
     NODE_OPTIONS := set_legacy_provider (NODE_OPTIONS st);
     constructed := constructed st |}.

Definition msg_cannot_connect :=
  "Cannot connect to Exchange server. Please verify the EWS URL and ensure the server is accessible.".

Section Adapter.
Context {S : Type} {collab : Collaborators S}.

Notation "x <- c ;; k" := (bind c (fun x => k))
  (at level 61, c at next level, right associativity).
Notation "c ;;; k" := (bind c (fun _ => k))
  (at level 61, right associativity).

(** The constructor of this revision has no [try]: what decryption or
    parsing throws leaves the constructor as it is. *)
Definition new_ExchangeCalendarService (env_key : option string)
    (credential : CredentialPayload) : JsThrown + ExchangeCalendarService :=
  match symmetricDecrypt (or_empty (key credential)) (or_empty env_key) with
  | inl e => inl e
  | inr plain =>
      match JSON_parse plain with
      | inl e => inl e
      | inr v => inr {| integrationName := "exchange_calendar"; payload := v |}
      end
  end.

Definition thrown (r : option JsThrown) : M unit :=
  match r with
  | Some e => throw e
  | None => ret tt
  end.

Definition new_ExchangeService (version : JsValue) : M ExchangeService :=
  thrown (ExchangeService_new version) ;;;
  fun st =>
    (inr {| objectId := constructed st;
            RequestedServerVersion := version;
            Credentials := None; Url := None; XHRApi := None |},
     {| this := this st; NODE_OPTIONS := NODE_OPTIONS st;
        constructed := Datatypes.S (constructed st) |}).

Definition new_WebCredentials (u p : JsValue) : M WebCredentials :=
  thrown (WebCredentials_new u p) ;;;
  ret {| UserName := u; Password := p |}.

Definition new_Uri (u : JsValue) : M JsValue :=
  thrown (Uri_new u) ;;; ret u.

Definition new_NtlmXhrApi (u p : JsValue) : M XhrApi :=
  thrown (useNtlmAuthentication u p) ;;;
  ret {| rejectUnauthorized := false; timeout := 30000;
         ntlmUser := u; ntlmPassword := p |}.

Definition update_NODE_OPTIONS : M unit :=
  fun st =>
    (inr tt,
     {| this := this st;
        NODE_OPTIONS := set_legacy_provider (NODE_OPTIONS st);
        constructed := constructed st |}).

(** The [try] block. *)
Definition getExchangeService_try : M ExchangeService :=
  fun st0 =>
    let p := payload (this st0) in
    (version <- lift (prop p "exchangeVersion") ;;
     service <- new_ExchangeService version ;;
     username <- lift (prop p "username") ;;
     password <- lift (prop p "password") ;;
     credentials <- new_WebCredentials username password ;;
     let service := set_Credentials credentials service in
     address <- lift (prop p "url") ;;
     uri <- new_Uri address ;;
     let service := set_Url uri service in
     method <- lift (prop p "authenticationMethod") ;;
     if strict_eq_num method NTLM then
       try_catch
         (update_NODE_OPTIONS ;;;
          username <- lift (prop p "username") ;;
          password <- lift (prop p "password") ;;
          xhr <- new_NtlmXhrApi username password ;;
          ret (set_XHRApi xhr service))
         (fun ntlmError =>
            (* logged; "Falling back to standard authentication" *)
            ret service)
     else
       username <- lift (prop p "username") ;;
       password <- lift (prop p "password") ;;
       credentials <- new_WebCredentials username password ;;
       ret (set_Credentials credentials service)) st0.

(** The [catch] block: the value it throws for a caught [error]. *)
Definition classify (error : JsThrown) : JsThrown :=
  match error with
  | JsError m =>
      if includes m "digital envelope routines::unsupported"
      then JsError msg_openssl
      else if includes m "401" || includes m "Unauthorized"
      then JsError msg_auth_failed
      else if includes m "timeout" || includes m "ECONNREFUSED"
      then JsError msg_cannot_connect
      else error
  | JsNonError _ => error
  end.

Definition getExchangeService : M ExchangeService :=
  try_catch getExchangeService_try (fun error => throw (classify error)).

(** The handle this revision builds for an object payload: the NTLM
    transport is there only if asked for and set up without a throw. *)
Definition handle_of (p : JsValue) (n : nat) (ntlm : bool) : ExchangeService :=
  {| objectId := n;
     RequestedServerVersion := opt_prop p "exchangeVersion";
     Credentials := Some {| UserName := opt_prop p "username";
                            Password := opt_prop p "password" |};
     Url := Some (opt_prop p "url");
     XHRApi :=
       if ntlm
       then Some {| rejectUnauthorized := false; timeout := 30000;
                    ntlmUser := opt_prop p "username";
                    ntlmPassword := opt_prop p "password" |}
       else None |}.

End Adapter.

End Legacy.

(* ===================================================================== *)
(** * api/_postAdd.ts: the answers to a failed connection test            *)
(* ===================================================================== *)

Module PostAdd.

(** What the [catch (reason)] block looks at: whether [reason] is an
    [Error], whether it is a [SoapFaultDetails], and its message. *)
Record Reason : Type := {
  isError : bool;
  isSoapFault : bool;
  message : string
}.

Record Response : Type := {
  status : Z;
  text : string
}.

Definition msg_openssl :=
  "Node.js OpenSSL compatibility issue with NTLM authentication. Please contact your administrator or try using Basic authentication instead.".
Definition msg_auth :=
  "Authentication failed. Please verify your username and password are correct and that your account has the necessary Exchange permissions.".
Definition msg_connect :=
  "Cannot connect to Exchange server. Please verify the EWS URL is correct and the server is accessible from this network.".
Definition msg_tls :=
  "SSL/TLS certificate issue. Your Exchange server may be using a self-signed certificate or there may be a certificate configuration problem.".
Definition msg_generic :=
  "Could not add this Exchange account. Please check your configuration and try again.".

(** [s.indexOf(sub) >= 0] *)
Definition found (s sub : string) : bool := includes s sub.

(** After the [instanceof Error] block. *)
Definition soap_or_generic (reason : Reason) : Response :=
  if isSoapFault reason && negb (message reason =? EmptyString)
  then {| status := 500; text := "Exchange server error: " ++ message reason |}
  else {| status := 500; text := msg_generic |}.

Definition failure_response (reason : Reason) : Response :=
  if isError reason then
    if found (message reason) "digital envelope routines::unsupported"
    then {| status := 500; text := msg_openssl |}
    else if found (message reason) "401" || found (message reason) "Unauthorized"
            || found (message reason) "Authentication failed"
    then {| status := 401; text := msg_auth |}
    else if found (message reason) "timeout" || found (message reason) "ECONNREFUSED"
            || found (message reason) "ENOTFOUND"
    then {| status := 500; text := msg_connect |}
    else if found (message reason) "certificate" || found (message reason) "SSL"
            || found (message reason) "TLS"
    then {| status := 500; text := msg_tls |}
    else soap_or_generic reason
  else soap_or_generic reason.

(** A value thrown by the adapter, as the handler sees it: what the adapter
    makes with [new Error] is an [Error] and no SOAP fault. *)
Definition reason_of (e : JsThrown) : Reason :=
  match e with
  | JsError m => {| isError := true; isSoapFault := false; message := m |}
  | JsNonError _ => {| isError := false; isSoapFault := false; message := EmptyString |}
  end.

(** ** The handler *)

(** The request body as [formSchema.parse] returns it: every field is
    there (the schema fills in the defaults). *)
Record Body : Type := {
  url : string;
  username : string;
  password : string;
  authenticationMethod : Z;
  exchangeVersion : Z;
  useCompression : bool
}.

Definition config_of (body : Body) : Validation.ExchangeConfig :=
  {| Validation.url := Some (url body);
     Validation.username := Some (username body);
     Validation.password := Some (password body);
     Validation.authenticationMethod := Some (authenticationMethod body);
     Validation.exchangeVersion := Some (exchangeVersion body);
     Validation.useCompression := Some (useCompression body) |}.

(** The object that [JSON.stringify(body)] writes out. *)
Definition body_json (body : Body) : JsValue :=
  JObj [("url", JStr (url body)); ("username", JStr (username body));
        ("password", JStr (password body));
        ("authenticationMethod", JNum (authenticationMethod body));
        ("exchangeVersion", JNum (exchangeVersion body));
        ("useCompression", JBool (useCompression body))].

(** The [data] handed to [prisma.credential.create]. *)
Record CredentialRow : Type := {
  type : string;
  key : string;
  userId : JsValue;
  teamId : JsValue;
  appId : string;
  invalid : bool;
  delegationCredentialId : JsValue
}.

Inductive HandlerResponse : Type :=
| BadRequest (errors suggestions : list string)
| Failure (r : Response)
| Installed.

Definition timeout_error : JsThrown :=
  JsError "Connection test timeout after 30 seconds".

Section Handler.
Context {S : Type} {collab : CalendarService.Collaborators S}.

(** [new URL], [symmetricEncrypt], [JSON.stringify], the outcome of
    [prisma.credential.create] (the value it throws, if any), and which
    thrown values are [SoapFaultDetails]. *)
Variable URL_parse : string -> option Validation.URL.
Variable symmetricEncrypt : string -> string -> JsThrown + string.
Variable JSON_stringify : JsValue -> string.
Variable prisma_create : CredentialRow -> option JsThrown.
Variable soap_fault : JsThrown -> bool.

(** The Exchange side of the world and the stored credentials. *)
Record HandlerWorld : Type := {
  exchange : CalendarService.World S;
  stored : list CredentialRow
}.

Definition reason_under (e : JsThrown) : Reason :=
  match e with
  | JsError m => {| isError := true; isSoapFault := soap_fault e; message := m |}
  | JsNonError v =>
      {| isError := false; isSoapFault := soap_fault e;
         message := match opt_prop v "message" with
                    | JStr m => m
                    | _ => EmptyString
                    end |}
  end.

(** [getHandler], from the validated session and the parsed body on;
    [user] is [session.user?.id], and [session.user] is there, as
    [checkSession] has seen to.  [timer_first] tells whether the 30 second
    timer of the connection test settles before [listCalendars] does; the
    race cancels nothing, so what [listCalendars] goes on to send is counted
    in either way.  A value on the left has left the handler as a throw. *)
Definition getHandler (env_key : option string) (user : JsValue) (body : Body)
    (timer_first : bool) (w : HandlerWorld)
  : (JsThrown + HandlerResponse) * HandlerWorld :=
  (* Additional validation using our custom validator *)
  let validation := Validation.validate URL_parse (config_of body) in
  if negb (Validation.isValid validation) then
    match Validation.getSuggestions URL_parse (config_of body) with
    | inl e => (inl e, w)
    | inr suggestions =>
        (inr (BadRequest (Validation.errors validation) suggestions), w)
    end
  else
    match symmetricEncrypt (JSON_stringify (body_json body)) (or_empty env_key) with
    | inl e => (inl e, w)
    | inr encrypted =>
        let data :=
          {| type := "exchange_calendar"; key := encrypted; userId := user;
             teamId := JNull; appId := "exchange"; invalid := false;
             delegationCredentialId := JNull |} in
        (* try *)
        match CalendarService.new_ExchangeCalendarService env_key
                {| CalendarService.key := Some encrypted |} with
        | inl reason => (inr (Failure (failure_response (reason_under reason))), w)
        | inr service =>
            let '(listed, st) :=
              CalendarService.listCalendars
                {| CalendarService.this := service;
                   CalendarService.world := exchange w |} in
            let w1 := {| exchange := CalendarService.world st; stored := stored w |} in
            let tested := if timer_first then inl timeout_error else listed in
            match tested with
            | inl reason =>
                (inr (Failure (failure_response (reason_under reason))), w1)
            | inr _ =>
                (* If successful, create the credential *)
                match prisma_create data with
                | Some reason =>
                    (inr (Failure (failure_response (reason_under reason))), w1)
                | None =>
                    (inr Installed,
                     {| exchange := CalendarService.world st;
                        stored := stored w ++ [data] |})
                end
            end
        end
    end.

End Handler.

End PostAdd.

(* ===================================================================== *)
(** * Further vocabulary                                                  *)
(* ===================================================================== *)

(** ** What a regular expression matches *)

Inductive Matches : regex -> string -> Prop :=
| MEps : Matches Eps EmptyString
| MClass (p : ascii -> bool) (c : ascii) :
    p c = true -> Matches (Class p) (String c EmptyString)
| MSeq (r1 r2 : regex) (s1 s2 : string) :
    Matches r1 s1 -> Matches r2 s2 -> Matches (Seq r1 r2) (s1 ++ s2)
| MOrL (r1 r2 : regex) (s : string) : Matches r1 s -> Matches (Or r1 r2) s
| MOrR (r1 r2 : regex) (s : string) : Matches r2 s -> Matches (Or r1 r2) s
| MStarNil (r : regex) : Matches (Star r) EmptyString
| MStarApp (r : regex) (s1 s2 : string) :
    Matches r s1 -> Matches (Star r) s2 -> Matches (Star r) (s1 ++ s2).

(** A part of an address: not empty, plain characters only. *)
Definition address_part (s : string) : Prop :=
  s <> EmptyString /\ all_chars plain_char s = true.

Fixpoint count_char (c : ascii) (s : string) : nat :=
  match s with
  | EmptyString => 0
  | String d s' => (if Ascii.eqb c d then 1 else 0) + count_char c s'
  end.

(** ** Requests and states of the adapter *)

Section MoreVocabulary.
Import CalendarService.
Context {S : Type} {collab : Collaborators S}.

(** The state after the requests [cs] have gone out, in that order. *)
Definition sent_all (cs : list RemoteCall) (st : State S) : State S :=
  fold_left (fun st c => with_world (record_call c) st) cs st.

(** The requests that only read. *)
Definition is_lookup (c : RemoteCall) : bool :=
  match c with
  | CallBind _ _ | CallFolderBind _ _ | CallFindFolders _ _ _ _
  | CallFindAppointments _ _ _ => true
  | CallSave _ _ _ | CallUpdate _ _ _ _ | CallDelete _ _ _ => false
  end.

(** What one chosen calendar contributes to [getAvailability]. *)
Definition busy_answer (service : ExchangeService) (view : CalendarView)
    (s : S) (calendar : IntegrationCalendar) : JsThrown + list EventBusyDate :=
  match FindAppointments service (externalId calendar) view s with
  | inl e => inl e
  | inr items => inr (map busy_of (filter not_free items))
  end.

(** The promise of the callback for one chosen calendar, once the query
    has gone out. *)
Definition busy_promise (service : ExchangeService) (view : CalendarView)
    (s : S) (calendar : IntegrationCalendar) : Promise (list EventBusyDate) :=
  {| settles_at :=
       Datatypes.S (FindAppointments_latency service (externalId calendar) view s);
     settlement := busy_answer service view s calendar |}.

(** A cached handle is the one built from the payload, and was counted. *)
Definition well_formed (st : State S) : Prop :=
  forall h, _exchangeService (this st) = Some h ->
    h = handle_for (payload (this st)) (objectId h) /\
    objectId h < constructed (world st).

(** The states an adapter made by the constructor can be in. *)
Inductive Reachable (adapter : ExchangeCalendarService) : State S -> Prop :=
| reach_new (w : World S) : Reachable adapter {| this := adapter; world := w |}
| reach_perform (o : Operation) (st : State S) :
    Reachable adapter st -> Reachable adapter (snd (perform o st))
| reach_cleanup (st : State S) :
    Reachable adapter st -> Reachable adapter (cleanup st).

End MoreVocabulary.

(** ** Mailboxes with faults, and a few states of the in-memory mailbox *)

Module Faulty.
Import CalendarService InMemory.

(** The in-memory mailbox with the NTLM set-up, the deleted-items look-up
    and the folder search throwing what is given (if anything), and the
    appointment query on the folder [busy] rejecting. *)
Definition make (ntlm folder search : option JsThrown) (busy : string)
  : Collaborators Mailbox := {|
  symmetricDecrypt := decrypt;
  JSON_parse := parse;
  DateTime_Parse := parse_date;
  DateTime_ToISOString := to_iso;
  Date_new := new_date;
  ExchangeService_new := fun _ => None;
  WebCredentials_new := fun _ _ => None;
  Uri_new := fun _ => None;
  useNtlmAuthentication := fun _ _ => ntlm;
  Appointment_Save := fun _ a _ m => save a m;
  Appointment_Bind := fun _ u m => bind_item u m;
  Appointment_Update := fun _ a _ _ m => update a m;
  Appointment_Delete := fun _ a _ m => delete a m;
  Folder_Bind := fun _ _ m =>
    match folder with Some e => inl e | None => inr (trash m) end;
  FindFolders := fun _ _ _ _ m =>
    match search with Some e => inl e | None => inr (folders m) end;
  FindAppointments := fun _ f _ m =>
    if f =? busy then inl (JsError "The mailbox is busy")
    else inr (lookup f (agenda m));
  FindAppointments_latency := fun _ _ _ _ => 1
|}.

(** The in-memory mailbox on which every appointment query rejects, with
    a message that names the folder, and the query on [late] takes longer
    than the others. *)
Definition racing (late : string) : Collaborators Mailbox := {|
  symmetricDecrypt := decrypt;
  JSON_parse := parse;
  DateTime_Parse := parse_date;
  DateTime_ToISOString := to_iso;
  Date_new := new_date;
  ExchangeService_new := fun _ => None;
  WebCredentials_new := fun _ _ => None;
  Uri_new := fun _ => None;
  useNtlmAuthentication := fun _ _ => None;
  Appointment_Save := fun _ a _ m => save a m;
  Appointment_Bind := fun _ u m => bind_item u m;
  Appointment_Update := fun _ a _ _ m => update a m;
  Appointment_Delete := fun _ a _ m => delete a m;
  Folder_Bind := fun _ _ m => inr (trash m);
  FindFolders := fun _ _ _ _ m => inr (folders m);
  FindAppointments := fun _ f _ m => inl (JsError ("No answer from " ++ f));
  FindAppointments_latency := fun _ f _ _ => if f =? late then 5 else 1
|}.


(** The state after [createEvent meeting] on the fresh adapter, and the
    item the server then holds. *)
Definition created : State Mailbox :=
  Eval vm_compute in snd (createEvent meeting (initial good_payload)).

Definition saved_item : Appointment :=
  Eval vm_compute in
    match bind_item "AAMk" (server (world created)) with
    | inr a => a
    | inl _ => new_Appointment
    end.

(** The handle built for [ntlm_payload] when the set-up succeeds. *)
Definition ntlm_handle : ExchangeService :=
  {| objectId := 0;
     RequestedServerVersion := JNum 7;
     Credentials := Some {| UserName := JStr "a@b.com"; Password := JStr "p" |};
     Url := Some (JStr "https://mail.x.com/ews/Exchange.asmx");
     XHRApi := Some {| rejectUnauthorized := false; timeout := 30000;
                       ntlmUser := JStr "a@b.com"; ntlmPassword := JStr "p" |} |}.

Definition ntlm_props : list (string * JsValue) :=
  [("url", JStr "https://mail.x.com/ews/Exchange.asmx");
   ("username", JStr "a@b.com"); ("password", JStr "p");
   ("authenticationMethod", JNum 1); ("exchangeVersion", JNum 7)].


Definition legacy_state (props : list (string * JsValue)) : Legacy.State :=
  {| Legacy.this := {| Legacy.integrationName := "exchange_calendar";
                       Legacy.payload := JObj props |};
     Legacy.NODE_OPTIONS := Some "--max-old-space-size=4096";
     Legacy.constructed := 0 |}.

Definition demo_body : PostAdd.Body :=
  {| PostAdd.url := "https://mail.x.com/ews/Exchange.asmx";
     PostAdd.username := "a@b.com"; PostAdd.password := "p";
     PostAdd.authenticationMethod := 0; PostAdd.exchangeVersion := 7;
     PostAdd.useCompression := false |}.

Definition http_body : PostAdd.Body :=
  {| PostAdd.url := "http://mail.x.com/ews/Exchange.asmx";
     PostAdd.username := "a@b.com"; PostAdd.password := "p";
     PostAdd.authenticationMethod := 0; PostAdd.exchangeVersion := 0;
     PostAdd.useCompression := false |}.

(** The in-memory mailbox with a parser that also knows the text
    ["body"], and the writer and cipher that go with it. *)
Definition handler_mailbox : Collaborators Mailbox := {|
  symmetricDecrypt := decrypt;
  JSON_parse := fun t =>
    if t =? "body" then inr (PostAdd.body_json demo_body) else parse t;
  DateTime_Parse := parse_date;
  DateTime_ToISOString := to_iso;
  Date_new := new_date;
  ExchangeService_new := fun _ => None;
  WebCredentials_new := fun _ _ => None;
  Uri_new := fun _ => None;
  useNtlmAuthentication := fun _ _ => None;
  Appointment_Save := fun _ a _ m => save a m;
  Appointment_Bind := fun _ u m => bind_item u m;
  Appointment_Update := fun _ a _ _ m => update a m;
  Appointment_Delete := fun _ a _ m => delete a m;
  Folder_Bind := fun _ _ m => inr (trash m);
  FindFolders := fun _ _ _ _ m => inr (folders m);
  FindAppointments := fun _ f _ m => inr (lookup f (agenda m));
  FindAppointments_latency := fun _ _ _ _ => 1
|}.

Definition encrypt (text secret : string) : JsThrown + string :=
  if secret =? EmptyString then inl (JsError "Invalid key length")
  else inr ("enc:" ++ text).

Definition stringify (v : JsValue) : string := "body".

Definition handler_world : PostAdd.HandlerWorld (S := Mailbox) :=
  {| PostAdd.exchange := {| server := box; constructed := 0; calls := [] |};
     PostAdd.stored := [] |}.

End Faulty.


(* ===================================================================== *)
(** * Regular expressions and the shape of an e-mail address              *)
(* ===================================================================== *)

(** ** The matcher and what it matches *)

Lemma append_empty (s1 s2 : string) :
  s1 ++ s2 = EmptyString -> s1 = EmptyString /\ s2 = EmptyString.
Proof. destruct s1; simpl; [auto|discriminate]. Qed.

Lemma Matches_Seq (r1 r2 : regex) (s : string) :
  Matches (Seq r1 r2) s <->
  exists s1 s2, s = s1 ++ s2 /\ Matches r1 s1 /\ Matches r2 s2.
Proof.
  split.
  - intros H. inversion H; subst. eauto.
  - intros (s1 & s2 & -> & H1 & H2). now constructor.
Qed.

Lemma Matches_nullable (r : regex) :
  nullable r = true <-> Matches r EmptyString.
Proof.
  split.
  - induction r; simpl; intros H; try discriminate.
    + constructor.
    + apply andb_true_iff in H. destruct H as [H1 H2].
      change EmptyString with (EmptyString ++ EmptyString). constructor; auto.
    + apply orb_true_iff in H. destruct H; [apply MOrL|apply MOrR]; auto.
    + constructor.
  - intros H. remember EmptyString as t eqn:E.
    induction H; simpl; try reflexivity; try discriminate.
    + apply append_empty in E. destruct E as [-> ->].
      rewrite IHMatches1, IHMatches2; auto.
    + rewrite IHMatches; auto.
    + rewrite IHMatches; auto. apply orb_true_r.
Qed.

Lemma Matches_deriv_sound (c : ascii) (r : regex) :
  forall s, Matches (deriv c r) s -> Matches r (String c s).
Proof.
  induction r; simpl; intros s H.
  - inversion H.
  - inversion H.
  - destruct (p c) eqn:E; inversion H; subst. now constructor.
  - destruct (nullable r1) eqn:N.
    + inversion H; subst.
      * apply Matches_Seq in H3. destruct H3 as (s1 & s2 & -> & H1 & H2).
        change (String c (s1 ++ s2)) with (String c s1 ++ s2).
        constructor; auto.
      * change (String c s) with (EmptyString ++ String c s).
        constructor; [now apply Matches_nullable|auto].
    + apply Matches_Seq in H. destruct H as (s1 & s2 & -> & H1 & H2).
      change (String c (s1 ++ s2)) with (String c s1 ++ s2).
      constructor; auto.
  - inversion H; subst; [apply MOrL|apply MOrR]; auto.
  - apply Matches_Seq in H. destruct H as (s1 & s2 & -> & H1 & H2).
    change (String c (s1 ++ s2)) with (String c s1 ++ s2).
    constructor; auto.
Qed.

Lemma Matches_deriv_complete (c : ascii) (r : regex) (t : string) :
  Matches r t -> forall s', t = String c s' -> Matches (deriv c r) s'.
Proof.
  induction 1 as [ | p c0 Hp | r1 r2 s1 s2 H1 IH1 H2 IH2 | r1 r2 s0 H IH
                 | r1 r2 s0 H IH | r | r s1 s2 H1 IH1 H2 IH2 ];
    intros s' E; simpl.
  - discriminate.
  - injection E as E1 E2. subst. rewrite Hp. constructor.
  - destruct s1 as [|c1 s1]; simpl in E.
    + assert (N : nullable r1 = true) by now apply Matches_nullable.
      rewrite N. apply MOrR. auto.
    + injection E as E1 E2. subst.
      assert (K : Matches (Seq (deriv c r1) r2) (s1 ++ s2))
        by (constructor; auto).
      destruct (nullable r1); [now apply MOrL|exact K].
  - apply MOrL. auto.
  - apply MOrR. auto.
  - discriminate.
  - destruct s1 as [|c1 s1]; simpl in E.
    + apply IH2 in E. exact E.
    + injection E as E1 E2. subst. constructor; auto.
Qed.

Lemma test_Matches (r : regex) (s : string) :
  test r s = true <-> Matches r s.
Proof.
  revert r. induction s as [|c s IH]; intros r; simpl.
  - apply Matches_nullable.
  - rewrite IH. split.
    + apply Matches_deriv_sound.
    + intros H. eapply Matches_deriv_complete; [exact H|reflexivity].
Qed.

Lemma Matches_Star_Class (p : ascii -> bool) (s : string) :
  Matches (Star (Class p)) s <-> all_chars p s = true.
Proof.
  split.
  - intros H. remember (Star (Class p)) as r eqn:E.
    induction H as [ | | | | | r0 | r0 s1 s2 H1 IH1 H2 IH2 ];
      try discriminate; [reflexivity|].
    injection E as ->.
    inversion H1 as [ | p' c Hpc | | | | | ]; subst. simpl.
    rewrite Hpc. simpl. now apply IH2.
  - induction s as [|c s IH]; simpl; intros H; [constructor|].
    apply andb_true_iff in H. destruct H as [H1 H2].
    change (String c s) with (String c EmptyString ++ s).
    constructor; [now constructor|auto].
Qed.

Lemma Matches_Plus_Class (p : ascii -> bool) (s : string) :
  Matches (Plus (Class p)) s <-> s <> EmptyString /\ all_chars p s = true.
Proof.
  unfold Plus. rewrite Matches_Seq. split.
  - intros (s1 & s2 & -> & H1 & H2).
    inversion H1 as [ | p' c Hpc | | | | | ]; subst. simpl.
    apply Matches_Star_Class in H2. rewrite Hpc, H2.
    split; [discriminate|reflexivity].
  - intros [Hne Hall]. destruct s as [|c s]; [contradiction|].
    simpl in Hall. apply andb_true_iff in Hall. destruct Hall as [Hc Hs].
    exists (String c EmptyString), s. repeat split.
    + now constructor.
    + now apply Matches_Star_Class.
Qed.

Lemma Matches_Chr (c : ascii) (s : string) :
  Matches (Chr c) s <-> s = String c EmptyString.
Proof.
  unfold Chr. split.
  - intros H. inversion H as [ | p' d Hd | | | | | ]; subst.
    apply Ascii.eqb_eq in Hd. now subst.
  - intros ->. constructor. apply Ascii.eqb_refl.
Qed.

Lemma all_chars_app (p : ascii -> bool) (a b : string) :
  all_chars p (a ++ b) = all_chars p a && all_chars p b.
Proof.
  induction a as [|c a IH]; simpl; [reflexivity|].
  now rewrite IH, andb_assoc.
Qed.

Lemma count_char_app (c : ascii) (a b : string) :
  count_char c (a ++ b) = count_char c a + count_char c b.
Proof.
  induction a as [|d a IH]; simpl; [reflexivity|]. rewrite IH. lia.
Qed.

Lemma plain_has_no_at (s : string) :
  all_chars plain_char s = true ->
  count_char "@"%char s = 0 /\
  all_chars (fun c => negb (is_space c)) s = true.
Proof.
  induction s as [|c s IH]; cbn [count_char all_chars]; [auto|].
  intros H. apply andb_true_iff in H. destruct H as [Hc Hs].
  destruct (IH Hs) as [I1 I2]. unfold plain_char in Hc.
  apply negb_true_iff, orb_false_iff in Hc. destruct Hc as [Hsp Hat].
  rewrite Ascii.eqb_sym in Hat.
  rewrite Hat, Hsp, I1, I2. auto.
Qed.

(** ** The shape of an e-mail address *)

Lemma splits_spec (s a b : string) : In (a, b) (Validation.splits s) <-> s = a ++ b.
Proof.
  revert a b. induction s as [|c s IH]; intros a b; cbn [Validation.splits].
  - split.
    + intros [[= <- <-]|[]]. reflexivity.
    + intros H. symmetry in H. left.
      destruct a; [|discriminate]. simpl in H. now subst.
  - split.
    + intros [[= <- <-]|H]; [reflexivity|].
      apply in_map_iff in H. destruct H as ([a' b'] & [= <- <-] & Hin).
      apply IH in Hin. simpl. now subst.
    + intros H. destruct a as [|d a]; simpl in H.
      * left. now subst.
      * injection H as <- ->. right. apply in_map_iff.
        exists (a, b). split; [reflexivity|]. now apply IH.
Qed.

Lemma is_part_spec (s : string) : Validation.is_part s = true <-> address_part s.
Proof.
  unfold Validation.is_part, address_part.
  rewrite andb_true_iff, negb_true_iff, String.eqb_neq. reflexivity.
Qed.

Lemma email_shaped_spec (s : string) :
  Validation.email_shaped s = true <->
  exists local domain tld,
    s = local ++ "@" ++ domain ++ "." ++ tld /\
    address_part local /\ address_part domain /\ address_part tld.
Proof.
  unfold Validation.email_shaped. rewrite existsb_exists. split.
  - intros ([local rest] & Hin & H). apply splits_spec in Hin. cbn [fst snd] in H.
    apply andb_true_iff in H. destruct H as [Hl H].
    destruct rest as [|c rest]; [discriminate|].
    apply andb_true_iff in H. destruct H as [Hc H].
    apply Ascii.eqb_eq in Hc. subst c.
    apply existsb_exists in H. destruct H as ([domain rest'] & Hin' & H).
    apply splits_spec in Hin'. cbn [fst snd] in H.
    apply andb_true_iff in H. destruct H as [Hd H].
    destruct rest' as [|d tld]; [discriminate|].
    apply andb_true_iff in H. destruct H as [Hdot Ht].
    apply Ascii.eqb_eq in Hdot. subst d.
    exists local, domain, tld. rewrite <- !is_part_spec.
    subst. repeat split; assumption.
  - intros (local & domain & tld & -> & Hl & Hd & Ht).
    apply is_part_spec in Hl, Hd, Ht.
    exists (local, "@" ++ domain ++ "." ++ tld). split.
    + now apply splits_spec.
    + cbn [fst snd append]. rewrite Hl, Ascii.eqb_refl. cbn [andb].
      apply existsb_exists. exists (domain, "." ++ tld). split.
      * now apply splits_spec.
      * cbn [fst snd append]. now rewrite Hd, Ascii.eqb_refl, Ht.
Qed.

Lemma isValidEmail_shape_iff (address : string) :
  Validation.isValidEmail address = true <->
  exists local domain tld,
    address = local ++ "@" ++ domain ++ "." ++ tld /\
    address_part local /\ address_part domain /\ address_part tld.
Proof.
  unfold Validation.isValidEmail. rewrite test_Matches.
  unfold Validation.emailRegex, Validation.not_space_at.
  change (fun c : ascii => negb (is_space c || Ascii.eqb c "@"%char))
    with plain_char.
  unfold address_part. split.
  - intros H.
    apply Matches_Seq in H. destruct H as (a & r1 & -> & Ha & H).
    apply Matches_Seq in H. destruct H as (x & r2 & -> & Hx & H).
    apply Matches_Seq in H. destruct H as (b & r3 & -> & Hb & H).
    apply Matches_Seq in H. destruct H as (y & c & -> & Hy & Hc).
    apply Matches_Chr in Hx, Hy. subst x y.
    apply Matches_Plus_Class in Ha, Hb, Hc.
    exists a, b, c. auto.
  - intros (a & b & c & -> & Ha & Hb & Hc).
    apply Matches_Plus_Class in Ha, Hb, Hc.
    constructor; [exact Ha|].
    change ("@" ++ b ++ "." ++ c) with (String "@"%char EmptyString ++ (b ++ "." ++ c)).
    constructor; [now apply Matches_Chr|].
    constructor; [exact Hb|].
    change ("." ++ c) with (String "."%char EmptyString ++ c).
    constructor; [now apply Matches_Chr|exact Hc].
Qed.

(** The expression of the code decides the shape of the specification. *)
Lemma isValidEmail_email_shaped (address : string) :
  Validation.isValidEmail address = Validation.email_shaped address.
Proof.
  apply eq_true_iff_eq.
  rewrite isValidEmail_shape_iff, email_shaped_spec. reflexivity.
Qed.

(* ===================================================================== *)
(** * Properties of the configuration validator                           *)
(* ===================================================================== *)

Section ValidatorFacts.
Import Enums Validation.
Variable URL_parse : string -> option URL.

Lemma includes_num_Object_values (e : list (string * Z)) (n : Z) :
  includes_num (Object_values e) n = existsb (fun p => (snd p =? n)%Z) e.
Proof.
  unfold includes_num, Object_values.
  rewrite existsb_app.
  assert (Hnames : forall l : list (string * Z),
    existsb (fun v => match v with EnumNum m => (m =? n)%Z | EnumName _ => false end)
            (map (fun p => EnumName (fst p)) l) = false).
  { induction l as [|p l IH]; simpl; auto. }
  rewrite Hnames. simpl.
  induction e as [|p e IH]; simpl; [reflexivity|].
  now rewrite IH.
Qed.

Lemma isValidEwsUrl_spec (u : string) :
  isValidEwsUrl URL_parse u =
  match URL_parse u with
  | None => false
  | Some o =>
      (protocol o =? "https:") &&
      existsb (fun sub => includes (toLowerCase (pathname o)) sub)
              ["/ews/"; "/exchange.asmx"; "/microsoft-server-activesync"]
  end.
Proof.
  unfold isValidEwsUrl.
  destruct (URL_parse u) as [o|]; [|reflexivity].
  destruct (protocol o =? "https:"); simpl; [|reflexivity].
  now rewrite orb_false_r, orb_assoc.
Qed.

Lemma validate_errors (config : ExchangeConfig) :
  errors (validate URL_parse config) =
    (verdict (rule_url URL_parse config) (truthy_str (url config))
             msg_url_required msg_url_invalid
     ++ verdict (rule_username config) (truthy_str (username config))
                msg_username_required msg_username_invalid
     ++ verdict (rule_password config) false
                msg_password_required msg_password_empty
     ++ verdict (rule_auth config) true msg_auth_invalid msg_auth_invalid
     ++ verdict (rule_version config) true msg_version_invalid msg_version_invalid)%list.
Proof.
  destruct config as [u n p a v c].
  unfold validate, rule_url, rule_username, rule_password, rule_auth,
    rule_version, verdict, push.
  cbn [url username password authenticationMethod exchangeVersion errors].
  rewrite ?includes_num_Object_values.
  destruct u as [u0|]; cbn [truthy_str or_empty negb];
    [ rewrite isValidEwsUrl_spec;
      destruct (u0 =? EmptyString); cbn [negb andb];
      [ | destruct (URL_parse u0) as [o|];
          [ destruct (andb _ _) | ] ] | ].
  all: destruct n as [n0|]; cbn [truthy_str or_empty negb];
    [ rewrite <- (isValidEmail_email_shaped n0);
      destruct (n0 =? EmptyString); cbn [negb andb];
      [ | destruct (isValidEmail n0) ] | ].
  all: destruct p as [[|ch p0]|]; cbn [truthy_str or_empty negb String.length].
  all: destruct a as [a0|];
    [ rewrite ?includes_num_Object_values;
      destruct (existsb _ ExchangeAuthentication) | ].
  all: destruct v as [v0|];
    [ rewrite ?includes_num_Object_values;
      destruct (existsb _ ExchangeVersion) | ].
  all: reflexivity.
Qed.

Lemma rule_url_present (config : ExchangeConfig) :
  rule_url URL_parse config = true -> truthy_str (url config) = true.
Proof.
  unfold rule_url, truthy_str.
  destruct (url config) as [u|]; [|discriminate].
  destruct (u =? EmptyString); simpl; auto.
Qed.

Lemma rule_username_present (config : ExchangeConfig) :
  rule_username config = true -> truthy_str (username config) = true.
Proof.
  unfold rule_username, truthy_str.
  destruct (username config) as [u|]; [|discriminate].
  destruct (u =? EmptyString); simpl; auto.
Qed.

Lemma rule_password_present (config : ExchangeConfig) :
  rule_password config = true -> truthy_str (password config) = true.
Proof.
  unfold rule_password, truthy_str.
  destruct (password config) as [[|c p]|]; simpl; auto.
Qed.

Lemma rule_username_spec (config : ExchangeConfig) :
  rule_username config = true <->
  exists u local domain tld,
    username config = Some u /\
    u = local ++ "@" ++ domain ++ "." ++ tld /\
    address_part local /\ address_part domain /\ address_part tld.
Proof.
  unfold rule_username. destruct (username config) as [u|].
  - rewrite andb_true_iff, email_shaped_spec. split.
    + intros [_ (local & domain & tld & H)]. exists u, local, domain, tld. auto.
    + intros (u' & local & domain & tld & [= <-] & -> & Hl & Hd & Ht).
      split; [|exists local, domain, tld; auto].
      destruct Hl as [Hne _]. destruct local; [contradiction|reflexivity].
  - split; [discriminate|]. intros (u & _ & _ & _ & H & _). discriminate.
Qed.

(** C6.  [validate] evaluates its five rules independently and collects
    one message per violated rule, in rule order: the error list is the
    concatenation of the five contributions, its length is the number of
    violated rules, its entries are pairwise distinct, and [isValid] is
    true exactly when the list is empty, that is when all five rules hold.
    The username rule holds exactly for a username of the shape
    [local@domain.tld], each of the three parts non-empty and free of white
    space and of the at sign.  A config whose url, username and password
    are all empty or absent (with the two enum fields absent or in range)
    gets exactly the three "required" messages. *)
Theorem validate_collects_every_violation (config : ExchangeConfig) :
  let r := validate URL_parse config in
  (exists e1 e2 e3 e4 e5 : list string,
      errors r = (e1 ++ e2 ++ e3 ++ e4 ++ e5)%list /\
      contributes (rule_url URL_parse config)
                  [msg_url_required; msg_url_invalid] e1 /\
      contributes (rule_username config)
                  [msg_username_required; msg_username_invalid] e2 /\
      contributes (rule_password config) [msg_password_required] e3 /\
      contributes (rule_auth config) [msg_auth_invalid] e4 /\
      contributes (rule_version config) [msg_version_invalid] e5) /\
  (rule_username config = true <->
   exists u local domain tld,
     username config = Some u /\
     u = local ++ "@" ++ domain ++ "." ++ tld /\
     address_part local /\ address_part domain /\ address_part tld) /\
  length (errors r) = violations URL_parse config /\
  NoDup (errors r) /\
  isValid r = forallb (fun b => b) (rules URL_parse config) /\
  (isValid r = true <-> errors r = []) /\
  (truthy_str (url config) = false ->
   truthy_str (username config) = false ->
   truthy_str (password config) = false ->
   rule_auth config = true -> rule_version config = true ->
   errors r = [msg_url_required; msg_username_required; msg_password_required]).
Proof.
  intros r.
  assert (Collected :
    (exists e1 e2 e3 e4 e5 : list string,
        errors r = (e1 ++ e2 ++ e3 ++ e4 ++ e5)%list /\
        contributes (rule_url URL_parse config)
                    [msg_url_required; msg_url_invalid] e1 /\
        contributes (rule_username config)
                    [msg_username_required; msg_username_invalid] e2 /\
        contributes (rule_password config) [msg_password_required] e3 /\
        contributes (rule_auth config) [msg_auth_invalid] e4 /\
        contributes (rule_version config) [msg_version_invalid] e5) /\
    length (errors r) = violations URL_parse config /\
    NoDup (errors r) /\
    isValid r = forallb (fun b => b) (rules URL_parse config) /\
    (isValid r = true <-> errors r = []) /\
    (truthy_str (url config) = false ->
     truthy_str (username config) = false ->
     truthy_str (password config) = false ->
     rule_auth config = true -> rule_version config = true ->
     errors r = [msg_url_required; msg_username_required; msg_password_required])).
  { assert (Hv : isValid r = (length (errors r) =? 0)%nat) by reflexivity.
    pose proof (validate_errors config) as He. fold r in He.
    pose proof (rule_url_present config) as Pu.
    pose proof (rule_username_present config) as Pn.
    pose proof (rule_password_present config) as Pp.
    unfold violations, rules.
    split.
    { do 5 eexists. split; [exact He|].
      unfold contributes, verdict.
      destruct (rule_url URL_parse config), (rule_username config),
        (rule_password config), (rule_auth config), (rule_version config),
        (truthy_str (url config)), (truthy_str (username config));
        repeat split; eexists; (split; [|reflexivity]); simpl; auto. }
    rewrite Hv, He. unfold verdict.
    destruct (rule_url URL_parse config), (rule_username config),
      (rule_password config), (rule_auth config), (rule_version config),
      (truthy_str (url config)), (truthy_str (username config)),
      (truthy_str (password config));
      try (specialize (Pu eq_refl)); try (specialize (Pn eq_refl));
      try (specialize (Pp eq_refl)); try discriminate;
      (split; [reflexivity|]);
      (split; [repeat constructor; simpl; intuition discriminate|]);
      (split; [reflexivity|]);
      (split; [split; intros; (reflexivity || discriminate)|]);
      intros; (reflexivity || discriminate).
  }
  destruct Collected as (C1 & C2).
  split; [exact C1|]. split; [apply rule_username_spec|exact C2].
Qed.

(** C9, as the code behaves on the oldest version.  [Exchange2007_SP1]
    is a declared version, it predates [Exchange2013], and [validate]
    accepts it; yet for every config that carries it [getSuggestions]
    returns no list containing the upgrade suggestion. *)
Theorem getSuggestions_silent_on_oldest_version (config : ExchangeConfig) :
  In Exchange2007_SP1 (map snd ExchangeVersion) /\
  (Exchange2007_SP1 < Exchange2013)%Z /\
  (exchangeVersion config = Some Exchange2007_SP1 ->
     rule_version config = true /\
     forall l, getSuggestions URL_parse config = inr l -> ~ In sugg_upgrade l).
Proof.
  split; [simpl; auto|]. split; [reflexivity|].
  intros Hv. split; [unfold rule_version; rewrite Hv; reflexivity|].
  intros l. unfold getSuggestions. rewrite Hv.
  cbn [Exchange2007_SP1 Z.eqb negb andb push app].
  destruct (truthy_str (url config)).
  - destruct (URL_parse _) as [o|]; [|discriminate].
    destruct (protocol o =? "http:"), (negb _),
      (authenticationMethod config) as [m|];
      try destruct (m =? NTLM)%Z;
      intros H; injection H as <-; simpl; intuition discriminate.
  - destruct (authenticationMethod config) as [m|];
      try destruct (m =? NTLM)%Z;
      intros H; injection H as <-; simpl; intuition discriminate.
Qed.

(** For the other versions below the cut-off the suggestion is made,
    provided the url is absent or parses. *)
Lemma getSuggestions_upgrade (config : ExchangeConfig) (v : Z) :
  exchangeVersion config = Some v -> v <> 0%Z -> (v < Exchange2013)%Z ->
  (truthy_str (url config) = true ->
   URL_parse (or_empty (url config)) <> None) ->
  exists l, getSuggestions URL_parse config = inr l /\ In sugg_upgrade l.
Proof.
  intros Hv Hnz Hlt Hurl. unfold getSuggestions. rewrite Hv.
  apply Z.eqb_neq in Hnz. apply Z.ltb_lt in Hlt. rewrite Hnz, Hlt.
  cbn [negb andb].
  destruct (truthy_str (url config)).
  - specialize (Hurl eq_refl).
    destruct (URL_parse _) as [o|]; [|congruence].
    eexists; split; [reflexivity|].
    unfold push. apply in_or_app. right. simpl. auto.
  - eexists; split; [reflexivity|].
    unfold push. apply in_or_app. right. simpl. auto.
Qed.

(** An unparseable url makes [getSuggestions] throw. *)
Lemma getSuggestions_throws (config : ExchangeConfig) :
  truthy_str (url config) = true ->
  URL_parse (or_empty (url config)) = None ->
  getSuggestions URL_parse config = inl invalid_url_error.
Proof.
  intros Ht Hp. unfold getSuggestions. now rewrite Ht, Hp.
Qed.

End ValidatorFacts.

(** The config that only sets the version to [Exchange2007_SP1] gets the
    empty list, with any url parser. *)
Lemma getSuggestions_on_Exchange2007_SP1 (URL_parse : string -> option Validation.URL) :
  Validation.getSuggestions URL_parse
    {| Validation.url := None; Validation.username := None;
       Validation.password := None; Validation.authenticationMethod := None;
       Validation.exchangeVersion := Some Enums.Exchange2007_SP1;
       Validation.useCompression := None |}
  = inr [].
Proof. reflexivity. Qed.

(** The validator's worked examples. *)
Example validate_rejects_http :
  Validation.validate Validation.simple_URL_parse
    (Validation.mkConfig "http://x/ews/a" "a@b.com" "p" None None)
  = {| Validation.isValid := false;
       Validation.errors := [Validation.msg_url_invalid] |}.
Proof. vm_compute. reflexivity. Qed.

Example validate_accepts_full_config :
  Validation.validate Validation.simple_URL_parse
    (Validation.mkConfig "https://mail.x.com/ews/Exchange.asmx" "a@b.com" "p"
       (Some 0%Z) (Some 7%Z))
  = {| Validation.isValid := true; Validation.errors := [] |}.
Proof. vm_compute. reflexivity. Qed.

Example validate_three_errors :
  Validation.validate Validation.simple_URL_parse
    (Validation.mkConfig EmptyString EmptyString EmptyString None None)
  = {| Validation.isValid := false;
       Validation.errors := [Validation.msg_url_required;
                             Validation.msg_username_required;
                             Validation.msg_password_required] |}.
Proof. vm_compute. reflexivity. Qed.

Example validate_refuses_a_username_of_another_shape :
  Validation.errors
    (Validation.validate Validation.simple_URL_parse
       (Validation.mkConfig "https://mail.x.com/ews/Exchange.asmx"
          "not an e-mail address" "p" None None))
  = [Validation.msg_username_invalid] /\
  Validation.email_shaped "not an e-mail address" = false /\
  Validation.email_shaped "a@b.com" = true.
Proof. vm_compute. repeat split. Qed.

Example validate_path_is_case_insensitive :
  Validation.isValidEwsUrl Validation.simple_URL_parse
    "https://mail.x.com/EWS/Exchange.asmx" = true /\
  Validation.isValidEwsUrl Validation.simple_URL_parse
    "https://mail.x.com/owa" = false.
Proof. vm_compute. split; reflexivity. Qed.

Example isValidEmail_examples :
  Validation.isValidEmail "a@b.com" = true /\
  Validation.isValidEmail "a b@c.com" = false /\
  Validation.isValidEmail "a@b" = false /\
  Validation.isValidEmail "a@b@c.com" = false /\
  Validation.isValidEmail "first.last@mail.example.org" = true.
Proof. vm_compute. repeat split. Qed.

(** The input with three empty fields. *)
Lemma validate_collects_every_violation_witness :
  Validation.errors
    (Validation.validate Validation.simple_URL_parse
       (Validation.mkConfig EmptyString EmptyString EmptyString None None))
  = [Validation.msg_url_required; Validation.msg_username_required;
     Validation.msg_password_required].
Proof.
  apply (validate_collects_every_violation Validation.simple_URL_parse
           (Validation.mkConfig EmptyString EmptyString EmptyString None None));
    reflexivity.
Defined.

(** The oldest version on a config the request handler can pass on: only
    the HTTPS advice comes back. *)
Lemma getSuggestions_silent_on_oldest_version_witness :
  Validation.getSuggestions Validation.simple_URL_parse
    (Validation.mkConfig "http://mail.x.com/ews/Exchange.asmx" "a@b.com" "p"
       (Some 0%Z) (Some 0%Z))
  = inr [Validation.sugg_https] /\
  ~ In Validation.sugg_upgrade [Validation.sugg_https].
Proof.
  split; [vm_compute; reflexivity|].
  apply (proj2 (proj2 (proj2
           (getSuggestions_silent_on_oldest_version Validation.simple_URL_parse
              (Validation.mkConfig "http://mail.x.com/ews/Exchange.asmx" "a@b.com" "p"
                 (Some 0%Z) (Some 0%Z)))) eq_refl)).
  vm_compute. reflexivity.
Defined.

(* ===================================================================== *)
(** * Properties of the calendar service adapter                          *)
(* ===================================================================== *)

Section AdapterFacts.
Import Enums CalendarService.
Context {S : Type} {collab : Collaborators S}.

Local Abbreviation cache st := (_exchangeService (this st)).
Local Notation "x <- c ;; k" := (bind c (fun x => k))
  (at level 61, c at next level, right associativity).

(** ** The monad *)

Lemma bind_rejects {A B} (c : M S A) (k : A -> M S B) st e st' :
  c st = (inl e, st') -> bind c k st = (inl e, st').
Proof. unfold bind. now intros ->. Qed.

Lemma bind_resolves {A B} (c : M S A) (k : A -> M S B) st a st' :
  c st = (inr a, st') -> bind c k st = k a st'.
Proof. unfold bind. now intros ->. Qed.

Lemma log_and_rethrow_id {A} (c : M S A) st : log_and_rethrow c st = c st.
Proof.
  unfold log_and_rethrow, try_catch, throw.
  destruct (c st) as [[e|a] st']; reflexivity.
Qed.

(** ** Handle acquisition *)


Lemma getExchangeService_try_eq (st : State S) :
  getExchangeService_try st =
  let p := payload (this st) in
  if negb (required_present p) then (inl ConfigError, st)
  else
    match construction_failure p with
    | Some (e, false) => (inl e, st)
    | Some (e, true) => (inl e, with_world count_construction st)
    | None =>
        let h := handle_for p (constructed (world st)) in
        (inr h, set_exchangeService (Some h) (with_world count_construction st))
    end.
Proof.
  unfold getExchangeService_try, required_present, construction_failure, handle_for.
  cbv zeta.
  rewrite !negb_andb.
  destruct (negb (truthy (opt_prop (payload (this st)) "url"))
            || negb (truthy (opt_prop (payload (this st)) "username"))
            || negb (truthy (opt_prop (payload (this st)) "password")));
    [reflexivity|].
  unfold new_ExchangeService, new_WebCredentials, new_Uri, new_NtlmXhrApi,
    bind, try_catch, lift_ctor, ret, throw, ntlm_catch, ntlm_failure.
  destruct (ExchangeService_new _) as [e1|]; [reflexivity|].
  destruct (WebCredentials_new _ _) as [e2|]; [reflexivity|].
  destruct (Uri_new _) as [e3|]; [reflexivity|].
  destruct (strict_eq_num _ NTLM); [|reflexivity].
  destruct (useNtlmAuthentication _ _) as [[m|v]|]; try reflexivity.
  destruct (includes m _); reflexivity.
Qed.

Lemma getExchangeService_eq (st : State S) :
  getExchangeService st =
  match cache st with
  | Some cached => (inr cached, st)
  | None =>
      let p := payload (this st) in
      if negb (required_present p) then (inl ConfigError, st)
      else
        match construction_failure p with
        | Some (e, false) => (inl (classify e), st)
        | Some (e, true) => (inl (classify e), with_world count_construction st)
        | None =>
            let h := handle_for p (constructed (world st)) in
            (inr h, set_exchangeService (Some h) (with_world count_construction st))
        end
  end.
Proof.
  unfold getExchangeService.
  destruct (cache st) as [h|]; [reflexivity|].
  unfold try_catch. rewrite getExchangeService_try_eq. cbv zeta.
  destruct (negb _); [reflexivity|].
  destruct (construction_failure _) as [[e []]|]; reflexivity.
Qed.

Lemma getExchangeService_cached (st : State S) h :
  cache st = Some h -> getExchangeService st = (inr h, st).
Proof. intros H. rewrite getExchangeService_eq, H. reflexivity. Qed.

Lemma classify_ConfigError : classify ConfigError = ConfigError.
Proof. vm_compute. reflexivity. Qed.

Lemma getExchangeService_missing (st : State S) :
  cache st = None -> required_present (payload (this st)) = false ->
  getExchangeService st = (inl ConfigError, st).
Proof.
  intros Hc Hm. rewrite getExchangeService_eq, Hc. cbv zeta.
  now rewrite Hm.
Qed.

(** ** How one adapter's state evolves *)

Lemma evolves_refl (st : State S) : evolves st st.
Proof.
  split; auto. intros h H. repeat split; auto.
  exists []. now rewrite app_nil_r.
Qed.

Lemma evolves_trans (st1 st2 st3 : State S) :
  evolves st1 st2 -> evolves st2 st3 -> evolves st1 st3.
Proof.
  intros [N1 P1 C1] [N2 P2 C2]. split; try congruence.
  intros h H. destruct (C1 h H) as (H2 & K1 & l1 & L1 & F1).
  destruct (C2 h H2) as (H3 & K2 & l2 & L2 & F2).
  repeat split; try congruence.
  exists (l1 ++ l2)%list. split.
  - now rewrite L2, L1, app_assoc.
  - apply Forall_app. auto.
Qed.

Lemma triple_ret {A} (P : State S -> Prop) (a : A) :
  triple P (ret a) (fun _ => P).
Proof. intros st H. split; [apply evolves_refl|]. intros; assumption. Qed.

Lemma triple_throw {A} (P : State S -> Prop) e (Q : A -> State S -> Prop) :
  triple P (throw e) Q.
Proof. intros st H. split; [apply evolves_refl|]. discriminate. Qed.

Lemma triple_bind {A B} (P : State S -> Prop) (c : M S A) Q (k : A -> M S B) R :
  triple P c Q -> (forall a, triple (Q a) (k a) R) -> triple P (bind c k) R.
Proof.
  intros Hc Hk st HP. unfold bind.
  destruct (Hc st HP) as [E1 Q1].
  destruct (c st) as [[e|a] st1]; simpl in *; [split; [assumption|discriminate]|].
  destruct (Hk a st1 (Q1 a eq_refl)) as [E2 Q2].
  split; [eapply evolves_trans; eassumption|assumption].
Qed.

Lemma triple_weaken {A} (P P' : State S -> Prop) (c : M S A)
    (Q Q' : A -> State S -> Prop) :
  triple P' c Q' -> (forall st, P st -> P' st) ->
  (forall a st, Q' a st -> Q a st) -> triple P c Q.
Proof.
  intros H HP HQ st Hst. destruct (H st (HP st Hst)) as [E K].
  split; auto.
Qed.

Lemma triple_exists {A X} (P : X -> State S -> Prop) (c : M S A) Q :
  (forall x, triple (P x) c Q) -> triple (fun st => exists x, P x st) c Q.
Proof. intros H st [x Hx]. exact (H x st Hx). Qed.

Lemma triple_log_and_rethrow {A} (P : State S -> Prop) (c : M S A) Q :
  triple P c Q -> triple P (log_and_rethrow c) Q.
Proof.
  intros H st HP. rewrite log_and_rethrow_id. exact (H st HP).
Qed.

Lemma triple_lift_ctor (P : State S -> Prop) (r : option JsThrown) :
  triple P (lift_ctor r) (fun _ => P).
Proof. destruct r; [apply triple_throw|apply triple_ret]. Qed.

Lemma evolves_call c (st : State S) (f : World S -> World S) :
  (forall w, constructed (f w) = constructed w /\
             calls (f w) = (calls w ++ [c])%list) ->
  (forall h, cache st = Some h -> call_handle c = h) ->
  evolves st (with_world f st).
Proof.
  intros Hf Hh. split; try reflexivity.
  intros h H. destruct (Hf (world st)) as [K L]. simpl.
  repeat split; auto.
  exists [c]. split; [assumption|]. constructor; auto.
Qed.

Lemma triple_remote_query {A} h c (q : S -> JsThrown + A) :
  call_handle c = h ->
  triple (holds h) (remote_query c q) (fun _ => holds h).
Proof.
  intros Hc st H. unfold remote_query. simpl. split.
  - apply evolves_call with (c := c).
    + intros w. split; reflexivity.
    + unfold holds in H. intros h' H'. congruence.
  - intros _ _. exact H.
Qed.

Lemma triple_remote_command {A} h c (q : S -> A * S) :
  call_handle c = h ->
  triple (holds h) (remote_command c q) (fun _ => holds h).
Proof.
  intros Hc st H. unfold remote_command.
  destruct (q (server (world st))) as [r s'] eqn:Hq. simpl. split.
  - apply evolves_call with (c := c).
    + intros w. split; reflexivity.
    + unfold holds in H. intros h' H'. congruence.
  - intros _ _. exact H.
Qed.

Lemma triple_getExchangeService :
  triple (fun _ => True) getExchangeService (fun h => holds h).
Proof.
  intros st _. rewrite getExchangeService_eq.
  destruct (cache st) as [h|] eqn:Hc.
  - split; [apply evolves_refl|]. simpl. intros a [= <-]. exact Hc.
  - cbv zeta. destruct (negb _).
    + split; [apply evolves_refl|discriminate].
    + destruct (construction_failure _) as [[e []]|]; simpl.
      * split; [|discriminate]. split; try reflexivity. congruence.
      * split; [apply evolves_refl|discriminate].
      * split; [|intros a [= <-]; reflexivity].
        split; try reflexivity. congruence.
Qed.

Lemma triple_getExchangeService_cached h :
  triple (holds h) getExchangeService (fun a st => a = h /\ holds h st).
Proof.
  intros st H. rewrite (getExchangeService_cached st H). simpl.
  split; [apply evolves_refl|]. intros a [= <-]. auto.
Qed.

Lemma triple_assume {A} (fact : Prop) (P : State S -> Prop) (c : M S A) Q :
  (fact -> triple P c Q) -> triple (fun st => fact /\ P st) c Q.
Proof. intros H st [F HP]. exact (H F st HP). Qed.

Lemma triple_Save h a m : triple (holds h) (Save h a m) (fun _ => holds h).
Proof.
  unfold Save, rejecting.
  eapply triple_bind; [now apply triple_remote_command|].
  intros [e|u]; [apply triple_throw|apply triple_ret].
Qed.

Lemma triple_Bind h u : triple (holds h) (Bind h u) (fun _ => holds h).
Proof. now apply triple_remote_query. Qed.

Lemma triple_Update h a c m :
  triple (holds h) (Update h a c m) (fun _ => holds h).
Proof.
  unfold Update.
  eapply triple_bind; [now apply triple_remote_command|].
  intros r. apply triple_lift_ctor.
Qed.

Lemma triple_Delete h a m : triple (holds h) (Delete h a m) (fun _ => holds h).
Proof.
  unfold Delete.
  eapply triple_bind; [now apply triple_remote_command|].
  intros r. apply triple_lift_ctor.
Qed.

Lemma triple_connect {A} h (c : M S A) :
  triple (holds h) c (fun _ => holds h) -> triple (holds h) c connected.
Proof.
  intros H st Hst. destruct (H st Hst) as [E Q]. split; [exact E|].
  intros a Ha. exists h. exact (Q a Ha).
Qed.

Lemma triple_parse_DateTime (P : State S -> Prop) text :
  triple P (parse_DateTime text) (fun _ => P).
Proof. intros st H. split; [apply evolves_refl|]. intros; assumption. Qed.

Lemma triple_fill (P : State S -> Prop) event a :
  triple P (fill event a) (fun _ => P).
Proof.
  unfold fill.
  eapply triple_bind; [apply triple_parse_DateTime|]. intros startDate.
  eapply triple_bind; [apply triple_parse_DateTime|]. intros endDate.
  apply triple_ret.
Qed.

Lemma triple_createEvent event :
  triple (fun _ => True) (createEvent event) connected.
Proof.
  unfold createEvent.
  eapply triple_bind; [apply triple_getExchangeService|].
  intros h. eapply triple_bind; [apply triple_fill|].
  intros a. apply triple_log_and_rethrow.
  eapply triple_bind; [apply triple_Save|].
  intros u. cbn [Id set_Id].
  apply triple_connect, triple_ret.
Qed.

Lemma triple_updateEvent uid event :
  triple (fun _ => True) (updateEvent uid event) connected.
Proof.
  unfold updateEvent.
  eapply triple_bind; [apply triple_getExchangeService|].
  intros h. eapply triple_bind; [apply triple_Bind|].
  intros a. eapply triple_bind; [apply triple_fill|].
  intros a'. apply triple_log_and_rethrow.
  eapply triple_bind; [apply triple_Update|].
  intros []. destruct (Id a').
  - apply triple_connect, triple_ret.
  - apply triple_throw.
Qed.

Lemma triple_deleteEvent uid :
  triple (fun _ => True) (deleteEvent uid) connected.
Proof.
  unfold deleteEvent.
  eapply triple_bind; [apply triple_getExchangeService|].
  intros h. eapply triple_bind; [apply triple_Bind|].
  intros a. apply triple_log_and_rethrow.
  apply triple_connect, triple_Delete.
Qed.

Lemma triple_listCalendars :
  triple (fun _ => True) listCalendars connected.
Proof.
  intros st HP. revert HP. unfold listCalendars.
  generalize (integrationName (this st)). intros tag. revert st.
  change (triple (fun _ => True)
    (service <- getExchangeService ;;
     deletedItemsFolder <-
       remote_query (CallFolderBind service DeletedItems)
                    (Folder_Bind service DeletedItems) ;;
     log_and_rethrow
       (res <- remote_query
                 (CallFindFolders service MsgFolderRoot
                    {| FolderClass_IsEqualTo := ["IPF.Appointment"] |}
                    {| PageSize := 1000;
                       PropertySet := [IdOnly; ParentFolderIdProp; DisplayNameProp;
                                       ChildFolderCountProp];
                       Traversal := Deep |})
                 (FindFolders service MsgFolderRoot
                    {| FolderClass_IsEqualTo := ["IPF.Appointment"] |}
                    {| PageSize := 1000;
                       PropertySet := [IdOnly; ParentFolderIdProp; DisplayNameProp;
                                       ChildFolderCountProp];
                       Traversal := Deep |}) ;;
        ret (map (fun folder =>
                    {| externalId := FolderId folder;
                       name := nullish_empty (DisplayName folder);
                       primary := (ChildFolderCount folder >? 0)%Z;
                       integration := tag |})
                 (filter (fun folder =>
                            negb (ParentFolderId folder =? FolderId deletedItemsFolder))
                         res)))) connected).
  eapply triple_bind; [apply triple_getExchangeService|].
  intros h. eapply triple_bind; [now apply triple_remote_query|].
  intros d. apply triple_log_and_rethrow.
  eapply triple_bind; [now apply triple_remote_query|].
  intros fs. apply triple_connect, triple_ret.
Qed.

(** The callback of [getAvailability] on an adapter that holds a handle. *)
Lemma busy_in_eq dateFrom dateTo calendar (st : State S) h :
  cache st = Some h ->
  busy_in dateFrom dateTo calendar st =
  match DateTime_Parse dateFrom, DateTime_Parse dateTo with
  | inr startDate, inr endDate =>
      let view := {| StartDate := startDate; EndDate := endDate |} in
      (busy_promise h view (server (world st)) calendar,
       with_world (record_call (CallFindAppointments h (externalId calendar) view)) st)
  | inl e, _ => ({| settles_at := 0; settlement := inl e |}, st)
  | inr _, inl e => ({| settles_at := 0; settlement := inl e |}, st)
  end.
Proof.
  intros Hc. unfold busy_in.
  rewrite (@bind_resolves _ _ _ _ _ _ _ (@getExchangeService_cached st h Hc)).
  unfold bind at 1 2, parse_DateTime, ret.
  destruct (DateTime_Parse dateFrom) as [e|startDate]; [reflexivity|].
  destruct (DateTime_Parse dateTo) as [e|endDate]; [reflexivity|].
  rewrite log_and_rethrow_id.
  unfold bind, remote_query, ret, busy_promise, busy_answer. cbv zeta.
  destruct (FindAppointments _ _ _ _); reflexivity.
Qed.

Lemma busy_in_evolves h dateFrom dateTo calendar (st : State S) :
  holds h st -> evolves st (snd (busy_in dateFrom dateTo calendar st)).
Proof.
  intros H. rewrite (busy_in_eq dateFrom dateTo calendar st H).
  destruct (DateTime_Parse dateFrom) as [e|startDate]; [apply evolves_refl|].
  destruct (DateTime_Parse dateTo) as [e|endDate]; [apply evolves_refl|].
  cbv zeta. cbn [snd].
  apply evolves_call
    with (c := CallFindAppointments h (externalId calendar)
                 {| StartDate := startDate; EndDate := endDate |}).
  - intros w. split; reflexivity.
  - intros h' H'. unfold holds in H. simpl. congruence.
Qed.

Lemma triple_start_each h dateFrom dateTo (chosen : list IntegrationCalendar) :
  triple (holds h) (start_each (map (busy_in dateFrom dateTo) chosen))
         (fun _ => holds h).
Proof.
  induction chosen as [|c chosen IH]; [apply triple_ret|].
  intros st H. cbn [map start_each].
  pose proof (busy_in_evolves dateFrom dateTo c H) as E1.
  destruct (busy_in dateFrom dateTo c st) as [p st1]. cbn [snd] in E1.
  assert (H1 : holds h st1) by (apply (ev_cached E1); exact H).
  destruct (IH st1 H1) as [E2 Q2].
  destruct (start_each _ st1) as [[e|ps] st2]; cbn [snd fst] in *.
  - split; [eapply evolves_trans; eassumption|discriminate].
  - split; [eapply evolves_trans; eassumption|].
    intros a _. apply (ev_cached E2). exact H1.
Qed.

Lemma triple_Promise_all {A} (P : State S -> Prop) (ps : list (Promise A)) :
  triple P (Promise_all ps) (fun _ => P).
Proof.
  unfold Promise_all.
  destruct (first_rejection ps) as [[t e]|]; [apply triple_throw|apply triple_ret].
Qed.

Lemma triple_getAvailability dateFrom dateTo selected :
  triple (fun _ => True) (getAvailability dateFrom dateTo selected) connected.
Proof.
  unfold getAvailability.
  eapply triple_bind; [apply triple_listCalendars|].
  intros cals. unfold connected at 1. apply triple_exists. intros h.
  eapply triple_bind; [apply triple_start_each|].
  intros ps. eapply triple_bind; [apply triple_Promise_all|].
  intros x. apply triple_connect, triple_ret.
Qed.

Lemma perform_evolves (o : Operation) (st : State S) :
  evolves st (snd (perform o st)).
Proof.
  assert (Hout : forall A (f : A -> Outcome) (r : (JsThrown + A) * State S),
             snd (outcome f r) = snd r).
  { intros A f [[e|a] st']; reflexivity. }
  destruct o as [event|u event|u| |dateFrom dateTo selected]; simpl; rewrite Hout.
  - apply (@triple_createEvent event st I).
  - apply (@triple_updateEvent u event st I).
  - apply (@triple_deleteEvent u st I).
  - apply (@triple_listCalendars st I).
  - apply (@triple_getAvailability dateFrom dateTo selected st I).
Qed.

Lemma perform_all_app (p q : list Operation) (st : State S) :
  perform_all (p ++ q) st = perform_all q (perform_all p st).
Proof. unfold perform_all. apply fold_left_app. Qed.

Lemma perform_all_evolves (ops : list Operation) (st : State S) :
  evolves st (perform_all ops st).
Proof.
  revert st. induction ops as [|o ops IH]; intros st.
  - apply evolves_refl.
  - change (perform_all (o :: ops) st)
      with (perform_all ops (snd (perform o st))).
    eapply evolves_trans; [apply perform_evolves|apply IH].
Qed.

(** ** Construction of the adapter *)

Lemma constructor_sets_tag (env_key : option string)
    (credential : CredentialPayload) (adapter : ExchangeCalendarService) :
  new_ExchangeCalendarService env_key credential = inr adapter ->
  integrationName adapter = "exchange_calendar".
Proof.
  unfold new_ExchangeCalendarService, constructor_body.
  destruct (symmetricDecrypt _ _) as [e|plain]; [discriminate|].
  destruct (JSON_parse plain) as [e|v]; [discriminate|].
  now intros [= <-].
Qed.

(** C3, with the message the constructor gives.  When decryption fails,
    or decrypts to a text that [JSON.parse] rejects,
    [new ExchangeCalendarService(credential)] throws the credential error,
    an [Error] that reads "Invalid or corrupted Exchange credentials" (the
    word "Exchange" is the constructor's): no adapter object
    comes into existence, and the object the constructor was working on has
    no cached handle and no payload.  With the process-wide secret absent
    the key handed to the decryption is the empty string, and a failure of
    that decryption is reported in the same way.  An adapter that does come
    into existence carries the parsed payload, its tag and no handle. *)
Theorem constructor_rejects_bad_credentials
    (env_key : option string) (credential : CredentialPayload) :
  ((exists e, symmetricDecrypt (or_empty (key credential)) (or_empty env_key) = inl e) \/
   (exists plain e,
       symmetricDecrypt (or_empty (key credential)) (or_empty env_key) = inr plain /\
       JSON_parse plain = inl e) ->
   new_ExchangeCalendarService env_key credential
     = inl (JsError "Invalid or corrupted Exchange credentials") /\
   CredentialError = JsError "Invalid or corrupted Exchange credentials" /\
   _exchangeService (fst (constructor_body env_key credential fresh_instance)) = None /\
   payload (fst (constructor_body env_key credential fresh_instance)) = JUndefined) /\
  ((exists e, symmetricDecrypt (or_empty (key credential)) EmptyString = inl e) ->
   new_ExchangeCalendarService None credential = inl CredentialError) /\
  (forall adapter,
      new_ExchangeCalendarService env_key credential = inr adapter ->
      (exists plain,
          symmetricDecrypt (or_empty (key credential)) (or_empty env_key) = inr plain /\
          JSON_parse plain = inr (payload adapter)) /\
      _exchangeService adapter = None /\
      integrationName adapter = "exchange_calendar").
Proof.
  unfold new_ExchangeCalendarService, constructor_body.
  cbn [payload _exchangeService integrationName fresh_instance or_empty].
  split; [|split].
  - intros [[e He]|(plain & e & Hd & Hp)].
    + rewrite He. repeat split.
    + rewrite Hd, Hp. repeat split.
  - intros [e He]. now rewrite He.
  - intros adapter.
    destruct (symmetricDecrypt _ _) as [e|plain]; [discriminate|].
    destruct (JSON_parse plain) as [e|v] eqn:Hp; [discriminate|].
    intros [= <-]. split; [exists plain; auto|split; reflexivity].
Qed.

(** ** Handle acquisition: the configuration check *)

Lemma required_present_false (p : JsValue) :
  truthy (opt_prop p "url") = false \/
  truthy (opt_prop p "username") = false \/
  truthy (opt_prop p "password") = false ->
  required_present p = false.
Proof.
  unfold required_present. intros [H|[H|H]]; rewrite H;
    rewrite ?andb_false_r; reflexivity.
Qed.

Lemma missing_or_empty_is_falsy (v : JsValue) :
  v = JUndefined \/ v = JNull \/ v = JStr EmptyString -> truthy v = false.
Proof. intros [->|[->| ->]]; reflexivity. Qed.

Lemma perform_rejects_with_acquisition (o : Operation) (st st' : State S) e :
  getExchangeService st = (inl e, st') ->
  perform o st = (Rejected e, st').
Proof.
  intros H.
  assert (HL : listCalendars st = (inl e, st')).
  { unfold listCalendars. apply bind_rejects. exact H. }
  destruct o as [event|u event|u| |dateFrom dateTo selected]; simpl.
  - assert (createEvent event st = (inl e, st')) as ->
      by (apply bind_rejects; exact H).
    reflexivity.
  - assert (updateEvent u event st = (inl e, st')) as ->
      by (apply bind_rejects; exact H).
    reflexivity.
  - assert (deleteEvent u st = (inl e, st')) as ->
      by (apply bind_rejects; exact H).
    reflexivity.
  - now rewrite HL.
  - assert (getAvailability dateFrom dateTo selected st = (inl e, st')) as ->
      by (apply bind_rejects; exact HL).
    reflexivity.
Qed.

(** C4, with the message the adapter gives.  On an adapter with no cached
    handle whose payload lacks a url, a username or a password (the field
    is absent, null, empty, or otherwise falsy), every public operation is
    rejected with the configuration error, an [Error] that reads "Missing
    required Exchange configuration parameters" (the word "Exchange" is the
    adapter's), and leaves the
    state as it was: no request has been sent and no client object has been
    constructed.  The error is thrown by the [try] block and the [catch]
    block throws it again as it is. *)
Theorem missing_config_fails_before_any_request (o : Operation) (st : State S) :
  cache st = None ->
  truthy (opt_prop (payload (this st)) "url") = false \/
  truthy (opt_prop (payload (this st)) "username") = false \/
  truthy (opt_prop (payload (this st)) "password") = false ->
  perform o st
    = (Rejected (JsError "Missing required Exchange configuration parameters"), st) /\
  calls (world (snd (perform o st))) = calls (world st) /\
  constructed (world (snd (perform o st))) = constructed (world st) /\
  getExchangeService_try st = (inl ConfigError, st) /\
  classify ConfigError = ConfigError.
Proof.
  intros Hc Hm. apply required_present_false in Hm.
  pose proof (getExchangeService_missing st Hc Hm) as HG.
  rewrite (@perform_rejects_with_acquisition o _ _ _ HG).
  repeat split.
  rewrite getExchangeService_try_eq. cbv zeta. now rewrite Hm.
Qed.

(** ** Handle acquisition: the authentication method and the version *)

(** C10.  With url, username and password all present, and an
    authentication method that is not the number [NTLM] (whatever else it
    is: absent, [STANDARD], a number outside the enum, a value of another
    type), handle acquisition checks no enum range and goes the Basic way:
    it hands the payload's [exchangeVersion], whatever it is, to
    [new ExchangeService], attaches the username/password credentials and
    the url, installs no NTLM transport, and caches and returns the handle.
    It can only fail with what one of the three library constructors
    throws, as classified by the [catch] block; when they throw nothing it
    succeeds. *)
Theorem non_ntlm_payload_gets_basic_handle (st : State S) :
  let p := payload (this st) in
  let basic :=
    {| objectId := constructed (world st);
       RequestedServerVersion := opt_prop p "exchangeVersion";
       Credentials := Some {| UserName := opt_prop p "username";
                              Password := opt_prop p "password" |};
       Url := Some (opt_prop p "url");
       XHRApi := None |} in
  cache st = None ->
  truthy (opt_prop p "url") = true ->
  truthy (opt_prop p "username") = true ->
  truthy (opt_prop p "password") = true ->
  strict_eq_num (opt_prop p "authenticationMethod") NTLM = false ->
  getExchangeService st =
    match ExchangeService_new (opt_prop p "exchangeVersion") with
    | Some e => (inl (classify e), st)
    | None =>
        match WebCredentials_new (opt_prop p "username") (opt_prop p "password") with
        | Some e => (inl (classify e), with_world count_construction st)
        | None =>
            match Uri_new (opt_prop p "url") with
            | Some e => (inl (classify e), with_world count_construction st)
            | None =>
                (inr basic,
                 set_exchangeService (Some basic) (with_world count_construction st))
            end
        end
    end /\
  (ExchangeService_new (opt_prop p "exchangeVersion") = None ->
   WebCredentials_new (opt_prop p "username") (opt_prop p "password") = None ->
   Uri_new (opt_prop p "url") = None ->
   fst (getExchangeService st) = inr basic /\
   cache (snd (getExchangeService st)) = Some basic).
Proof.
  intros p basic Hc Hu Hn Hp Ha.
  assert (E : getExchangeService st =
    match ExchangeService_new (opt_prop p "exchangeVersion") with
    | Some e => (inl (classify e), st)
    | None =>
        match WebCredentials_new (opt_prop p "username") (opt_prop p "password") with
        | Some e => (inl (classify e), with_world count_construction st)
        | None =>
            match Uri_new (opt_prop p "url") with
            | Some e => (inl (classify e), with_world count_construction st)
            | None =>
                (inr basic,
                 set_exchangeService (Some basic) (with_world count_construction st))
            end
        end
    end).
  { rewrite getExchangeService_eq, Hc. cbv zeta.
    unfold required_present, construction_failure, handle_for. fold p.
    rewrite Hu, Hn, Hp, Ha. cbn [andb negb].
    destruct (ExchangeService_new _); [reflexivity|].
    destruct (WebCredentials_new _ _); [reflexivity|].
    destruct (Uri_new _); reflexivity. }
  split; [exact E|].
  intros H1 H2 H3. rewrite E, H1, H2, H3. split; reflexivity.
Qed.

(** ** createEvent *)

Lemma add_each_appends (people : list Person) (a : Appointment) :
  add_each people a =
  {| Id := Id a; Subject := Subject a; Start := Start a; End_ := End_ a;
     Location := Location a; Body := Body a;
     RequiredAttendees := (RequiredAttendees a ++ map email people)%list;
     FreeBusyStatus := FreeBusyStatus a |}.
Proof.
  unfold add_each. revert a.
  induction people as [|x people IH]; intros a; simpl.
  - rewrite app_nil_r. now destruct a.
  - rewrite IH. unfold RequiredAttendees_Add. simpl.
    now rewrite <- app_assoc.
Qed.

Lemma fill_eq (event : CalendarEvent) (a : Appointment) (st : State S) :
  fill event a st =
  (match DateTime_Parse (startTime event), DateTime_Parse (endTime event) with
   | inr startDate, inr endDate =>
       inr {| Id := Id a;
              Subject := title event;
              Start := startDate;
              End_ := endDate;
              Location := or_empty (location event);
              Body := or_empty (description event);
              RequiredAttendees :=
                (RequiredAttendees a ++ map email (attendees event)
                 ++ match team event with
                    | Some t => map email (members t)
                    | None => []
                    end)%list;
              FreeBusyStatus := FreeBusyStatus a |}
   | inl e, _ => inl e
   | inr _, inl e => inl e
   end, st).
Proof.
  unfold fill, bind, parse_DateTime, ret.
  destruct (DateTime_Parse (startTime event)) as [e|startDate]; [reflexivity|].
  destruct (DateTime_Parse (endTime event)) as [e|endDate]; [reflexivity|].
  destruct (team event) as [t|].
  - rewrite !add_each_appends. simpl. now rewrite <- app_assoc.
  - rewrite add_each_appends. simpl. now rewrite app_nil_r.
Qed.

(** When the event's times are no dates, [e] being what [DateTime.Parse]
    throws at the first of them that it refuses. *)
Lemma fill_undated (event : CalendarEvent) (a : Appointment) (st : State S) e :
  DateTime_Parse (startTime event) = inl e \/
  (exists startDate,
      DateTime_Parse (startTime event) = inr startDate /\
      DateTime_Parse (endTime event) = inl e) ->
  fill event a st = (inl e, st).
Proof.
  intros [H|(startDate & H1 & H2)]; rewrite fill_eq.
  - now rewrite H.
  - now rewrite H1, H2.
Qed.

(** C7.  Once the handle is acquired and [DateTime.Parse] has read the
    event's start and end times, [createEvent] saves (with the
    send-to-all-and-save-copy policy) an appointment whose subject is the
    title, whose start and end are the parsed timestamps, whose location and
    body are the event's or empty, and whose required attendees are the
    attendees' addresses followed by the team members' addresses, one entry
    each, duplicates kept.  If the save resolves with the unique identifier
    [unique], the result has [uid = id = unique] and blank password, type,
    url and additional info; if it rejects, so does [createEvent], with the
    same value.  An event whose start or end time is no date is rejected
    with what [DateTime.Parse] throws, and nothing is saved. *)
Theorem createEvent_builds_appointment_and_returns_uid
    (event : CalendarEvent) (st st1 : State S) (service : ExchangeService) :
  getExchangeService st = (inr service, st1) ->
  (forall startDate endDate,
      DateTime_Parse (startTime event) = inr startDate ->
      DateTime_Parse (endTime event) = inr endDate ->
      let appointment :=
        {| Id := None;
           Subject := title event;
           Start := startDate;
           End_ := endDate;
           Location := match location event with Some l => l | None => EmptyString end;
           Body := match description event with Some d => d | None => EmptyString end;
           RequiredAttendees :=
             (map email (attendees event)
              ++ match team event with
                 | Some t => map email (members t)
                 | None => []
                 end)%list;
           FreeBusyStatus := Busy |} in
      let request := CallSave service appointment SendToAllAndSaveCopy in
      createEvent event st =
        match Appointment_Save service appointment SendToAllAndSaveCopy
                (server (world st1)) with
        | (inr unique, s') =>
            (inr {| uid := unique; id := unique; password := EmptyString;
                    type := EmptyString; url := EmptyString; additionalInfo := [] |},
             with_world (fun w => set_server s' (record_call request w)) st1)
        | (inl reason, s') =>
            (inl reason,
             with_world (fun w => set_server s' (record_call request w)) st1)
        end) /\
  (forall e,
      DateTime_Parse (startTime event) = inl e \/
      (exists startDate,
          DateTime_Parse (startTime event) = inr startDate /\
          DateTime_Parse (endTime event) = inl e) ->
      createEvent event st = (inl e, st1)).
Proof.
  intros H. split.
  - intros startDate endDate Hs He appointment request.
    unfold createEvent. rewrite (@bind_resolves _ _ _ _ _ _ _ H).
    unfold bind at 1. rewrite fill_eq, Hs, He.
    rewrite log_and_rethrow_id.
    cbn [new_Appointment Id Subject Start End_
      Location Body RequiredAttendees FreeBusyStatus app].
    fold appointment. unfold Save, rejecting, remote_command, bind.
    fold request.
    destruct (Appointment_Save _ _ _ _) as [[reason|unique] s']; reflexivity.
  - intros e Hu.
    unfold createEvent. rewrite (@bind_resolves _ _ _ _ _ _ _ H).
    apply bind_rejects. now apply fill_undated.
Qed.

(** ** updateEvent and deleteEvent on an item the server does not have *)



Lemma getExchangeService_resolved (st st1 : State S) h :
  getExchangeService st = (inr h, st1) ->
  cache st1 = Some h /\ server (world st1) = server (world st).
Proof.
  rewrite getExchangeService_eq.
  destruct (cache st) as [h0|] eqn:Hc.
  - intros [= <- <-]. auto.
  - cbv zeta. destruct (negb _); [discriminate|].
    destruct (construction_failure _) as [[e []]|]; try discriminate.
    intros [= <- <-]. auto.
Qed.



(** ** listCalendars *)

Lemma listCalendars_eq (st : State S) :
  listCalendars st =
  match getExchangeService st with
  | (inl e, st1) => (inl e, st1)
  | (inr service, st1) =>
      match Folder_Bind service DeletedItems (server (world st1)) with
      | inl e => (inl e, with_world (record_call (CallFolderBind service DeletedItems)) st1)
      | inr deleted =>
          match FindFolders service MsgFolderRoot calendar_filter calendar_view
                  (server (world st1)) with
          | inl e => (inl e, listed service st1)
          | inr found =>
              (inr (map (fun folder =>
                           {| externalId := FolderId folder;
                              name := nullish_empty (DisplayName folder);
                              primary := (ChildFolderCount folder >? 0)%Z;
                              integration := integrationName (this st) |})
                        (filter (fun folder =>
                                   negb (ParentFolderId folder =? FolderId deleted))
                                found)),
               listed service st1)
          end
      end
  end.
Proof.
  unfold listCalendars, bind at 1.
  destruct (getExchangeService st) as [[e|service] st1]; [reflexivity|].
  unfold bind at 1, remote_query at 1.
  destruct (Folder_Bind service DeletedItems (server (world st1))) as [e|deleted];
    [reflexivity|].
  rewrite log_and_rethrow_id. unfold bind, remote_query, ret. simpl.
  fold calendar_view calendar_filter.
  destruct (FindFolders _ _ _ _ _) as [e|found]; reflexivity.
Qed.

(** C2.  Once the handle is acquired, the deleted-items folder is resolved
    to [deleted] and the folder search answers [found], [listCalendars]
    returns, in the order found, one record for each folder whose parent id
    differs from the id of [deleted], and none for the others.  The record
    of a kept folder has the folder's id, its display name (empty when it
    has none), [primary] true exactly when the child folder count is
    positive, and the adapter's integration tag, which is
    ["exchange_calendar"] on every adapter the constructor has made. *)
Theorem listCalendars_drops_deleted_and_maps
    (st st1 : State S) (service : ExchangeService)
    (deleted : Folder) (found : list Folder) :
  getExchangeService st = (inr service, st1) ->
  Folder_Bind service DeletedItems (server (world st1)) = inr deleted ->
  FindFolders service MsgFolderRoot calendar_filter calendar_view
    (server (world st1)) = inr found ->
  let kept :=
    filter (fun folder => negb (ParentFolderId folder =? FolderId deleted)) found in
  fst (listCalendars st) =
    inr (map (fun folder =>
                {| externalId := FolderId folder;
                   name := match DisplayName folder with
                           | Some n => n
                           | None => EmptyString
                           end;
                   primary := (0 <? ChildFolderCount folder)%Z;
                   integration := integrationName (this st) |})
             kept) /\
  (forall folder, In folder kept <->
                  In folder found /\ ParentFolderId folder <> FolderId deleted) /\
  (forall env_key credential adapter,
      new_ExchangeCalendarService env_key credential = inr adapter ->
      integrationName adapter = "exchange_calendar") /\
  (forall ops, integrationName (this (perform_all ops st)) = integrationName (this st)).
Proof.
  intros HG HB HF kept.
  rewrite listCalendars_eq, HG, HB, HF. cbn [fst].
  repeat split.
  - apply f_equal. apply map_ext. intros f. f_equal.
    + apply Z.gtb_ltb.
  - subst kept. rewrite filter_In in H. tauto.
  - subst kept. rewrite filter_In in H. destruct H as [_ H].
    intros E. rewrite E, String.eqb_refl in H. discriminate.
  - intros [Hin Hne]. subst kept. rewrite filter_In. split; [assumption|].
    destruct (String.eqb_spec (ParentFolderId folder) (FolderId deleted));
      [contradiction|reflexivity].
  - intros env_key credential adapter Hnew.
    exact (constructor_sets_tag env_key credential Hnew).
  - intros ops. apply (ev_name (perform_all_evolves ops st)).
Qed.

(** ** getAvailability *)

Lemma sent_all_facts (cs : list RemoteCall) (st : State S) :
  calls (world (sent_all cs st)) = (calls (world st) ++ cs)%list /\
  server (world (sent_all cs st)) = server (world st) /\
  constructed (world (sent_all cs st)) = constructed (world st) /\
  this (sent_all cs st) = this st.
Proof.
  unfold sent_all. revert st.
  induction cs as [|c cs IH]; intros st; simpl.
  - now rewrite app_nil_r.
  - destruct (IH (with_world (record_call c) st)) as (H1 & H2 & H3 & H4).
    rewrite H1, H2, H3, H4. simpl. now rewrite <- app_assoc.
Qed.

(** The callbacks started when the dates are dates: one query each, in the
    order of the chosen calendars. *)
Lemma start_each_dated dateFrom dateTo h startDate endDate
    (chosen : list IntegrationCalendar) (st : State S) :
  cache st = Some h ->
  DateTime_Parse dateFrom = inr startDate ->
  DateTime_Parse dateTo = inr endDate ->
  let view := {| StartDate := startDate; EndDate := endDate |} in
  start_each (map (busy_in dateFrom dateTo) chosen) st =
  (inr (map (busy_promise h view (server (world st))) chosen),
   sent_all (map (fun c => CallFindAppointments h (externalId c) view) chosen) st).
Proof.
  intros Hc Hs He view. revert st Hc.
  induction chosen as [|c chosen IH]; intros st Hc; [reflexivity|].
  cbn [map start_each].
  rewrite (busy_in_eq dateFrom dateTo c st Hc), Hs, He.
  cbv beta iota zeta. fold view.
  rewrite (IH (with_world (record_call (CallFindAppointments h (externalId c) view)) st)
              Hc).
  reflexivity.
Qed.

(** The callbacks started when a date is no date: each rejects at once and
    no query goes out. *)
Lemma start_each_undated dateFrom dateTo h e
    (chosen : list IntegrationCalendar) (st : State S) :
  cache st = Some h ->
  DateTime_Parse dateFrom = inl e \/
  (exists startDate,
      DateTime_Parse dateFrom = inr startDate /\ DateTime_Parse dateTo = inl e) ->
  start_each (map (busy_in dateFrom dateTo) chosen) st =
  (inr (map (fun _ => {| settles_at := 0; settlement := inl e |}) chosen), st).
Proof.
  intros Hc Hu.
  assert (B : forall c, busy_in dateFrom dateTo c st
                        = ({| settles_at := 0; settlement := inl e |}, st)).
  { intros c. rewrite (busy_in_eq dateFrom dateTo c st Hc).
    destruct Hu as [H|(startDate & H1 & H2)].
    - now rewrite H.
    - now rewrite H1, H2. }
  induction chosen as [|c chosen IH]; [reflexivity|].
  cbn [map start_each]. rewrite B, IH. reflexivity.
Qed.

(** [Promise.all] on settled promises. *)
Lemma first_rejection_spec {A} (ps : list (Promise A)) :
  match first_rejection ps with
  | None => forall p, In p ps -> exists a, settlement p = inr a
  | Some (t, e) =>
      (exists p, In p ps /\ settles_at p = t /\ settlement p = inl e) /\
      (forall q e', In q ps -> settlement q = inl e' -> t <= settles_at q)
  end.
Proof.
  induction ps as [|p ps IH]; [intros p []|].
  cbn [first_rejection].
  destruct (settlement p) as [e|a] eqn:Hp.
  - destruct (first_rejection ps) as [[t e']|].
    + destruct IH as [(p0 & Hin & Ht & He) Hmin].
      destruct (Nat.leb_spec (settles_at p) t) as [L|L].
      * split; [exists p; simpl; auto|].
        intros q e0 [<-|Hq] Hq'; [lia|]. specialize (Hmin q e0 Hq Hq'). lia.
      * split; [exists p0; simpl; auto|].
        intros q e0 [<-|Hq] Hq'; [lia|]. exact (Hmin q e0 Hq Hq').
    + split; [exists p; simpl; auto|].
      intros q e0 [<-|Hq] Hq'; [lia|].
      destruct (IH q Hq) as [a Ha]. congruence.
  - destruct (first_rejection ps) as [[t e']|].
    + destruct IH as [(p0 & Hin & Ht & He) Hmin].
      split; [exists p0; simpl; auto|].
      intros q e0 [<-|Hq] Hq'; [congruence|]. exact (Hmin q e0 Hq Hq').
    + intros q [<-|Hq]; [now exists a|]. exact (IH q Hq).
Qed.

Lemma all_fulfilled {A} (ps : list (Promise A)) (l : list A) :
  map (@settlement A) ps = map inr l ->
  first_rejection ps = None /\ fulfilled ps = l.
Proof.
  revert l. induction ps as [|p ps IH]; intros [|a l]; try discriminate.
  - auto.
  - cbn [map first_rejection fulfilled]. intros [= Hp Hl].
    destruct (IH l Hl) as [-> ->]. rewrite Hp. auto.
Qed.

Lemma none_fulfilled {A} e (n : nat) :
  @first_rejection A (repeat {| settles_at := 0; settlement := inl e |} (Datatypes.S n))
  = Some (0, e).
Proof.
  induction n as [|n IH]; [reflexivity|].
  change (repeat ?p (Datatypes.S (Datatypes.S n)))
    with (p :: repeat p (Datatypes.S n)).
  cbn [first_rejection settlement settles_at]. rewrite IH. reflexivity.
Qed.

Lemma map_constant {A B} (b : B) (l : list A) :
  map (fun _ => b) l = repeat b (length l).
Proof. induction l as [|x l IH]; simpl; [reflexivity|now rewrite IH]. Qed.

Lemma getAvailability_dated dateFrom dateTo selected
    (st st1 : State S) calendars h startDate endDate :
  listCalendars st = (inr calendars, st1) ->
  cache st1 = Some h ->
  DateTime_Parse dateFrom = inr startDate ->
  DateTime_Parse dateTo = inr endDate ->
  let view := {| StartDate := startDate; EndDate := endDate |} in
  let chosen := filter (is_selected selected) calendars in
  let promises := map (busy_promise h view (server (world st1))) chosen in
  getAvailability dateFrom dateTo selected st =
  (match first_rejection promises with
   | Some (_, e) => inl e
   | None => inr (concat (fulfilled promises))
   end,
   sent_all (map (fun c => CallFindAppointments h (externalId c) view) chosen) st1).
Proof.
  intros HL Hc Hs He view chosen promises.
  unfold getAvailability. rewrite (@bind_resolves _ _ _ _ _ _ _ HL).
  unfold bind at 1. fold chosen.
  rewrite (@start_each_dated dateFrom dateTo h startDate endDate chosen st1 Hc Hs He).
  fold view. fold promises.
  unfold bind, Promise_all.
  destruct (first_rejection promises) as [[t e]|]; reflexivity.
Qed.

Lemma getAvailability_undated dateFrom dateTo selected
    (st st1 : State S) calendars e :
  listCalendars st = (inr calendars, st1) ->
  DateTime_Parse dateFrom = inl e \/
  (exists startDate,
      DateTime_Parse dateFrom = inr startDate /\ DateTime_Parse dateTo = inl e) ->
  getAvailability dateFrom dateTo selected st =
  (match filter (is_selected selected) calendars with
   | [] => inr []
   | _ :: _ => inl e
   end, st1).
Proof.
  intros HL Hu.
  destruct (@triple_listCalendars st I) as [_ Q].
  rewrite HL in Q. destruct (Q calendars eq_refl) as [h Hc].
  unfold getAvailability. rewrite (@bind_resolves _ _ _ _ _ _ _ HL).
  unfold bind at 1.
  rewrite (@start_each_undated dateFrom dateTo h e _ st1 Hc Hu).
  unfold bind, Promise_all. rewrite map_constant.
  destruct (filter (is_selected selected) calendars) as [|c chosen]; [reflexivity|].
  cbn [length]. rewrite none_fulfilled. reflexivity.
Qed.

Lemma listCalendars_resolved (st st1 : State S) calendars :
  listCalendars st = (inr calendars, st1) -> exists h, cache st1 = Some h.
Proof.
  intros H.
  destruct (@triple_listCalendars st I) as [_ Q].
  rewrite H in Q. exact (Q calendars eq_refl).
Qed.

(** C1.  Let [listCalendars] have returned [calendars], and call chosen
    those of them whose external id is the external id of some selected
    calendar.  With [dateFrom] and [dateTo] dates that [DateTime.Parse]
    reads, whatever the appointment queries on the chosen calendars answer
    for that range, [getAvailability] returns the concatenation, in the
    order of the chosen calendars, of the start/end pairs of the answered
    appointments whose free/busy status is not free: every entry comes from
    a non-free appointment of a chosen calendar, and every such appointment
    has its entry.  With nothing selected the result is the empty list,
    whatever the dates. *)
Theorem getAvailability_concatenates_non_free
    (dateFrom dateTo : string) (selected : list IntegrationCalendar)
    (st st1 : State S) (calendars : list IntegrationCalendar) :
  listCalendars st = (inr calendars, st1) ->
  let chosen :=
    filter (fun lcal =>
              existsb (fun rcal => externalId lcal =? externalId rcal) selected)
           calendars in
  fst (getAvailability dateFrom dateTo [] st) = inr [] /\
  exists h, _exchangeService (this st1) = Some h /\
  forall (startDate endDate : DateTime) (results : string -> list Appointment),
    DateTime_Parse dateFrom = inr startDate ->
    DateTime_Parse dateTo = inr endDate ->
    let view := {| StartDate := startDate; EndDate := endDate |} in
    (forall c, In c chosen ->
       FindAppointments h (externalId c) view (server (world st1))
         = inr (results (externalId c))) ->
    let busy :=
      concat (map (fun c =>
                     map (fun a =>
                            {| start := Date_new (DateTime_ToISOString (Start a));
                               end_ := Date_new (DateTime_ToISOString (End_ a)) |})
                         (filter (fun a =>
                                    negb (LegacyFreeBusyStatus_eqb (FreeBusyStatus a) Free))
                                 (results (externalId c))))
                  chosen) in
    fst (getAvailability dateFrom dateTo selected st) = inr busy /\
    (forall b, In b busy ->
       exists c a, In c chosen /\ In a (results (externalId c)) /\
                   FreeBusyStatus a <> Free /\ b = busy_of a) /\
    (forall c a, In c chosen -> In a (results (externalId c)) ->
                 FreeBusyStatus a <> Free -> In (busy_of a) busy).
Proof.
  intros HL chosen.
  destruct (@listCalendars_resolved _ _ _ HL) as [h Hc].
  assert (Hfree : forall a, not_free a = true <-> FreeBusyStatus a <> Free).
  { intros a. unfold not_free. destruct (FreeBusyStatus a); simpl;
      split; congruence. }
  assert (Hnone : filter (is_selected []) calendars = []).
  { clear. induction calendars as [|c l IH]; [reflexivity|exact IH]. }
  split.
  { destruct (DateTime_Parse dateFrom) as [e|startDate] eqn:Hs.
    - rewrite (@getAvailability_undated dateFrom dateTo [] st st1 calendars e HL
                 (or_introl Hs)).
      now rewrite Hnone.
    - destruct (DateTime_Parse dateTo) as [e|endDate] eqn:He.
      + rewrite (@getAvailability_undated dateFrom dateTo [] st st1 calendars e HL).
        * now rewrite Hnone.
        * right. exists startDate. auto.
      + rewrite (@getAvailability_dated dateFrom dateTo [] st st1 calendars h
                   startDate endDate HL Hc Hs He).
        cbv zeta. now rewrite Hnone. }
  exists h. split; [exact Hc|].
  intros startDate endDate results Hs He view Hr busy.
  split; [|split].
  - rewrite (@getAvailability_dated dateFrom dateTo selected st st1 calendars h
               startDate endDate HL Hc Hs He).
    cbv zeta. fold view. unfold is_selected. fold chosen. cbn [fst].
    destruct (@all_fulfilled _
                (map (busy_promise h view (server (world st1))) chosen)
                (map (fun c => map busy_of (filter not_free (results (externalId c))))
                     chosen)) as [-> ->]; [|reflexivity].
    rewrite !map_map. apply map_ext_in. intros c Hin.
    unfold busy_promise, busy_answer. cbn [settlement].
    now rewrite (Hr c Hin).
  - intros b Hb. unfold busy in Hb. apply in_concat in Hb.
    destruct Hb as (l & Hl & Hb). apply in_map_iff in Hl.
    destruct Hl as (c & <- & Hcin). apply in_map_iff in Hb.
    destruct Hb as (a & <- & Ha). apply filter_In in Ha. destruct Ha as [Ha Hnf].
    exists c, a. repeat split; auto. now apply Hfree.
  - intros c a Hcin Ha Hnf. unfold busy. apply in_concat.
    eexists. split.
    + apply in_map_iff. exists c. split; [reflexivity|exact Hcin].
    + apply in_map_iff. exists a. split; [reflexivity|].
      apply filter_In. split; [exact Ha|]. now apply Hfree.
Qed.

(** ** The cached handle *)

Lemma getExchangeService_keeps_tag (st st1 : State S) r :
  getExchangeService st = (r, st1) ->
  integrationName (this st1) = integrationName (this st).
Proof.
  intros H. pose proof (@triple_getExchangeService st I) as [E _].
  rewrite H in E. exact (ev_name E).
Qed.

(** An operation that acquires the handle goes on exactly as if it had
    found that handle in the cache. *)
Lemma perform_after_acquisition (o : Operation) (st st1 : State S) h :
  getExchangeService st = (inr h, st1) ->
  perform o st = perform o st1.
Proof.
  intros H.
  destruct (@getExchangeService_resolved _ _ _ H) as [Hc _].
  pose proof (@getExchangeService_cached st1 h Hc) as H1.
  assert (HL : listCalendars st = listCalendars st1).
  { rewrite !listCalendars_eq, H, H1.
    now rewrite (@getExchangeService_keeps_tag _ _ _ H). }
  destruct o as [event|u event|u| |dateFrom dateTo selected]; simpl.
  - unfold createEvent.
    now rewrite (@bind_resolves _ _ _ _ _ _ _ H), (@bind_resolves _ _ _ _ _ _ _ H1).
  - unfold updateEvent.
    now rewrite (@bind_resolves _ _ _ _ _ _ _ H), (@bind_resolves _ _ _ _ _ _ _ H1).
  - unfold deleteEvent.
    now rewrite (@bind_resolves _ _ _ _ _ _ _ H), (@bind_resolves _ _ _ _ _ _ _ H1).
  - now rewrite HL.
  - unfold getAvailability, bind. now rewrite HL.
Qed.

(** What one operation does to an empty cache. *)
Lemma perform_from_empty_cache (o : Operation) (st : State S) :
  cache st = None ->
  sound_setup (payload (this st)) ->
  (cache (snd (perform o st)) = None /\
   constructed (world (snd (perform o st))) = constructed (world st)) \/
  (cache (snd (perform o st)) <> None /\
   constructed (world (snd (perform o st))) = Datatypes.S (constructed (world st))).
Proof.
  intros Hc Hs.
  destruct (getExchangeService st) as [[e|h] st1] eqn:HG.
  - left. rewrite (@perform_rejects_with_acquisition o _ _ _ HG). cbn [snd].
    revert HG. rewrite getExchangeService_eq, Hc. cbv zeta.
    destruct (negb _); [intros [= _ <-]; auto|].
    destruct (construction_failure _) as [[e' []]|] eqn:Hf.
    + now elim (Hs e').
    + intros [= _ <-]; auto.
    + discriminate.
  - right. rewrite (@perform_after_acquisition o _ _ _ HG).
    destruct (@getExchangeService_resolved _ _ _ HG) as [Hc1 _].
    destruct (ev_cached (perform_evolves o st1) Hc1) as (Hc2 & Hn & _).
    split; [congruence|]. rewrite Hn.
    revert HG. rewrite getExchangeService_eq, Hc. cbv zeta.
    destruct (negb _); [discriminate|].
    destruct (construction_failure _) as [[e' []]|]; try discriminate.
    intros [= _ <-]. reflexivity.
Qed.

Lemma constructions_bounded (ops : list Operation) (st : State S) :
  sound_setup (payload (this st)) ->
  constructed (world (perform_all ops st))
    <= constructed (world st)
       + match cache st with Some _ => 0 | None => 1 end.
Proof.
  revert st. induction ops as [|o ops IH]; intros st Hs.
  - simpl. lia.
  - change (perform_all (o :: ops) st)
      with (perform_all ops (snd (perform o st))).
    assert (Hs' : sound_setup (payload (this (snd (perform o st))))).
    { now rewrite (ev_payload (perform_evolves o st)). }
    specialize (IH _ Hs').
    destruct (cache st) as [h|] eqn:Hc.
    + destruct (ev_cached (perform_evolves o st) Hc) as (Hc' & Hn & _).
      rewrite Hc' in IH. lia.
    + destruct (perform_from_empty_cache o st Hc Hs) as [[Hc' Hn]|[Hc' Hn]].
      * rewrite Hc' in IH. lia.
      * destruct (cache (snd (perform o st))); [lia|congruence].
Qed.

(** C5.  Handle acquisition on an adapter that has a cached handle returns
    that handle and changes nothing.  Hence, in a sequence of public
    operations without [cleanup], once some operation has left a handle in
    the cache, every later operation leaves the same handle there, no
    further [ExchangeService] is constructed, and every request sent from
    then on goes through that handle; so the handles cached at any two
    points of the sequence are the same object.  Where the set-up cannot
    throw after the object has been made, the whole sequence constructs at
    most one [ExchangeService] (an attempt that does throw there has made
    an object that is dropped, never cached). *)
Theorem handle_is_constructed_once :
  (forall (st : State S) h,
      cache st = Some h -> getExchangeService st = (inr h, st)) /\
  (forall (earlier later : list Operation) (st : State S) h,
      cache (perform_all earlier st) = Some h ->
      cache (perform_all (earlier ++ later) st) = Some h /\
      constructed (world (perform_all (earlier ++ later) st))
        = constructed (world (perform_all earlier st)) /\
      exists sent,
        calls (world (perform_all (earlier ++ later) st))
          = (calls (world (perform_all earlier st)) ++ sent)%list /\
        Forall (fun c => call_handle c = h) sent) /\
  (forall (earlier later : list Operation) (st : State S) h1 h2,
      cache (perform_all earlier st) = Some h1 ->
      cache (perform_all (earlier ++ later) st) = Some h2 ->
      h1 = h2) /\
  (forall (ops : list Operation) (st : State S),
      sound_setup (payload (this st)) ->
      constructed (world (perform_all ops st)) <= constructed (world st) + 1).
Proof.
  split; [exact getExchangeService_cached|].
  assert (K : forall (earlier later : list Operation) (st : State S) h,
      cache (perform_all earlier st) = Some h ->
      cache (perform_all (earlier ++ later) st) = Some h /\
      constructed (world (perform_all (earlier ++ later) st))
        = constructed (world (perform_all earlier st)) /\
      exists sent,
        calls (world (perform_all (earlier ++ later) st))
          = (calls (world (perform_all earlier st)) ++ sent)%list /\
        Forall (fun c => call_handle c = h) sent).
  { intros earlier later st h H. rewrite perform_all_app.
    exact (ev_cached (perform_all_evolves later (perform_all earlier st)) H). }
  split; [exact K|]. split.
  - intros earlier later st h1 h2 H1 H2.
    destruct (K earlier later st h1 H1) as [H _]. congruence.
  - intros ops st Hs. pose proof (constructions_bounded ops st Hs) as B.
    destruct (cache st); lia.
Qed.

End AdapterFacts.

(* ===================================================================== *)
(** * The properties on the in-memory mailbox                             *)
(* ===================================================================== *)

Section OnTheMailbox.
Import CalendarService InMemory.

Lemma acquire_on_good_payload :
  getExchangeService (initial good_payload) = (inr handle0, connected0).
Proof. vm_compute. reflexivity. Qed.

Lemma constructor_rejects_bad_credentials_witness :
  new_ExchangeCalendarService (Some "secret")
    {| key := Some "enc:{half" |}
  = inl (JsError "Invalid or corrupted Exchange credentials") /\
  new_ExchangeCalendarService None
    {| key := Some "enc:good" |}
  = inl CredentialError.
Proof.
  split.
  - destruct (@constructor_rejects_bad_credentials _ mailbox (Some "secret")
                {| key := Some "enc:{half" |}) as (H1 & _ & _).
    destruct H1 as (H & _); [|exact H].
    right. exists "{half", (JsError "Unexpected token in JSON").
    split; vm_compute; reflexivity.
  - destruct (@constructor_rejects_bad_credentials _ mailbox None
                {| key := Some "enc:good" |}) as (_ & H2 & _).
    apply H2. exists (JsError "Invalid key length"). vm_compute. reflexivity.
Defined.

(** The message the specification quotes for the credential error is not
    the one the constructor throws. *)
Lemma quoted_credential_message_is_not_thrown :
  symmetricDecrypt "{half" "secret" = inl (JsError "bad decrypt") /\
  new_ExchangeCalendarService (Some "secret") {| key := Some "{half" |}
    = inl (JsError "Invalid or corrupted Exchange credentials") /\
  new_ExchangeCalendarService (Some "secret") {| key := Some "{half" |}
    <> inl CredentialError_as_specified.
Proof.
  split; [vm_compute; reflexivity|]. split; [vm_compute; reflexivity|].
  vm_compute. discriminate.
Qed.

Lemma missing_config_fails_before_any_request_witness :
  perform DoListCalendars
    (initial no_password_payload)
  = (Rejected
       (JsError "Missing required Exchange configuration parameters"),
     initial no_password_payload).
Proof.
  apply (@missing_config_fails_before_any_request _ mailbox
           DoListCalendars
           (initial no_password_payload)).
  - reflexivity.
  - right. right. reflexivity.
Defined.

(** The message the specification quotes for the configuration error is
    not the one the operations are rejected with. *)
Lemma quoted_config_message_is_not_thrown :
  opt_prop no_password_payload "password" = JStr EmptyString /\
  perform DoListCalendars (initial no_password_payload)
    = (Rejected (JsError "Missing required Exchange configuration parameters"),
       initial no_password_payload) /\
  fst (perform DoListCalendars (initial no_password_payload))
    <> Rejected ConfigError_as_specified.
Proof.
  split; [vm_compute; reflexivity|]. split; [vm_compute; reflexivity|].
  vm_compute. discriminate.
Qed.

Lemma non_ntlm_payload_gets_basic_handle_witness :
  fst (getExchangeService (initial odd_payload))
  = inr {| objectId := 0;
           RequestedServerVersion := JNum 99;
           Credentials :=
             Some {| UserName := JStr "a@b.com";
                     Password := JStr "p" |};
           Url := Some (JStr "https://mail.x.com/ews/Exchange.asmx");
           XHRApi := None |}.
Proof.
  apply (@non_ntlm_payload_gets_basic_handle _ mailbox
           (initial odd_payload)); reflexivity.
Defined.

(** The validator would have refused both enum values of that payload. *)
Example validate_refuses_odd_enums :
  Validation.errors
    (Validation.validate Validation.simple_URL_parse
       (Validation.mkConfig "https://mail.x.com/ews/Exchange.asmx" "a@b.com" "p"
          (Some 7%Z) (Some 99%Z)))
  = [Validation.msg_auth_invalid; Validation.msg_version_invalid].
Proof. vm_compute. reflexivity. Qed.

Lemma handle_is_constructed_once_witness :
  let ops := [DoCreateEvent meeting;
              DoGetAvailability "2024-01-01T00:00:00Z" "2024-01-02T00:00:00Z"
                (selection ["cal1"; "cal2"]);
              DoDeleteEvent "AAMk"] in
  let final := perform_all
                 ([DoListCalendars] ++ ops)
                 (initial good_payload) in
  _exchangeService (this final)
    = Some handle0 /\
  constructed (world final) = 1.
Proof.
  intros ops final.
  destruct (proj1 (proj2 (@handle_is_constructed_once _ mailbox))
              [DoListCalendars] ops
              (initial good_payload) handle0)
    as (Hc & Hn & _).
  - vm_compute. reflexivity.
  - split; [exact Hc|exact Hn].
Defined.

Lemma createEvent_builds_appointment_and_returns_uid_witness :
  fst (createEvent meeting
         (initial good_payload))
  = inr {| uid := "AAMk"; id := "AAMk";
           password := EmptyString;
           type := EmptyString;
           url := EmptyString;
           additionalInfo := [] |} /\
  calls
    (world
       (snd (createEvent meeting
               (initial good_payload))))
  = [CallSave handle0
       {| Id := None;
          Subject := "Sync";
          Start := hour 10;
          End_ := hour 11;
          Location := EmptyString;
          Body := "Weekly";
          RequiredAttendees :=
            ["a@x.com"; "b@x.com"; "b@x.com"; "c@x.com"];
          FreeBusyStatus := Busy |}
       SendToAllAndSaveCopy] /\
  createEvent undated_meeting (initial good_payload) = (inl invalid_date, connected0).
Proof.
  destruct (@createEvent_builds_appointment_and_returns_uid _ mailbox
              meeting _ _ _ acquire_on_good_payload) as [Hdated _].
  destruct (@createEvent_builds_appointment_and_returns_uid _ mailbox
              undated_meeting _ _ _ acquire_on_good_payload) as [_ Hundated].
  assert (Hs : DateTime_Parse (startTime meeting) = inr (hour 10))
    by (vm_compute; reflexivity).
  assert (He : DateTime_Parse (endTime meeting) = inr (hour 11))
    by (vm_compute; reflexivity).
  rewrite (Hdated _ _ Hs He).
  split; [vm_compute; reflexivity|]. split; [vm_compute; reflexivity|].
  apply Hundated. right. exists (hour 10). split; vm_compute; reflexivity.
Defined.



Lemma listCalendars_drops_deleted_and_maps_witness :
  fst (listCalendars (initial good_payload))
  = inr [ {| externalId := "cal1";
             name := "Calendar";
             primary := true;
             integration := "exchange_calendar" |};
          {| externalId := "cal2";
             name := EmptyString;
             primary := false;
             integration := "exchange_calendar" |} ].
Proof.
  apply (@listCalendars_drops_deleted_and_maps _ mailbox
           (initial good_payload) connected0
           handle0
           (trash box) (folders box)).
  - exact acquire_on_good_payload.
  - reflexivity.
  - reflexivity.
Defined.

Lemma getAvailability_concatenates_non_free_witness :
  fst (getAvailability "2024-01-01T00:00:00Z" "2024-01-02T00:00:00Z"
         (selection ["cal1"; "cal2"; "old"])
         (initial good_payload))
  = inr [ {| start := hour 1; end_ := hour 2 |};
          {| start := hour 5; end_ := hour 6 |};
          {| start := hour 7; end_ := hour 8 |} ] /\
  fst (getAvailability "2024-01-01T00:00:00Z" "2024-01-02T00:00:00Z" []
         (initial good_payload)) = inr [].
Proof.
  destruct (@getAvailability_concatenates_non_free _ mailbox
              "2024-01-01T00:00:00Z" "2024-01-02T00:00:00Z"
              (selection ["cal1"; "cal2"; "old"]) (initial good_payload)
              (listed handle0 connected0)
              [ {| externalId := "cal1"; name := "Calendar"; primary := true;
                   integration := "exchange_calendar" |};
                {| externalId := "cal2"; name := EmptyString; primary := false;
                   integration := "exchange_calendar" |} ])
    as (Hempty & h & Hc & Hbusy).
  - vm_compute. reflexivity.
  - split; [|exact Hempty].
    injection Hc as <-.
    destruct (Hbusy (hour 0) 20240102000000%Z
                (fun folder => lookup folder (agenda box))) as (H & _).
    + vm_compute. reflexivity.
    + vm_compute. reflexivity.
    + intros c _. reflexivity.
    + rewrite H. vm_compute. reflexivity.
Defined.

(** On this mailbox the NTLM set-up always throws: each operation makes an
    [ExchangeService], fails, and caches nothing. *)
Example failing_setup_constructs_anew :
  let final := perform_all [DoListCalendars; DoListCalendars] (initial ntlm_payload) in
  _exchangeService (this final) = None /\
  constructed (world final) = 2 /\
  calls (world final) = [] /\
  fst (perform DoListCalendars (initial ntlm_payload))
    = Rejected (JsError msg_ntlm_openssl).
Proof. vm_compute. repeat split. Qed.

(** After [cleanup] the next operation builds a new handle. *)
Example cleanup_then_fresh_handle :
  let st := cleanup (snd (listCalendars (initial good_payload))) in
  _exchangeService (this st) = None /\
  option_map objectId (_exchangeService (this (snd (listCalendars st)))) = Some 1 /\
  constructed (world (snd (listCalendars st))) = 2.
Proof. vm_compute. repeat split. Qed.

(** The [catch] block of handle acquisition on a few messages. *)
Example classify_examples :
  classify (JsError "Request failed with status code 401") = JsError msg_auth_failed /\
  classify (JsError "connect ECONNREFUSED 10.0.0.1:443") = JsError msg_cannot_connect /\
  classify (JsError "self signed certificate") = JsError msg_tls /\
  classify (JsError "error:0308010C:digital envelope routines::unsupported")
    = JsError msg_openssl /\
  classify (JsError msg_ntlm_openssl) = JsError msg_ntlm_openssl /\
  classify (JsError (msg_ntlm_failed "401 Unauthorized"))
    = JsError (msg_ntlm_failed "401 Unauthorized") /\
  classify (JsError "boom") = JsError "boom" /\
  classify (JsNonError JNull) = JsNonError JNull.
Proof. vm_compute. repeat split. Qed.

End OnTheMailbox.

(* ===================================================================== *)
(** * Further properties: strings                                         *)
(* ===================================================================== *)

Lemma includes_unfold (s sub : string) :
  includes s sub =
  starts_with s sub ||
  match s with
  | EmptyString => false
  | String _ s' => includes s' sub
  end.
Proof. destruct s; reflexivity. Qed.

Lemma starts_with_app (p s : string) : starts_with (p ++ s) p = true.
Proof.
  induction p as [|c p IH]; [destruct s; reflexivity|].
  simpl. now rewrite Ascii.eqb_refl, IH.
Qed.

Lemma includes_prefix (p s : string) : includes (p ++ s) p = true.
Proof. rewrite includes_unfold, starts_with_app. reflexivity. Qed.


(* ===================================================================== *)
(** * Further properties of the calendar service adapter                  *)
(* ===================================================================== *)

Section MoreAdapterFacts.
Import Enums CalendarService.
Context {S : Type} {collab : Collaborators S}.

Local Abbreviation cache st := (_exchangeService (this st)).

(** ** Handle acquisition *)

Lemma getExchangeService_world (st st1 : State S) r :
  getExchangeService st = (r, st1) ->
  server (world st1) = server (world st) /\
  calls (world st1) = calls (world st) /\
  payload (this st1) = payload (this st) /\
  integrationName (this st1) = integrationName (this st).
Proof.
  rewrite getExchangeService_eq.
  destruct (cache st) as [h|]; [intros [= _ <-]; auto|].
  cbv zeta. destruct (negb _); [intros [= _ <-]; auto|].
  destruct (construction_failure _) as [[e []]|]; intros [= _ <-]; auto.
Qed.

Lemma getExchangeService_rejected (st st1 : State S) e :
  getExchangeService st = (inl e, st1) ->
  cache st = None /\ cache st1 = None.
Proof.
  rewrite getExchangeService_eq.
  destruct (cache st) as [h|] eqn:Hc; [discriminate|].
  cbv zeta. destruct (negb _); [intros [= _ <-]; auto|].
  destruct (construction_failure _) as [[e' []]|]; try discriminate;
    intros [= _ <-]; auto.
Qed.

(** When handle acquisition rejects, whatever the reason, the operation
    rejects with the same value, and it has sent no request: the requests
    and the server are as before, and no handle is cached. *)
Theorem no_request_without_handle (o : Operation) (st st1 : State S) e :
  getExchangeService st = (inl e, st1) ->
  perform o st = (Rejected e, st1) /\
  calls (world st1) = calls (world st) /\
  server (world st1) = server (world st) /\
  _exchangeService (this st1) = None.
Proof.
  intros H.
  destruct (@getExchangeService_world _ _ _ H) as (Hs & Hc & _).
  destruct (@getExchangeService_rejected _ _ _ H) as [_ Hn].
  split; [exact (@perform_rejects_with_acquisition _ _ o _ _ _ H)|auto].
Qed.

Lemma classify_ntlm_failure (e : JsThrown) :
  classify (ntlm_failure e) = ntlm_failure e.
Proof.
  assert (K : forall m, classify (JsError (msg_ntlm_failed m))
                        = JsError (msg_ntlm_failed m)).
  { intros m. unfold classify.
    assert (P : includes (msg_ntlm_failed m) "NTLM authentication failed" = true).
    { change (msg_ntlm_failed m)
        with ("NTLM authentication failed"
              ++ (": " ++ m ++ ". Consider using Basic authentication instead.")).
      apply includes_prefix. }
    rewrite P, !orb_true_r. reflexivity. }
  destruct e as [m|v]; simpl.
  - destruct (includes m _); [vm_compute; reflexivity|apply K].
  - reflexivity.
Qed.

(** With url, username and password present and the authentication method
    [NTLM], when the library constructors throw nothing but the NTLM
    set-up throws [e], handle acquisition rejects with one of the two NTLM
    messages: the OpenSSL advice when [e] is an [Error] whose message
    mentions the unsupported digital envelope routines, and otherwise
    "NTLM authentication failed: <detail>. Consider using Basic
    authentication instead.", whatever the detail says.  The outer [catch]
    leaves it as it is, the object made is dropped and nothing is cached. *)
Theorem ntlm_failure_is_reported_as_such (st : State S) (e : JsThrown) :
  let p := payload (this st) in
  cache st = None ->
  required_present p = true ->
  strict_eq_num (opt_prop p "authenticationMethod") NTLM = true ->
  ExchangeService_new (opt_prop p "exchangeVersion") = None ->
  WebCredentials_new (opt_prop p "username") (opt_prop p "password") = None ->
  Uri_new (opt_prop p "url") = None ->
  useNtlmAuthentication (opt_prop p "username") (opt_prop p "password") = Some e ->
  getExchangeService st =
    (inl (match e with
          | JsError m =>
              if includes m "digital envelope routines::unsupported"
              then JsError msg_ntlm_openssl
              else JsError ("NTLM authentication failed: " ++ m
                            ++ ". Consider using Basic authentication instead.")
          | JsNonError _ =>
              JsError ("NTLM authentication failed: " ++ "Unknown error"
                       ++ ". Consider using Basic authentication instead.")
          end),
     with_world count_construction st).
Proof.
  intros p Hc Hr Ha H1 H2 H3 H4.
  rewrite getExchangeService_eq, Hc. cbv zeta. fold p. rewrite Hr. cbn [negb].
  unfold construction_failure. fold p. rewrite H1, H2, H3, Ha, H4.
  rewrite classify_ntlm_failure. reflexivity.
Qed.

(** With url, username and password present and the authentication method
    the number [NTLM], when neither the library constructors nor the NTLM
    set-up throw, handle acquisition returns and caches a handle that
    carries the payload's version, the username/password credentials, the
    url, and an NTLM transport for the same username and password with
    certificate checking off and a 30000 ms timeout. *)
Theorem ntlm_payload_gets_ntlm_transport (st : State S) :
  let p := payload (this st) in
  let handle :=
    {| objectId := constructed (world st);
       RequestedServerVersion := opt_prop p "exchangeVersion";
       Credentials := Some {| UserName := opt_prop p "username";
                              Password := opt_prop p "password" |};
       Url := Some (opt_prop p "url");
       XHRApi := Some {| rejectUnauthorized := false; timeout := 30000;
                         ntlmUser := opt_prop p "username";
                         ntlmPassword := opt_prop p "password" |} |} in
  cache st = None ->
  required_present p = true ->
  strict_eq_num (opt_prop p "authenticationMethod") NTLM = true ->
  ExchangeService_new (opt_prop p "exchangeVersion") = None ->
  WebCredentials_new (opt_prop p "username") (opt_prop p "password") = None ->
  Uri_new (opt_prop p "url") = None ->
  useNtlmAuthentication (opt_prop p "username") (opt_prop p "password") = None ->
  getExchangeService st =
    (inr handle, set_exchangeService (Some handle) (with_world count_construction st)).
Proof.
  intros p handle Hc Hr Ha H1 H2 H3 H4.
  rewrite getExchangeService_eq, Hc. cbv zeta. fold p. rewrite Hr. cbn [negb].
  unfold construction_failure, handle_for. fold p.
  rewrite H1, H2, H3, Ha, H4. reflexivity.
Qed.

(** The outer [catch] of handle acquisition throws either the value it
    caught or one of four fixed messages, never touches a value that is not
    an [Error], and classifying what it threw changes nothing more. *)
Theorem classify_settles (error : JsThrown) :
  (classify error = error \/
   In (classify error)
      [JsError msg_auth_failed; JsError msg_cannot_connect; JsError msg_tls;
       JsError msg_openssl]) /\
  (forall v, classify (JsNonError v) = JsNonError v) /\
  classify (classify error) = classify error.
Proof.
  split; [|split; [reflexivity|]].
  - destruct error as [m|v]; [|left; reflexivity]. unfold classify.
    destruct (_ || _ || _); [left; reflexivity|].
    destruct (_ || _); [right; simpl; auto|].
    destruct (_ || _ || _); [right; simpl; auto|].
    destruct (_ || _ || _); [right; simpl; auto|].
    destruct (includes m _); [right; simpl; auto|left; reflexivity].
  - destruct error as [m|v]; [|reflexivity]. unfold classify at 2 3.
    destruct (includes m "NODE_OPTIONS" || includes m "Missing required"
              || includes m "NTLM authentication failed") eqn:E1.
    { unfold classify. now rewrite E1. }
    destruct (includes m "401" || includes m "Unauthorized") eqn:E2;
      [vm_compute; reflexivity|].
    destruct (includes m "timeout" || includes m "ECONNREFUSED"
              || includes m "ENOTFOUND") eqn:E3; [vm_compute; reflexivity|].
    destruct (includes m "certificate" || includes m "SSL" || includes m "TLS") eqn:E4;
      [vm_compute; reflexivity|].
    destruct (includes m "digital envelope routines::unsupported") eqn:E5;
      [vm_compute; reflexivity|].
    unfold classify. now rewrite E1, E2, E3, E4, E5.
Qed.

(** ** updateEvent and deleteEvent on an item the server has *)

(** Once the handle is acquired and the look-up of [uid] has answered
    [bound], and [DateTime.Parse] has read the event's start and end times,
    [updateEvent] sends one update (always overwrite; send to the changed
    recipients and save a copy) of the bound item with the event's title,
    parsed times, location and description (or empty), and with the event's
    attendee and team-member addresses appended to the attendees the bound
    item already had.  When the update resolves the result carries the
    bound item's identifier as [uid] and [id]; when it rejects,
    [updateEvent] rejects with the same value.  When the start or the end
    time is no date, [updateEvent] is rejected with what [DateTime.Parse]
    throws, after the look-up and without sending an update. *)
Theorem updateEvent_overwrites_and_appends
    (uid : string) (event : CalendarEvent) (st st1 : State S)
    (service : ExchangeService) (bound : Appointment) :
  getExchangeService st = (inr service, st1) ->
  Appointment_Bind service uid (server (world st1)) = inr bound ->
  (forall startDate endDate,
      DateTime_Parse (startTime event) = inr startDate ->
      DateTime_Parse (endTime event) = inr endDate ->
      let appointment :=
        {| Id := Id bound;
           Subject := title event;
           Start := startDate;
           End_ := endDate;
           Location := match location event with Some l => l | None => EmptyString end;
           Body := match description event with Some d => d | None => EmptyString end;
           RequiredAttendees :=
             (RequiredAttendees bound ++ map email (attendees event)
              ++ match team event with
                 | Some t => map email (members t)
                 | None => []
                 end)%list;
           FreeBusyStatus := FreeBusyStatus bound |} in
      let request :=
        CallUpdate service appointment AlwaysOverwrite SendToChangedAndSaveCopy in
      updateEvent uid event st =
        match Appointment_Update service appointment AlwaysOverwrite
                SendToChangedAndSaveCopy (server (world st1)) with
        | (None, s') =>
            (match Id bound with
             | Some unique =>
                 inr {| uid := unique; id := unique; password := EmptyString;
                        type := EmptyString; url := EmptyString; additionalInfo := [] |}
             | None => inl (JsError msg_null_id)
             end,
             with_world (fun w => set_server s' (record_call request w))
               (with_world (record_call (CallBind service uid)) st1))
        | (Some reason, s') =>
            (inl reason,
             with_world (fun w => set_server s' (record_call request w))
               (with_world (record_call (CallBind service uid)) st1))
        end) /\
  (forall e,
      DateTime_Parse (startTime event) = inl e \/
      (exists startDate,
          DateTime_Parse (startTime event) = inr startDate /\
          DateTime_Parse (endTime event) = inl e) ->
      updateEvent uid event st
        = (inl e, with_world (record_call (CallBind service uid)) st1)).
Proof.
  intros HG HB. split.
  - intros startDate endDate Hs He appointment request.
    unfold updateEvent. erewrite bind_resolves by exact HG.
    unfold bind at 1, Bind, remote_query. rewrite HB.
    unfold bind at 1. rewrite fill_eq, Hs, He.
    rewrite log_and_rethrow_id. fold appointment.
    unfold Update, bind, remote_command, lift_ctor. fold request.
    cbn [server world with_world record_call].
    destruct (Appointment_Update _ _ _ _ _) as [[reason|] s']; cbn [throw ret].
    + reflexivity.
    + cbn [Id appointment]. destruct (Id bound); reflexivity.
  - intros e Hu.
    unfold updateEvent. erewrite bind_resolves by exact HG.
    unfold bind at 1, Bind, remote_query. rewrite HB.
    apply bind_rejects. now apply fill_undated.
Qed.

(** Once the handle is acquired and the look-up of [uid] has answered
    [bound], [deleteEvent] sends one deletion of that item with the
    move-to-deleted-items mode, and resolves or rejects as the deletion
    does. *)
Theorem deleteEvent_moves_to_deleted_items
    (uid : string) (st st1 : State S)
    (service : ExchangeService) (bound : Appointment) :
  getExchangeService st = (inr service, st1) ->
  Appointment_Bind service uid (server (world st1)) = inr bound ->
  deleteEvent uid st =
    match Appointment_Delete service bound MoveToDeletedItems
            (server (world st1)) with
    | (reason, s') =>
        (match reason with Some e => inl e | None => inr tt end,
         with_world
           (fun w => set_server s'
                       (record_call (CallDelete service bound MoveToDeletedItems) w))
           (with_world (record_call (CallBind service uid)) st1))
    end.
Proof.
  intros HG HB.
  unfold deleteEvent. erewrite bind_resolves by exact HG.
  unfold bind at 1, Bind, remote_query. rewrite HB.
  rewrite log_and_rethrow_id.
  unfold Delete, bind, remote_command, lift_ctor.
  cbn [server world with_world record_call].
  destruct (Appointment_Delete _ _ _ _) as [[reason|] s']; reflexivity.
Qed.

(** ** cleanup *)

Lemma cleanup_eq (st : State S) :
  cleanup st = set_exchangeService None st \/ cleanup st = st /\ cache st = None.
Proof.
  unfold cleanup. destruct (cache st) eqn:E; [left; reflexivity|right; auto].
Qed.

Lemma cleanup_facts (st : State S) :
  cache (cleanup st) = None /\
  world (cleanup st) = world st /\
  payload (this (cleanup st)) = payload (this st) /\
  integrationName (this (cleanup st)) = integrationName (this st).
Proof.
  unfold cleanup. destruct (cache st) eqn:E; simpl; auto.
Qed.

(** What one operation can do to an empty cache. *)
Lemma perform_fills_empty_cache (o : Operation) (st : State S) h :
  cache st = None ->
  cache (snd (perform o st)) = Some h ->
  h = handle_for (payload (this st)) (constructed (world st)) /\
  constructed (world (snd (perform o st))) = Datatypes.S (constructed (world st)).
Proof.
  intros Hc Hh.
  destruct (getExchangeService st) as [[e|h0] st1] eqn:HG.
  - erewrite perform_rejects_with_acquisition in Hh by exact HG.
    apply getExchangeService_rejected in HG. destruct HG as [_ Hn].
    cbn [snd] in Hh. congruence.
  - erewrite perform_after_acquisition in Hh by exact HG.
    erewrite perform_after_acquisition by exact HG.
    pose proof HG as T. apply getExchangeService_resolved in T.
    destruct T as [Hc1 _].
    destruct (ev_cached (perform_evolves o st1) Hc1) as (Hc2 & Hn & _).
    rewrite Hn. rewrite Hc2 in Hh. injection Hh as <-.
    revert HG. rewrite getExchangeService_eq, Hc. cbv zeta.
    destruct (negb _); [discriminate|].
    destruct (construction_failure _) as [[e' []]|]; try discriminate.
    intros [= <- <-]. split; reflexivity.
Qed.

(** [cleanup] empties the cache and touches nothing else, and doing it
    twice is doing it once.  If the handle [h] it dropped had been counted
    when it was made, the next operation cannot bring [h] back: a handle
    cached after that operation is another object, built from the payload
    by exactly one new construction. *)
Theorem cleanup_forces_a_fresh_handle (o : Operation) (st : State S) :
  _exchangeService (this (cleanup st)) = None /\
  world (cleanup st) = world st /\
  payload (this (cleanup st)) = payload (this st) /\
  cleanup (cleanup st) = cleanup st /\
  (forall h h',
      _exchangeService (this st) = Some h ->
      objectId h < constructed (world st) ->
      _exchangeService (this (snd (perform o (cleanup st)))) = Some h' ->
      h' <> h /\
      h' = handle_for (payload (this st)) (constructed (world st)) /\
      constructed (world (snd (perform o (cleanup st))))
        = Datatypes.S (constructed (world st))).
Proof.
  destruct (cleanup_facts st) as (Hc & Hw & Hp & _).
  split; [exact Hc|]. split; [exact Hw|]. split; [exact Hp|].
  split; [unfold cleanup at 1; now rewrite Hc|].
  intros h h' Hh Hcount Hh'.
  destruct (perform_fills_empty_cache o (cleanup st) Hc Hh') as [E N].
  rewrite Hw in N. rewrite Hw, Hp in E.
  split; [|split; [exact E|exact N]].
  intros ->. rewrite E in Hcount. simpl in Hcount. lia.
Qed.

(** ** The states an adapter goes through *)

Lemma perform_keeps_well_formed (o : Operation) (st : State S) :
  well_formed st -> well_formed (snd (perform o st)).
Proof.
  intros W h Hh.
  pose proof (perform_evolves o st) as E.
  destruct (cache st) as [h0|] eqn:Hc.
  - destruct (ev_cached E Hc) as (Hc' & Hn & _).
    rewrite Hc' in Hh. injection Hh as <-.
    rewrite (ev_payload E), Hn. exact (W h0 Hc).
  - destruct (perform_fills_empty_cache o st Hc Hh) as [-> Hn].
    rewrite (ev_payload E), Hn. simpl. split; [reflexivity|lia].
Qed.

Lemma constructor_leaves_no_handle (env_key : option string)
    (credential : CredentialPayload) (adapter : ExchangeCalendarService) :
  new_ExchangeCalendarService env_key credential = inr adapter ->
  _exchangeService adapter = None.
Proof.
  unfold new_ExchangeCalendarService, constructor_body.
  destruct (symmetricDecrypt _ _) as [e|plain]; [discriminate|].
  destruct (JSON_parse plain) as [e|v]; [discriminate|].
  now intros [= <-].
Qed.

(** In every state that an adapter made by the constructor reaches through
    public operations and [cleanup], in any order and whether they succeed
    or not, the tag is ["exchange_calendar"], the payload is the one parsed
    at construction, and a cached handle is the handle built from that
    payload and has been counted among the constructed ones. *)
Theorem adapter_invariant (env_key : option string) (credential : CredentialPayload)
    (adapter : ExchangeCalendarService) (st : State S) :
  new_ExchangeCalendarService env_key credential = inr adapter ->
  Reachable adapter st ->
  integrationName (this st) = "exchange_calendar" /\
  payload (this st) = payload adapter /\
  (forall h, _exchangeService (this st) = Some h ->
     h = handle_for (payload adapter) (objectId h) /\
     objectId h < constructed (world st)).
Proof.
  intros Hnew R.
  assert (I : integrationName (this st) = integrationName adapter /\
              payload (this st) = payload adapter /\ well_formed st).
  { induction R as [w|o st R IH|st R IH].
    - split; [reflexivity|split; [reflexivity|]].
      intros h Hh. simpl in Hh.
      apply constructor_leaves_no_handle in Hnew. congruence.
    - destruct IH as (In & Ip & W).
      pose proof (perform_evolves o st) as E.
      rewrite (ev_name E), (ev_payload E).
      split; [exact In|split; [exact Ip|]].
      now apply perform_keeps_well_formed.
    - destruct IH as (In & Ip & W).
      destruct (cleanup_facts st) as (Hc & _ & Hp & Hn).
      rewrite Hn, Hp.
      split; [exact In|split; [exact Ip|]].
      intros h Hh. congruence. }
  destruct I as (In & Ip & W).
  apply constructor_sets_tag in Hnew.
  split; [congruence|split; [exact Ip|]].
  intros h Hh. destruct (W h Hh) as [E L].
  split; [now rewrite <- Ip|exact L].
Qed.

(** ** listCalendars and getAvailability: requests and rejections *)

(** After [listCalendars] has returned: with dates that [DateTime.Parse]
    reads, [getAvailability] sends exactly one appointment query per chosen
    calendar, in order, through the cached handle and for the parsed range,
    whether or not some of them reject, and nothing else; it rejects as
    soon as one query rejects, with the rejection that comes first in time
    (the one of a rejected query that no other rejected query answered
    before), and it resolves only when every query has resolved.  With a
    date that is no date no query is sent at all: [getAvailability] is
    rejected with what [DateTime.Parse] throws, unless no calendar is
    chosen, when it returns the empty list. *)
Theorem getAvailability_asks_every_chosen_calendar
    (dateFrom dateTo : string) (selected : list IntegrationCalendar)
    (st st1 : State S) (calendars : list IntegrationCalendar) :
  listCalendars st = (inr calendars, st1) ->
  let chosen :=
    filter (fun lcal =>
              existsb (fun rcal => externalId lcal =? externalId rcal) selected)
           calendars in
  let result := fst (getAvailability dateFrom dateTo selected st) in
  let final := snd (getAvailability dateFrom dateTo selected st) in
  exists h, _exchangeService (this st1) = Some h /\
  (forall startDate endDate,
      DateTime_Parse dateFrom = inr startDate ->
      DateTime_Parse dateTo = inr endDate ->
      let view := {| StartDate := startDate; EndDate := endDate |} in
      let answer c := FindAppointments h (externalId c) view (server (world st1)) in
      let latency c :=
        FindAppointments_latency h (externalId c) view (server (world st1)) in
      calls (world final)
        = (calls (world st1)
           ++ map (fun c => CallFindAppointments h (externalId c) view) chosen)%list /\
      server (world final) = server (world st1) /\
      (forall c e, In c chosen -> answer c = inl e -> exists e', result = inl e') /\
      (forall e, result = inl e ->
         exists c, In c chosen /\ answer c = inl e /\
                   forall c' e', In c' chosen -> answer c' = inl e' ->
                                 latency c <= latency c') /\
      (forall busy, result = inr busy ->
         forall c, In c chosen -> exists items, answer c = inr items)) /\
  (forall e,
      DateTime_Parse dateFrom = inl e \/
      (exists startDate,
          DateTime_Parse dateFrom = inr startDate /\ DateTime_Parse dateTo = inl e) ->
      final = st1 /\
      result = match chosen with [] => inr [] | _ :: _ => inl e end).
Proof.
  intros HL chosen result final.
  pose proof HL as T. apply listCalendars_resolved in T. destruct T as [h Hc].
  exists h. split; [exact Hc|]. split.
  - intros startDate endDate Hs He view answer latency.
    unfold result, final.
    rewrite (@getAvailability_dated _ _ dateFrom dateTo selected st st1 calendars h
               startDate endDate HL Hc Hs He).
    cbv zeta. fold view. unfold is_selected. fold chosen. cbn [fst snd].
    set (queries := map (fun c => CallFindAppointments h (externalId c) view) chosen).
    set (promises := map (busy_promise h view (server (world st1))) chosen).
    destruct (sent_all_facts queries st1) as (H1 & H2 & _).
    split; [exact H1|]. split; [exact H2|].
    assert (Hrej : forall c e, answer c = inl e ->
                     settlement (busy_promise h view (server (world st1)) c) = inl e).
    { intros c e H. unfold busy_promise, busy_answer. cbn [settlement].
      fold (answer c). now rewrite H. }
    assert (Hres : forall c a,
                     settlement (busy_promise h view (server (world st1)) c) = inr a ->
                     exists items, answer c = inr items).
    { intros c a. unfold busy_promise, busy_answer. cbn [settlement].
      fold (answer c). destruct (answer c) as [e|items]; [discriminate|].
      now exists items. }
    assert (Hinl : forall c e,
                     settlement (busy_promise h view (server (world st1)) c) = inl e ->
                     answer c = inl e).
    { intros c e. unfold busy_promise, busy_answer. cbn [settlement].
      fold (answer c). destruct (answer c) as [e'|items]; [|discriminate].
      now intros [= ->]. }
    pose proof (first_rejection_spec promises) as Spec.
    destruct (first_rejection promises) as [[t e]|].
    + destruct Spec as [(p & Hin & Ht & Hp) Hmin].
      apply in_map_iff in Hin. destruct Hin as (c & <- & Hcin).
      split; [intros; now exists e|]. split; [|discriminate].
      intros e0 [= <-]. exists c. split; [exact Hcin|]. split; [now apply Hinl|].
      intros c' e' Hc' Ha'.
      assert (L : t <= settles_at (busy_promise h view (server (world st1)) c')).
      { apply (Hmin _ e'); [apply in_map; exact Hc'|now apply Hrej]. }
      unfold busy_promise in Ht, L. cbn [settles_at] in Ht, L.
      fold (latency c) in Ht. fold (latency c') in L. lia.
    + split; [|split; [discriminate|]].
      * intros c e Hcin Ha.
        destruct (Spec (busy_promise h view (server (world st1)) c)) as [a Hs'].
        -- apply in_map. exact Hcin.
        -- rewrite (Hrej c e Ha) in Hs'. discriminate.
      * intros busy _ c Hcin.
        destruct (Spec (busy_promise h view (server (world st1)) c)) as [a Hs'].
        -- apply in_map. exact Hcin.
        -- exact (Hres c a Hs').
  - intros e Hu. unfold result, final.
    rewrite (@getAvailability_undated _ _ dateFrom dateTo selected st st1 calendars e
               HL Hu).
    split; reflexivity.
Qed.

(** When the look-up of the deleted-items folder rejects, [listCalendars]
    rejects with the same value and the folder search is never sent; when
    the folder search rejects, [listCalendars] rejects with that value. *)
Theorem listCalendars_stops_at_the_first_rejection
    (st st1 : State S) (service : ExchangeService) :
  getExchangeService st = (inr service, st1) ->
  (forall e,
      Folder_Bind service DeletedItems (server (world st1)) = inl e ->
      listCalendars st = (inl e, with_world (record_call (CallFolderBind service DeletedItems)) st1) /\
      calls (world (snd (listCalendars st)))
        = (calls (world st1) ++ [CallFolderBind service DeletedItems])%list) /\
  (forall deleted e,
      Folder_Bind service DeletedItems (server (world st1)) = inr deleted ->
      FindFolders service MsgFolderRoot calendar_filter calendar_view
        (server (world st1)) = inl e ->
      listCalendars st = (inl e, listed service st1)).
Proof.
  intros HG. split.
  - intros e HB. rewrite listCalendars_eq, HG, HB. split; reflexivity.
  - intros deleted e HB HF. rewrite listCalendars_eq, HG, HB, HF. reflexivity.
Qed.

Lemma listCalendars_only_looks_up (st : State S) :
  server (world (snd (listCalendars st))) = server (world st) /\
  exists sent,
    calls (world (snd (listCalendars st))) = (calls (world st) ++ sent)%list /\
    forallb is_lookup sent = true.
Proof.
  rewrite listCalendars_eq.
  destruct (getExchangeService st) as [[e|service] st1] eqn:HG;
    apply getExchangeService_world in HG; destruct HG as (Hs & Hc & _).
  - cbn [snd]. split; [exact Hs|]. exists []. now rewrite app_nil_r, Hc.
  - destruct (Folder_Bind _ _ _) as [e|deleted].
    + cbn. split; [exact Hs|]. eexists [_]. rewrite Hc. split; reflexivity.
    + destruct (FindFolders _ _ _ _ _) as [e|found]; cbn;
        (split; [exact Hs|]); eexists [_; _]; rewrite Hc, <- app_assoc;
        split; reflexivity.
Qed.

(** [listCalendars] and [getAvailability] only read: in every state,
    whether they resolve or reject, the server is left as it was and every
    request they send is a look-up (a folder look-up, a folder search or
    an appointment query), never a save, an update or a deletion. *)
Theorem availability_and_listing_only_read
    (dateFrom dateTo : string) (selected : list IntegrationCalendar)
    (st : State S) :
  (server (world (snd (listCalendars st))) = server (world st) /\
   exists sent,
     calls (world (snd (listCalendars st))) = (calls (world st) ++ sent)%list /\
     forallb is_lookup sent = true) /\
  (server (world (snd (getAvailability dateFrom dateTo selected st)))
     = server (world st) /\
   exists sent,
     calls (world (snd (getAvailability dateFrom dateTo selected st)))
       = (calls (world st) ++ sent)%list /\
     forallb is_lookup sent = true).
Proof.
  pose proof (listCalendars_only_looks_up st) as L.
  split; [exact L|].
  destruct L as (Ls & sentL & Lc & Ll).
  destruct (listCalendars st) as [[e|calendars] st1] eqn:HL; cbn [snd] in *.
  - assert (E : getAvailability dateFrom dateTo selected st = (inl e, st1))
      by (apply bind_rejects; exact HL).
    rewrite E. cbn [snd]. split; [exact Ls|]. now exists sentL.
  - pose proof HL as T. apply listCalendars_resolved in T. destruct T as [h Hc].
    assert (Hundated : forall e,
              DateTime_Parse dateFrom = inl e \/
              (exists startDate,
                  DateTime_Parse dateFrom = inr startDate /\
                  DateTime_Parse dateTo = inl e) ->
              server (world (snd (getAvailability dateFrom dateTo selected st)))
                = server (world st) /\
              exists sent,
                calls (world (snd (getAvailability dateFrom dateTo selected st)))
                  = (calls (world st) ++ sent)%list /\
                forallb is_lookup sent = true).
    { intros e Hu.
      rewrite (@getAvailability_undated _ _ dateFrom dateTo selected st st1 calendars e
                 HL Hu).
      cbn [snd]. split; [exact Ls|]. now exists sentL. }
    destruct (DateTime_Parse dateFrom) as [e|startDate] eqn:Hs;
      [apply (Hundated e); now left|].
    destruct (DateTime_Parse dateTo) as [e|endDate] eqn:He;
      [apply (Hundated e); right; exists startDate; auto|].
    rewrite (@getAvailability_dated _ _ dateFrom dateTo selected st st1 calendars h
               startDate endDate HL Hc Hs He).
    cbv zeta. cbn [snd].
    set (queries := map _ (filter (is_selected selected) calendars)).
    destruct (sent_all_facts queries st1) as (H1 & H2 & _).
    rewrite H1, H2. split; [exact Ls|].
    exists (sentL ++ queries)%list. rewrite Lc, <- app_assoc. split; [reflexivity|].
    rewrite forallb_app, Ll. simpl.
    unfold queries. clear. induction (filter _ calendars); simpl; auto.
Qed.

End MoreAdapterFacts.

(* ===================================================================== *)
(** * Further properties of the configuration validator                   *)
(* ===================================================================== *)

(** [isValidEmail] accepts exactly the strings of the form
    [local @ domain . tld] whose three parts are non-empty and free of
    white space and of the at sign.  So an accepted string holds exactly
    one at sign and no white space. *)
Theorem isValidEmail_shape (address : string) :
  (Validation.isValidEmail address = true <->
   exists local domain tld,
     address = local ++ "@" ++ domain ++ "." ++ tld /\
     address_part local /\ address_part domain /\ address_part tld) /\
  (Validation.isValidEmail address = true ->
   count_char "@"%char address = 1 /\
   all_chars (fun c => negb (is_space c)) address = true).
Proof.
  pose proof (isValidEmail_shape_iff address) as Shape.
  split; [exact Shape|].
  intros H. apply Shape in H.
  destruct H as (a & b & c & -> & [_ Ha] & [_ Hb] & [_ Hc]).
  apply plain_has_no_at in Ha, Hb, Hc.
  destruct Ha as [A1 A2], Hb as [B1 B2], Hc as [C1 C2].
  rewrite !count_char_app, !all_chars_app, A1, A2, B1, B2, C1, C2.
  split; reflexivity.
Qed.

Section MoreValidatorFacts.
Import Enums Validation.
Variable URL_parse : string -> option URL.

Lemma valid_means_rules_hold (config : ExchangeConfig) :
  isValid (validate URL_parse config) = true ->
  rule_url URL_parse config = true /\ rule_username config = true /\
  rule_password config = true /\ rule_auth config = true /\
  rule_version config = true.
Proof.
  change (isValid (validate URL_parse config))
    with (length (errors (validate URL_parse config)) =? 0)%nat.
  rewrite validate_errors. unfold verdict.
  destruct (rule_url URL_parse config), (rule_username config),
    (rule_password config), (rule_auth config), (rule_version config);
    simpl; intros H; try discriminate; auto.
Qed.

(** [validate] never reports "Password cannot be empty": a password that
    is absent or empty is reported as "Password is required", and any other
    password raises no password error. *)
Theorem validate_empty_password_is_required (config : ExchangeConfig) :
  ~ In msg_password_empty (errors (validate URL_parse config)) /\
  (In msg_password_required (errors (validate URL_parse config)) <->
   password config = None \/ password config = Some EmptyString).
Proof.
  rewrite validate_errors. unfold verdict.
  assert (P : rule_password config = false <->
              password config = None \/ password config = Some EmptyString).
  { unfold rule_password. destruct (password config) as [[|c p]|]; simpl.
    - split; auto.
    - split; [discriminate|]. intros [H|H]; discriminate.
    - split; auto. }
  rewrite <- P.
  destruct (rule_url URL_parse config), (rule_username config),
    (rule_password config), (rule_auth config), (rule_version config),
    (truthy_str (url config)), (truthy_str (username config));
    simpl; split; try (intuition discriminate);
    split; intros; try reflexivity; try discriminate; simpl; auto 10.
Qed.

(** A config that [validate] accepts never makes [getSuggestions] throw,
    and never gets the advice to move from HTTP to HTTPS. *)
Theorem valid_config_gets_suggestions (config : ExchangeConfig) :
  isValid (validate URL_parse config) = true ->
  exists l, getSuggestions URL_parse config = inr l /\ ~ In sugg_https l.
Proof.
  intros H. apply valid_means_rules_hold in H. destruct H as (Hu & _).
  unfold rule_url in Hu. unfold getSuggestions, truthy_str, or_empty.
  destruct (url config) as [u|]; [|discriminate].
  destruct (u =? EmptyString); [discriminate|]. cbn [negb andb] in Hu |- *.
  destruct (URL_parse u) as [o|]; [|discriminate].
  apply andb_true_iff in Hu. destruct Hu as [Hp _].
  apply String.eqb_eq in Hp. rewrite Hp. cbn [String.eqb Ascii.eqb Bool.eqb].
  eexists. split; [reflexivity|].
  unfold push.
  destruct (negb _), (authenticationMethod config) as [m|],
    (exchangeVersion config) as [v|];
    try destruct (m =? NTLM)%Z; try destruct (negb (v =? 0)%Z && _);
    simpl; intuition discriminate.
Qed.

(** [getSuggestions] throws exactly when the url is non-empty and
    [new URL] cannot parse it, and then it throws what [new URL] throws;
    in every other case it returns a list. *)
Theorem getSuggestions_throws_only_on_bad_url (config : ExchangeConfig) :
  (forall e, getSuggestions URL_parse config = inl e ->
     e = invalid_url_error /\
     exists u, url config = Some u /\ u <> EmptyString /\ URL_parse u = None) /\
  (forall u, url config = Some u -> u <> EmptyString -> URL_parse u = None ->
     getSuggestions URL_parse config = inl invalid_url_error) /\
  ((url config = None \/ url config = Some EmptyString \/
    exists u o, url config = Some u /\ URL_parse u = Some o) ->
   exists l, getSuggestions URL_parse config = inr l).
Proof.
  unfold getSuggestions, truthy_str, or_empty.
  destruct (url config) as [u|].
  - destruct (String.eqb_spec u EmptyString) as [->|Hne]; cbn [negb].
    + split; [discriminate|]. split; [intros u [= <-] H; now elim H|].
      intros _. eexists. reflexivity.
    + destruct (URL_parse u) as [o|] eqn:Hp.
      * split; [discriminate|]. split; [intros u' [= <-] _ H; congruence|].
        intros _. eexists. reflexivity.
      * split; [intros e [= <-]; split; [reflexivity|now exists u]|].
        split; [reflexivity|].
        intros [H|[H|(u' & o & [= <-] & H)]]; congruence.
  - split; [discriminate|]. split; [discriminate|].
    intros _. eexists. reflexivity.
Qed.

Lemma lower_char_eqb (a b : ascii) :
  Ascii.eqb a b = true -> Ascii.eqb (lower_char a) (lower_char b) = true.
Proof. intros H. apply Ascii.eqb_eq in H. subst. apply Ascii.eqb_refl. Qed.

Lemma starts_with_toLowerCase (s t : string) :
  starts_with s t = true -> starts_with (toLowerCase s) (toLowerCase t) = true.
Proof.
  revert s. induction t as [|b t IH]; intros s; [destruct s; reflexivity|].
  destruct s as [|a s]; simpl; [discriminate|].
  intros H. apply andb_true_iff in H. destruct H as [H1 H2].
  now rewrite (lower_char_eqb _ _ H1), (IH _ H2).
Qed.

Lemma includes_toLowerCase (s t : string) :
  includes s t = true -> includes (toLowerCase s) (toLowerCase t) = true.
Proof.
  induction s as [|a s IH];
    rewrite (includes_unfold _ t), (includes_unfold _ (toLowerCase t)).
  - cbn [toLowerCase]. rewrite !orb_false_r. apply starts_with_toLowerCase.
  - intros H. apply orb_true_iff in H. destruct H as [H|H].
    + now rewrite (starts_with_toLowerCase _ _ H).
    + cbn [toLowerCase]. rewrite (IH H). apply orb_true_r.
Qed.

(** [isValidEwsUrl] accepts only what [new URL] parses with the protocol
    ["https:"], and it reads the path without regard to letter case: an
    https url whose path holds any spelling of [/ews/], [/exchange.asmx] or
    [/microsoft-server-activesync] is accepted. *)
Theorem isValidEwsUrl_ignores_case (u : string) :
  (isValidEwsUrl URL_parse u = true ->
   exists o, URL_parse u = Some o /\ protocol o = "https:") /\
  (forall o spelling,
      URL_parse u = Some o -> protocol o = "https:" ->
      includes (pathname o) spelling = true ->
      In (toLowerCase spelling)
         ["/ews/"; "/exchange.asmx"; "/microsoft-server-activesync"] ->
      isValidEwsUrl URL_parse u = true).
Proof.
  rewrite isValidEwsUrl_spec. split.
  - destruct (URL_parse u) as [o|]; [|discriminate].
    intros H. apply andb_true_iff in H. destruct H as [H _].
    apply String.eqb_eq in H. now exists o.
  - intros o spelling -> Hp Hi Hin.
    rewrite Hp. cbn [String.eqb Ascii.eqb Bool.eqb andb].
    apply includes_toLowerCase in Hi.
    apply existsb_exists. exists (toLowerCase spelling). auto.
Qed.

(** What each piece of advice of [getSuggestions] means, when it returns:
    the HTTPS advice is there exactly for an ["http:"] url, the path advice
    exactly for a url whose lower-cased path lacks [/ews/], the NTLM advice
    exactly for the method [NTLM], and the upgrade advice exactly for a
    version that is not 0 and below [Exchange2013]. *)
Theorem getSuggestions_contents (config : ExchangeConfig) (l : list string) :
  getSuggestions URL_parse config = inr l ->
  (In sugg_https l <->
   exists u o, url config = Some u /\ u <> EmptyString /\
               URL_parse u = Some o /\ protocol o = "http:") /\
  (In sugg_ews_path l <->
   exists u o, url config = Some u /\ u <> EmptyString /\
               URL_parse u = Some o /\
               includes (toLowerCase (pathname o)) "/ews/" = false) /\
  (In sugg_ntlm l <-> authenticationMethod config = Some NTLM) /\
  (In sugg_upgrade l <->
   exists v, exchangeVersion config = Some v /\ v <> 0%Z /\ (v < Exchange2013)%Z).
Proof.
  unfold getSuggestions, truthy_str, or_empty, push.
  assert (A : forall b : bool,
    (if b then ([] ++ [sugg_https])%list else []) = if b then [sugg_https] else [])
    by (intros []; reflexivity).
  assert (HN : forall m, (m =? NTLM)%Z = true <-> Some m = Some NTLM).
  { intros m. rewrite Z.eqb_eq. split; [congruence|intros [= ->]; reflexivity]. }
  assert (HV : forall v, negb (v =? 0)%Z && (v <? Exchange2013)%Z = true <->
                 exists v', Some v = Some v' /\ v' <> 0%Z /\ (v' < Exchange2013)%Z).
  { intros v. rewrite andb_true_iff, negb_true_iff, Z.eqb_neq, Z.ltb_lt. split.
    - intros [H1 H2]. now exists v.
    - intros (v' & [= <-] & H1 & H2). auto. }
  assert (NoneV : ~ exists v : Z, None = Some v /\ v <> 0%Z /\ (v < Exchange2013)%Z)
    by (intros (v & E & _); discriminate).
  destruct (url config) as [u|].
  - destruct (String.eqb_spec u EmptyString) as [->|Hne]; cbn [negb].
    + destruct (authenticationMethod config) as [m|],
        (exchangeVersion config) as [v|];
        try (pose proof (HN m) as HNm; destruct (m =? NTLM)%Z);
        try (pose proof (HV v) as HVv; destruct (negb (v =? 0)%Z && _));
      intros [= <-]; simpl;
      (split; [split; [intuition discriminate|
                       intros (u & o & [= <-] & K & _); now elim K]|]);
      (split; [split; [intuition discriminate|
                       intros (u & o & [= <-] & K & _); now elim K]|]);
      split; split; try tauto; try (intuition discriminate);
        try (intros _; apply HNm; reflexivity);
        try (intros _; apply HVv; reflexivity);
        try (intros K; apply HNm in K; discriminate);
        try (intros K; apply HVv in K; discriminate).
    + destruct (URL_parse u) as [o|] eqn:Hp; [|discriminate].
      destruct (String.eqb_spec (protocol o) "http:") as [Hh|Hh];
      destruct (includes (toLowerCase (pathname o)) "/ews/") eqn:Hi;
      destruct (authenticationMethod config) as [m|],
        (exchangeVersion config) as [v|];
        try (pose proof (HN m) as HNm; destruct (m =? NTLM)%Z);
        try (pose proof (HV v) as HVv; destruct (negb (v =? 0)%Z && _));
      intros [= <-]; simpl;
      (split; [split; [try (intuition discriminate); intros _; exists u, o; auto|
                       try (intros (u' & o' & [= <-] & _ & K1 & K2); congruence); auto]|]);
      (split; [split; [try (intuition discriminate); intros _; exists u, o; auto|
                       try (intros (u' & o' & [= <-] & _ & K1 & K2); congruence); auto]|]);
      split; split; try tauto; try (intuition discriminate);
        try (intros _; apply HNm; reflexivity);
        try (intros _; apply HVv; reflexivity);
        try (intros K; apply HNm in K; discriminate);
        try (intros K; apply HVv in K; discriminate).
  - destruct (authenticationMethod config) as [m|],
      (exchangeVersion config) as [v|];
      try (pose proof (HN m) as HNm; destruct (m =? NTLM)%Z);
      try (pose proof (HV v) as HVv; destruct (negb (v =? 0)%Z && _));
    intros [= <-]; simpl;
    (split; [split; [intuition discriminate|
                     intros (u & o & K & _); discriminate]|]);
    (split; [split; [intuition discriminate|
                     intros (u & o & K & _); discriminate]|]);
    split; split; try tauto; try (intuition discriminate);
      try (intros _; apply HNm; reflexivity);
      try (intros _; apply HVv; reflexivity);
      try (intros K; apply HNm in K; discriminate);
      try (intros K; apply HVv in K; discriminate).
Qed.

End MoreValidatorFacts.

(* ===================================================================== *)
(** * Properties of the revision without the handle cache                 *)
(* ===================================================================== *)

Section LegacyFacts.
Import Enums CalendarService.
Context {S : Type} {collab : Collaborators S}.

Lemma legacy_prop_of_object (props : list (string * JsValue)) (k : string) :
  Legacy.prop (JObj props) k = inr (opt_prop (JObj props) k).
Proof. reflexivity. Qed.

Lemma legacy_getExchangeService_eq (st : Legacy.State) props :
  Legacy.payload (Legacy.this st) = JObj props ->
  let p := JObj props in
  let n := Legacy.constructed st in
  Legacy.getExchangeService st =
  match ExchangeService_new (opt_prop p "exchangeVersion") with
  | Some e => (inl (Legacy.classify e), st)
  | None =>
      match WebCredentials_new (opt_prop p "username") (opt_prop p "password") with
      | Some e => (inl (Legacy.classify e), Legacy.counted st)
      | None =>
          match Uri_new (opt_prop p "url") with
          | Some e => (inl (Legacy.classify e), Legacy.counted st)
          | None =>
              if strict_eq_num (opt_prop p "authenticationMethod") NTLM then
                match useNtlmAuthentication (opt_prop p "username")
                                            (opt_prop p "password") with
                | Some _ => (inr (Legacy.handle_of p n false), Legacy.with_provider (Legacy.counted st))
                | None => (inr (Legacy.handle_of p n true), Legacy.with_provider (Legacy.counted st))
                end
              else (inr (Legacy.handle_of p n false), Legacy.counted st)
          end
      end
  end.
Proof.
  intros Hp p n.
  unfold Legacy.getExchangeService, Legacy.getExchangeService_try, Legacy.try_catch.
  rewrite Hp. fold p.
  unfold Legacy.bind, Legacy.lift, Legacy.new_ExchangeService,
    Legacy.new_WebCredentials, Legacy.new_Uri, Legacy.new_NtlmXhrApi,
    Legacy.thrown, Legacy.ret, Legacy.throw, Legacy.try_catch,
    Legacy.update_NODE_OPTIONS, Legacy.bind.
  unfold p at 1. rewrite !legacy_prop_of_object. fold p.
  destruct (ExchangeService_new _) as [e1|]; [reflexivity|].
  cbn [Legacy.prop p]. fold p.
  destruct (WebCredentials_new _ _) as [e2|]; [reflexivity|].
  destruct (Uri_new _) as [e3|]; [reflexivity|].
  destruct (strict_eq_num _ NTLM); [|reflexivity].
  destruct (useNtlmAuthentication _ _) as [e4|]; reflexivity.
Qed.

(** In this revision, for an object payload with the authentication method
    [NTLM] and library constructors that throw nothing, handle acquisition
    always resolves, whether or not the NTLM set-up throws: when it throws,
    the error is swallowed and the handle returned carries the
    username/password credentials and no NTLM transport.  Either way one
    object has been constructed and [NODE_OPTIONS] has been updated. *)
Theorem legacy_ntlm_failure_falls_back (st : Legacy.State) props :
  Legacy.payload (Legacy.this st) = JObj props ->
  let p := JObj props in
  strict_eq_num (opt_prop p "authenticationMethod") NTLM = true ->
  ExchangeService_new (opt_prop p "exchangeVersion") = None ->
  WebCredentials_new (opt_prop p "username") (opt_prop p "password") = None ->
  Uri_new (opt_prop p "url") = None ->
  Legacy.getExchangeService st =
    (inr {| objectId := Legacy.constructed st;
            RequestedServerVersion := opt_prop p "exchangeVersion";
            Credentials := Some {| UserName := opt_prop p "username";
                                   Password := opt_prop p "password" |};
            Url := Some (opt_prop p "url");
            XHRApi :=
              match useNtlmAuthentication (opt_prop p "username")
                                          (opt_prop p "password") with
              | Some _ => None
              | None => Some {| rejectUnauthorized := false; timeout := 30000;
                                ntlmUser := opt_prop p "username";
                                ntlmPassword := opt_prop p "password" |}
              end |},
     {| Legacy.this := Legacy.this st;
        Legacy.NODE_OPTIONS := Legacy.set_legacy_provider (Legacy.NODE_OPTIONS st);
        Legacy.constructed := Datatypes.S (Legacy.constructed st) |}).
Proof.
  intros Hp p Ha H1 H2 H3.
  rewrite (legacy_getExchangeService_eq st Hp). fold p.
  rewrite H1, H2, H3, Ha.
  destruct (useNtlmAuthentication _ _); reflexivity.
Qed.






End LegacyFacts.

(* ===================================================================== *)
(** * Properties of the handler's answers                                 *)
(* ===================================================================== *)

Section PostAddFacts.
Import CalendarService.

Lemma classify_range (error : JsThrown) :
  classify error = error \/
  classify error = JsError msg_auth_failed \/
  classify error = JsError msg_cannot_connect \/
  classify error = JsError msg_tls \/
  classify error = JsError msg_openssl.
Proof.
  destruct error as [m|v]; [|left; reflexivity]. unfold classify.
  destruct (_ || _ || _); [left; reflexivity|].
  destruct (_ || _); [auto|].
  destruct (_ || _ || _); [auto|].
  destruct (_ || _ || _); [auto|].
  destruct (includes m _); auto.
Qed.

(** How the request handler answers the errors that the adapter words
    itself.  An error that handle acquisition has re-worded is answered
    with the 401 authentication answer when it was re-worded to the
    authentication message, with the SSL/TLS certificate answer when it was
    re-worded to the certificate message or to the OpenSSL message, and
    with the generic answer when it was re-worded to the connection
    message; so it never gets the handler's own connection answer or
    OpenSSL answer.  The missing-configuration error gets the generic
    answer, and the NTLM OpenSSL advice gets the SSL/TLS certificate
    answer. *)
Theorem handler_answers_reworded_errors (error : JsThrown) :
  (classify error <> error ->
   (classify error = JsError msg_auth_failed /\
    PostAdd.failure_response (PostAdd.reason_of (classify error))
      = {| PostAdd.status := 401; PostAdd.text := PostAdd.msg_auth |}) \/
   ((classify error = JsError msg_tls \/ classify error = JsError msg_openssl) /\
    PostAdd.failure_response (PostAdd.reason_of (classify error))
      = {| PostAdd.status := 500; PostAdd.text := PostAdd.msg_tls |}) \/
   (classify error = JsError msg_cannot_connect /\
    PostAdd.failure_response (PostAdd.reason_of (classify error))
      = {| PostAdd.status := 500; PostAdd.text := PostAdd.msg_generic |})) /\
  PostAdd.failure_response (PostAdd.reason_of ConfigError)
    = {| PostAdd.status := 500; PostAdd.text := PostAdd.msg_generic |} /\
  PostAdd.failure_response (PostAdd.reason_of (JsError msg_ntlm_openssl))
    = {| PostAdd.status := 500; PostAdd.text := PostAdd.msg_tls |}.
Proof.
  split; [|split; vm_compute; reflexivity].
  intros Hne.
  destruct (classify_range error) as [E|[E|[E|[E|E]]]]; [contradiction| | | |].
  - left. split; [exact E|]. rewrite E. vm_compute. reflexivity.
  - right. right. split; [exact E|]. rewrite E. vm_compute. reflexivity.
  - right. left. split; [auto|]. rewrite E. vm_compute. reflexivity.
  - right. left. split; [auto|]. rewrite E. vm_compute. reflexivity.
Qed.

End PostAddFacts.

(* ===================================================================== *)
(** * The further properties on concrete inputs                           *)
(* ===================================================================== *)

Section MoreOnTheMailbox.
Import CalendarService InMemory.

Lemma acquire_on_created :
  getExchangeService Faulty.created = (inr handle0, Faulty.created).
Proof. vm_compute. reflexivity. Qed.

Lemma updateEvent_overwrites_and_appends_witness :
  fst (updateEvent "AAMk" meeting Faulty.created) = inr (result_for "AAMk") /\
  map RequiredAttendees
      (items (server (world (snd (updateEvent "AAMk" meeting Faulty.created)))))
  = [["a@x.com"; "b@x.com"; "b@x.com"; "c@x.com";
      "a@x.com"; "b@x.com"; "b@x.com"; "c@x.com"]] /\
  updateEvent "AAMk" undated_meeting Faulty.created
  = (inl invalid_date,
     with_world (record_call (CallBind handle0 "AAMk")) Faulty.created).
Proof.
  destruct (@updateEvent_overwrites_and_appends _ mailbox "AAMk" meeting
              Faulty.created Faulty.created handle0 Faulty.saved_item
              acquire_on_created eq_refl) as [Hdated _].
  destruct (@updateEvent_overwrites_and_appends _ mailbox "AAMk" undated_meeting
              Faulty.created Faulty.created handle0 Faulty.saved_item
              acquire_on_created eq_refl) as [_ Hundated].
  assert (Hs : DateTime_Parse (startTime meeting) = inr (hour 10))
    by (vm_compute; reflexivity).
  assert (He : DateTime_Parse (endTime meeting) = inr (hour 11))
    by (vm_compute; reflexivity).
  rewrite (Hdated _ _ Hs He).
  split; [vm_compute; reflexivity|]. split; [vm_compute; reflexivity|].
  apply Hundated. right. exists (hour 10). split; vm_compute; reflexivity.
Defined.

Lemma deleteEvent_moves_to_deleted_items_witness :
  fst (deleteEvent "AAMk" Faulty.created) = inr tt /\
  items (server (world (snd (deleteEvent "AAMk" Faulty.created)))) = [] /\
  last (calls (world (snd (deleteEvent "AAMk" Faulty.created))))
       (CallBind handle0 EmptyString)
  = CallDelete handle0 Faulty.saved_item MoveToDeletedItems.
Proof.
  rewrite (@deleteEvent_moves_to_deleted_items _ mailbox "AAMk"
             Faulty.created Faulty.created handle0 Faulty.saved_item
             acquire_on_created eq_refl).
  repeat split; vm_compute; reflexivity.
Defined.

Lemma cleanup_forces_a_fresh_handle_witness :
  handle_for good_payload 1 <> handle0 /\
  constructed
    (world (snd (perform DoListCalendars
                   (cleanup (snd (listCalendars (initial good_payload)))))))
  = 2.
Proof.
  destruct (proj2 (proj2 (proj2 (proj2
              (@cleanup_forces_a_fresh_handle _ mailbox DoListCalendars
                 (snd (listCalendars (initial good_payload)))))))
              handle0 (handle_for good_payload 1)) as (A & _ & C).
  - vm_compute. reflexivity.
  - vm_compute. lia.
  - vm_compute. reflexivity.
  - split; [exact A|]. rewrite C. vm_compute. reflexivity.
Defined.

Lemma ntlm_payload_gets_ntlm_transport_witness :
  fst (@getExchangeService _ (Faulty.make None None None EmptyString)
         (initial ntlm_payload))
  = inr Faulty.ntlm_handle.
Proof.
  rewrite (@ntlm_payload_gets_ntlm_transport _
             (Faulty.make None None None EmptyString) (initial ntlm_payload));
    reflexivity.
Defined.

Lemma ntlm_failure_is_reported_as_such_witness :
  fst (getExchangeService (initial ntlm_payload)) = inl (JsError msg_ntlm_openssl) /\
  fst (@getExchangeService _
         (Faulty.make (Some (JsError "401 Unauthorized")) None None EmptyString)
         (initial ntlm_payload))
  = inl (JsError
           "NTLM authentication failed: 401 Unauthorized. Consider using Basic authentication instead.").
Proof.
  split.
  - rewrite (@ntlm_failure_is_reported_as_such _ mailbox (initial ntlm_payload)
               (JsError "error:0308010C:digital envelope routines::unsupported"));
      reflexivity.
  - rewrite (@ntlm_failure_is_reported_as_such _
               (Faulty.make (Some (JsError "401 Unauthorized")) None None EmptyString)
               (initial ntlm_payload) (JsError "401 Unauthorized"));
      reflexivity.
Defined.

Lemma no_request_without_handle_witness :
  perform (DoCreateEvent meeting) (initial ntlm_payload)
  = (Rejected (JsError msg_ntlm_openssl),
     with_world count_construction (initial ntlm_payload)) /\
  calls (world (with_world count_construction (initial ntlm_payload))) = [].
Proof.
  destruct (@no_request_without_handle _ mailbox (DoCreateEvent meeting)
              (initial ntlm_payload)
              (with_world count_construction (initial ntlm_payload))
              (JsError msg_ntlm_openssl)) as (H1 & H2 & _).
  - vm_compute. reflexivity.
  - split; [exact H1|exact H2].
Defined.

Lemma getAvailability_asks_every_chosen_calendar_witness :
  let racing := Faulty.racing "cal1" in
  let final := snd (@getAvailability _ racing
                      "2024-01-01T00:00:00Z" "2024-01-02T00:00:00Z"
                      (selection ["cal2"; "cal1"]) (initial good_payload)) in
  fst (@getAvailability _ racing "2024-01-01T00:00:00Z" "2024-01-02T00:00:00Z"
         (selection ["cal2"; "cal1"]) (initial good_payload))
  = inl (JsError "No answer from cal2") /\
  length (calls (world final)) = 4 /\
  @getAvailability _ racing "soon" "2024-01-02T00:00:00Z"
    (selection ["cal2"; "cal1"]) (initial good_payload)
  = (inl invalid_date, listed handle0 connected0).
Proof.
  intros racing final.
  set (cal1 := {| externalId := "cal1"; name := "Calendar"; primary := true;
                  integration := "exchange_calendar" |}).
  set (cal2 := {| externalId := "cal2"; name := EmptyString; primary := false;
                  integration := "exchange_calendar" |}).
  destruct (@getAvailability_asks_every_chosen_calendar _ racing
              "2024-01-01T00:00:00Z" "2024-01-02T00:00:00Z"
              (selection ["cal2"; "cal1"]) (initial good_payload)
              (listed handle0 connected0) [cal1; cal2])
    as (h & Hc & Hdated & _); [vm_compute; reflexivity|].
  destruct (@getAvailability_asks_every_chosen_calendar _ racing
              "soon" "2024-01-02T00:00:00Z"
              (selection ["cal2"; "cal1"]) (initial good_payload)
              (listed handle0 connected0) [cal1; cal2])
    as (h' & _ & _ & Hundated); [vm_compute; reflexivity|].
  injection Hc as <-.
  destruct (Hdated (hour 0) 20240102000000%Z)
    as (Hcalls & _ & Hsome & Hfirst & _);
    [vm_compute; reflexivity|vm_compute; reflexivity|].
  split; [|split].
  - destruct (Hsome cal1 (JsError "No answer from cal1")) as [e' He'];
      [vm_compute; auto|reflexivity|].
    destruct (Hfirst e' He') as (c & Hin & Ha & Hmin).
    vm_compute in Hin. destruct Hin as [<-|[<-|[]]].
    + pose proof (Hmin cal2 (JsError "No answer from cal2")
                    (or_intror (or_introl eq_refl)) eq_refl) as L.
      vm_compute in L. lia.
    + rewrite He'. vm_compute in Ha. congruence.
  - unfold final. rewrite Hcalls. vm_compute. reflexivity.
  - destruct (Hundated invalid_date) as [Hfinal Hresult];
      [left; vm_compute; reflexivity|].
    rewrite (surjective_pairing (getAvailability _ _ _ _)).
    rewrite Hfinal, Hresult. vm_compute. reflexivity.
Defined.

Lemma listCalendars_stops_at_the_first_rejection_witness :
  let broken := Faulty.make None (Some (JsError "ErrorFolderNotFound")) None EmptyString in
  @listCalendars _ broken (initial good_payload)
  = (inl (JsError "ErrorFolderNotFound"),
     with_world (record_call (CallFolderBind handle0 DeletedItems)) connected0).
Proof.
  intros broken.
  apply (proj1 (@listCalendars_stops_at_the_first_rejection _ broken
                  (initial good_payload) connected0 handle0 eq_refl)).
  reflexivity.
Defined.

Lemma adapter_invariant_witness :
  let st := cleanup (snd (perform DoListCalendars
                            {| this := adapter good_payload;
                               world := {| server := box; constructed := 3;
                                           calls := [] |} |})) in
  integrationName (this st) = "exchange_calendar" /\
  payload (this st) = good_payload.
Proof.
  intros st.
  destruct (@adapter_invariant _ mailbox (Some "secret") {| key := Some "enc:good" |}
              (adapter good_payload) st) as (H1 & H2 & _).
  - vm_compute. reflexivity.
  - apply reach_cleanup, reach_perform, reach_new.
  - split; [exact H1|exact H2].
Defined.

Lemma isValidEmail_shape_witness :
  count_char "@"%char "first.last@mail.example.org" = 1 /\
  all_chars (fun c => negb (is_space c)) "first.last@mail.example.org" = true.
Proof.
  apply (proj2 (isValidEmail_shape "first.last@mail.example.org")).
  vm_compute. reflexivity.
Defined.

Lemma valid_config_gets_suggestions_witness :
  exists l,
    Validation.getSuggestions Validation.simple_URL_parse
      (Validation.mkConfig "https://mail.x.com/owa/Exchange.asmx" "a@b.com" "p"
         (Some 1%Z) (Some 2%Z)) = inr l /\
    ~ In Validation.sugg_https l.
Proof.
  apply (valid_config_gets_suggestions Validation.simple_URL_parse).
  vm_compute. reflexivity.
Defined.

Lemma getSuggestions_throws_only_on_bad_url_witness :
  Validation.getSuggestions Validation.simple_URL_parse
    (Validation.mkConfig "mail.x.com/ews" "a@b.com" "p" None None)
  = inl Validation.invalid_url_error.
Proof.
  apply (proj1 (proj2 (getSuggestions_throws_only_on_bad_url
                         Validation.simple_URL_parse
                         (Validation.mkConfig "mail.x.com/ews" "a@b.com" "p" None None)))
           "mail.x.com/ews").
  - reflexivity.
  - discriminate.
  - vm_compute. reflexivity.
Defined.

Lemma isValidEwsUrl_ignores_case_witness :
  Validation.isValidEwsUrl Validation.simple_URL_parse
    "https://mail.x.com/Microsoft-Server-ActiveSync" = true.
Proof.
  apply (proj2 (isValidEwsUrl_ignores_case Validation.simple_URL_parse
                  "https://mail.x.com/Microsoft-Server-ActiveSync")
           {| Validation.protocol := "https:";
              Validation.pathname := "/Microsoft-Server-ActiveSync" |}
           "/Microsoft-Server-ActiveSync").
  - vm_compute. reflexivity.
  - reflexivity.
  - vm_compute. reflexivity.
  - vm_compute. auto.
Defined.

Lemma getSuggestions_contents_witness :
  In Validation.sugg_https
     [Validation.sugg_https; Validation.sugg_ews_path; Validation.sugg_upgrade] /\
  ~ In Validation.sugg_ntlm
     [Validation.sugg_https; Validation.sugg_ews_path; Validation.sugg_upgrade].
Proof.
  destruct (@getSuggestions_contents Validation.simple_URL_parse
              (Validation.mkConfig "http://mail.x.com/owa" "a@b.com" "p"
                 (Some 0%Z) (Some 3%Z))
              [Validation.sugg_https; Validation.sugg_ews_path;
               Validation.sugg_upgrade]) as (H1 & _ & H3 & _).
  - vm_compute. reflexivity.
  - split.
    + apply H1. do 2 eexists. repeat split; try reflexivity. discriminate.
    + intros K. apply H3 in K. discriminate.
Defined.

Lemma legacy_ntlm_failure_falls_back_witness :
  fst (@Legacy.getExchangeService _ mailbox (Faulty.legacy_state Faulty.ntlm_props))
  = inr handle0.
Proof.
  rewrite (@legacy_ntlm_failure_falls_back _ mailbox
             (Faulty.legacy_state Faulty.ntlm_props) Faulty.ntlm_props);
    reflexivity.
Defined.




Lemma handler_answers_reworded_errors_witness :
  PostAdd.failure_response
    (PostAdd.reason_of (classify (JsError "connect ECONNREFUSED 10.0.0.1:443")))
  = {| PostAdd.status := 500; PostAdd.text := PostAdd.msg_generic |}.
Proof.
  destruct (proj1 (handler_answers_reworded_errors
                     (JsError "connect ECONNREFUSED 10.0.0.1:443")))
    as [[E _]|[[[E|E] _]|[_ H]]].
  - vm_compute. discriminate.
  - vm_compute in E. discriminate.
  - vm_compute in E. discriminate.
  - vm_compute in E. discriminate.
  - exact H.
Defined.

End MoreOnTheMailbox.

(* ===================================================================== *)
(** * Properties of the request handler                                   *)
(* ===================================================================== *)

Section HandlerFacts.
Import CalendarService.
Context {S : Type} {collab : Collaborators S}.
Variable URL_parse : string -> option Validation.URL.
Variable symmetricEncrypt : string -> string -> JsThrown + string.
Variable JSON_stringify : JsValue -> string.
Variable prisma_create : PostAdd.CredentialRow -> option JsThrown.
Variable soap_fault : JsThrown -> bool.

Local Abbreviation handler :=
  (PostAdd.getHandler URL_parse symmetricEncrypt JSON_stringify prisma_create
     soap_fault).

Local Abbreviation row encrypted user :=
  {| PostAdd.type := "exchange_calendar"; PostAdd.key := encrypted;
     PostAdd.userId := user; PostAdd.teamId := JNull; PostAdd.appId := "exchange";
     PostAdd.invalid := false; PostAdd.delegationCredentialId := JNull |}.

(** A body that the validator refuses is answered before anything else
    happens: nothing is encrypted, no adapter is made, no request goes to
    the server and nothing is stored.  When its url parses (as the schema
    has checked), the answer is the 400 answer with the validator's errors,
    of which there is at least one, and the suggestions. *)
Theorem handler_refuses_invalid_body
    (env_key : option string) (user : JsValue) (body : PostAdd.Body)
    (timer_first : bool) (w : PostAdd.HandlerWorld) :
  Validation.isValid (Validation.validate URL_parse (PostAdd.config_of body)) = false ->
  snd (handler env_key user body timer_first w) = w /\
  (URL_parse (PostAdd.url body) <> None ->
   exists suggestions,
     Validation.getSuggestions URL_parse (PostAdd.config_of body) = inr suggestions /\
     fst (handler env_key user body timer_first w)
       = inr (PostAdd.BadRequest
                (Validation.errors
                   (Validation.validate URL_parse (PostAdd.config_of body)))
                suggestions) /\
     Validation.errors (Validation.validate URL_parse (PostAdd.config_of body)) <> []).
Proof.
  intros Hv. unfold PostAdd.getHandler. rewrite Hv. cbn [negb].
  split.
  - destruct (Validation.getSuggestions _ _); reflexivity.
  - intros Hu.
    assert (G : exists l, Validation.getSuggestions URL_parse (PostAdd.config_of body)
                          = inr l).
    { unfold Validation.getSuggestions, PostAdd.config_of, truthy_str, or_empty.
      cbn [Validation.url].
      destruct (negb (PostAdd.url body =? EmptyString)); [|eexists; reflexivity].
      destruct (URL_parse (PostAdd.url body)); [|contradiction].
      eexists; reflexivity. }
    destruct G as [l G]. exists l. rewrite G.
    split; [reflexivity|]. split; [reflexivity|].
    intros E.
    change (Validation.isValid (Validation.validate URL_parse (PostAdd.config_of body)))
      with (length (Validation.errors
                      (Validation.validate URL_parse (PostAdd.config_of body))) =? 0)%nat
      in Hv.
    rewrite E in Hv. discriminate.
Qed.

(** The handler stores a credential only together with the 200 answer, and
    gives that answer only when the validator has accepted the body, the
    encryption, the construction of the adapter and [prisma.create] have
    thrown nothing, [listCalendars] has resolved and did so before the
    timer.  Then exactly one row is added, holding the encrypted body.  In
    every other case the stored credentials are as before. *)
Theorem handler_stores_only_after_a_passed_test
    (env_key : option string) (user : JsValue) (body : PostAdd.Body)
    (timer_first : bool) (w : PostAdd.HandlerWorld) :
  let result := handler env_key user body timer_first w in
  (fst result = inr PostAdd.Installed ->
   exists encrypted service calendars st,
     Validation.isValid (Validation.validate URL_parse (PostAdd.config_of body)) = true /\
     symmetricEncrypt (JSON_stringify (PostAdd.body_json body)) (or_empty env_key)
       = inr encrypted /\
     new_ExchangeCalendarService env_key {| key := Some encrypted |} = inr service /\
     listCalendars {| this := service; world := PostAdd.exchange w |}
       = (inr calendars, st) /\
     timer_first = false /\
     prisma_create (row encrypted user) = None /\
     PostAdd.stored (snd result) = (PostAdd.stored w ++ [row encrypted user])%list) /\
  (fst result <> inr PostAdd.Installed ->
   PostAdd.stored (snd result) = PostAdd.stored w).
Proof.
  unfold PostAdd.getHandler. cbv zeta.
  destruct (Validation.isValid _) eqn:Hv; cbn [negb].
  2:{ destruct (Validation.getSuggestions _ _); cbn [fst snd];
        (split; [discriminate|reflexivity]). }
  destruct (symmetricEncrypt _ _) as [e|encrypted] eqn:He;
    [cbn [fst snd]; split; [discriminate|reflexivity]|].
  destruct (new_ExchangeCalendarService _ _) as [e|service] eqn:Hn;
    [cbn [fst snd]; split; [discriminate|reflexivity]|].
  destruct (listCalendars _) as [listed st] eqn:Hl.
  destruct timer_first;
    [cbn [fst snd]; split; [discriminate|reflexivity]|].
  destruct listed as [e|calendars];
    [cbn [fst snd]; split; [discriminate|reflexivity]|].
  destruct (prisma_create _) as [e|] eqn:Hp;
    [cbn [fst snd]; split; [discriminate|reflexivity]|].
  cbn [fst snd PostAdd.stored]. split.
  - intros _. exists encrypted, service, calendars, st. repeat split; auto.
  - intros K. now elim K.
Qed.

Lemma valid_body_has_the_required_fields (body : PostAdd.Body) :
  Validation.isValid (Validation.validate URL_parse (PostAdd.config_of body)) = true ->
  required_present (PostAdd.body_json body) = true.
Proof.
  intros H. apply valid_means_rules_hold in H.
  destruct H as (Hu & Hn & Hp & _).
  unfold Validation.rule_url, Validation.rule_username, Validation.rule_password,
    PostAdd.config_of in Hu, Hn, Hp.
  cbn [Validation.url Validation.username Validation.password] in Hu, Hn, Hp.
  apply andb_true_iff in Hu, Hn. destruct Hu as [Hu _], Hn as [Hn _].
  unfold required_present, PostAdd.body_json, opt_prop. cbn [assoc String.eqb
    Ascii.eqb Bool.eqb truthy].
  rewrite Hu, Hn. cbn [andb].
  destruct (PostAdd.password body); [discriminate|reflexivity].
Qed.

(** The validator secures what the adapter checks.  For a body that the
    validator accepts, when decrypting the stored key gives back the text
    that was encrypted and parsing that text gives back the body, the
    adapter made from the stored key holds the body as its payload, and its
    handle acquisition gets past the configuration check: it resolves or
    rejects only as the construction of the handle does. *)
Theorem valid_body_passes_the_configuration_check
    (env_key : option string) (body : PostAdd.Body) (encrypted : string)
    (w : World S) :
  Validation.isValid (Validation.validate URL_parse (PostAdd.config_of body)) = true ->
  symmetricDecrypt encrypted (or_empty env_key)
    = inr (JSON_stringify (PostAdd.body_json body)) ->
  JSON_parse (JSON_stringify (PostAdd.body_json body)) = inr (PostAdd.body_json body) ->
  let service := {| integrationName := "exchange_calendar";
                    payload := PostAdd.body_json body;
                    _exchangeService := None |} in
  let st := {| this := service; world := w |} in
  new_ExchangeCalendarService env_key {| key := Some encrypted |} = inr service /\
  getExchangeService st =
    match construction_failure (PostAdd.body_json body) with
    | Some (e, true) => (inl (classify e), with_world count_construction st)
    | Some (e, false) => (inl (classify e), st)
    | None =>
        (inr (handle_for (PostAdd.body_json body) (constructed w)),
         set_exchangeService
           (Some (handle_for (PostAdd.body_json body) (constructed w)))
           (with_world count_construction st))
    end.
Proof.
  intros Hv Hd Hp service st. split.
  - unfold new_ExchangeCalendarService, constructor_body.
    cbn [key or_empty]. rewrite Hd, Hp. reflexivity.
  - rewrite getExchangeService_eq. cbn [this _exchangeService st service payload].
    rewrite (valid_body_has_the_required_fields body Hv). reflexivity.
Qed.

End HandlerFacts.

Section HandlerRuns.
Import CalendarService InMemory.

Lemma handler_refuses_invalid_body_witness :
  let result :=
    @PostAdd.getHandler _ Faulty.handler_mailbox Validation.simple_URL_parse
      Faulty.encrypt Faulty.stringify (fun _ => None) (fun _ => false)
      (Some "secret") (JNum 7) Faulty.http_body false Faulty.handler_world in
  snd result = Faulty.handler_world /\
  fst result
    = inr (PostAdd.BadRequest [Validation.msg_url_invalid] [Validation.sugg_https]).
Proof.
  destruct (@handler_refuses_invalid_body _ Faulty.handler_mailbox
              Validation.simple_URL_parse Faulty.encrypt Faulty.stringify
              (fun _ => None) (fun _ => false) (Some "secret") (JNum 7)
              Faulty.http_body false Faulty.handler_world) as [Hw Hr].
  - vm_compute. reflexivity.
  - destruct Hr as (l & Hl & Hf & _); [vm_compute; discriminate|].
    cbv zeta. split; [exact Hw|].
    rewrite Hf. vm_compute in Hl. injection Hl as <-.
    vm_compute. reflexivity.
Defined.

Lemma handler_stores_only_after_a_passed_test_witness :
  PostAdd.stored
    (snd (@PostAdd.getHandler _ Faulty.handler_mailbox Validation.simple_URL_parse
            Faulty.encrypt Faulty.stringify (fun _ => None) (fun _ => false)
            (Some "secret") (JNum 7) Faulty.demo_body true Faulty.handler_world))
  = [].
Proof.
  apply (proj2 (@handler_stores_only_after_a_passed_test _ Faulty.handler_mailbox
                  Validation.simple_URL_parse Faulty.encrypt Faulty.stringify
                  (fun _ => None) (fun _ => false) (Some "secret") (JNum 7)
                  Faulty.demo_body true Faulty.handler_world)).
  vm_compute. discriminate.
Defined.

Example handler_installs :
  let result :=
    @PostAdd.getHandler _ Faulty.handler_mailbox Validation.simple_URL_parse
      Faulty.encrypt Faulty.stringify (fun _ => None) (fun _ => false)
      (Some "secret") (JNum 7) Faulty.demo_body false Faulty.handler_world in
  fst result = inr PostAdd.Installed /\
  map PostAdd.key (PostAdd.stored (snd result)) = ["enc:body"] /\
  length (calls (PostAdd.exchange (snd result))) = 2.
Proof. vm_compute. repeat split. Qed.

Lemma valid_body_passes_the_configuration_check_witness :
  @new_ExchangeCalendarService _ Faulty.handler_mailbox (Some "secret")
    {| key := Some "enc:body" |}
  = inr {| integrationName := "exchange_calendar";
           payload := PostAdd.body_json Faulty.demo_body;
           _exchangeService := None |}.
Proof.
  apply (@valid_body_passes_the_configuration_check _ Faulty.handler_mailbox
           Validation.simple_URL_parse Faulty.stringify (Some "secret")
           Faulty.demo_body "enc:body"
           {| server := box; constructed := 0; calls := [] |});
    vm_compute; reflexivity.
Defined.

End HandlerRuns.
